(** * NuclideRemoteEventbus: the client-side remote event bus of Nuclide

    A shallow embedding of [NuclideRemoteEventbus] (the class that multiplexes
    RPC calls, event subscriptions and server-pushed event streams over one
    [NuclideSocket]) together with the parts of the JavaScript runtime it
    relies on: Node's [EventEmitter], promises, [setTimeout] and event-kit's
    [Disposable].

    Conventions of the model.

    - The object's fields keep their names.  The emitters created by
      [consumeEventEmitter] live in a heap ([streams]) because they are
      shared between the lookup table [_eventEmitters] and the caller.
    - Closures are defunctionalised: a [Callback] is one of the three kinds
      of function the class ever registers as a listener, a [Frame] is the
      rest of an [async] function after an [await] (or a [then] callback).
    - Every operation returns the new state, the effects it had on the
      outside world in order ([Effect]) and either a value or a thrown
      exception ([Res]).
    - The event loop is a labelled transition system ([Step]).  Timers and
      promise jobs fire in any order, which covers the order the real
      scheduler picks.
    - Numbers are integers ([Z]); request ids stay far below 2^53, where
      JavaScript numbers are exact.
    - Inbound envelopes are records whose fields are optional ([None] is a
      missing field) and, when present, have the type the sender gives them.
    - Callbacks supplied by callers are opaque: running one is recorded as an
      effect, it neither throws nor re-enters the bus.  The meta events
      [newListener] and [removeListener] of Node's emitter are not modelled. *)

From Stdlib Require Import ZArith List String Ascii Lia.
From stdpp Require Import base tactics option list gmap strings pretty fin_maps.

Local Open Scope Z_scope.

(** ** JavaScript values *)

#[local] Unset Elimination Schemes.
Inductive JsVal : Type :=
| JUndefined
| JNull
| JBool (b : bool)
| JNum (n : Z)
| JStr (s : string)
| JArr (elems : list JsVal)
| JObj (fields : list (string * JsVal))
| JError (kind message : string)
| JEmitter (a : nat).
#[local] Set Elimination Schemes.

(** [ToBoolean]: what [x ? _ : _], [x && _] and [!x] test. *)
Definition truthy (v : JsVal) : bool :=
  match v with
  | JUndefined | JNull => false
  | JBool b => b
  | JNum n => negb (Z.eqb n 0)
  | JStr s => negb (String.eqb s EmptyString)
  | JArr _ | JObj _ | JError _ _ | JEmitter _ => true
  end.

(** The characters ["0"] to ["9"]. *)
Definition is_digit (c : ascii) : bool :=
  (48 <=? nat_of_ascii c)%nat && (nat_of_ascii c <=? 57)%nat.

(** [null.p] and [undefined.p] raise a TypeError. *)
Definition nullDeref (p : string) : JsVal :=
  JError "TypeError" ("Cannot read property '" +:+ p +:+ "' of null")%string.

Definition undefinedDeref (p : string) : JsVal :=
  JError "TypeError" ("Cannot read property '" +:+ p +:+ "' of undefined")%string.

(** [s.split('/')] *)
Fixpoint split_slash (s : string) : list string :=
  match s with
  | EmptyString => [EmptyString]
  | String c s' =>
      if Ascii.eqb c "/"%char then EmptyString :: split_slash s'
      else match split_slash s' with
           | x :: xs => String c x :: xs
           | [] => [String c EmptyString]
           end
  end.

(** [[x].concat(v)]: an array argument is spliced, anything else is appended
    as one element. *)
Definition concat1 (x v : JsVal) : list JsVal :=
  match v with
  | JArr l => x :: l
  | _ => [x; v]
  end.

(** A property key or template hole built from an optional string: a missing
    one reads [undefined]. *)
Definition key_of (o : option string) : string := default "undefined" o.

Definition str_val (o : option string) : JsVal :=
  match o with Some s => JStr s | None => JUndefined end.

Definition num_val (o : option Z) : JsVal :=
  match o with Some n => JNum n | None => JUndefined end.

(** ** Wire data *)

(** The [event] member of an inbound envelope. *)
Module Event.
Record t : Type := mk {
  name : option string;
  args : JsVal;
  eventEmitterId : option Z;
  type : option string;
  rest : list (string * JsVal)
}.

(** The event as the JavaScript object it is, for listeners that receive it
    whole. *)
Definition to_val (e : t) : JsVal :=
  JObj (("name", str_val (name e)) :: ("args", args e)
        :: ("eventEmitterId", num_val (eventEmitterId e))
        :: ("type", str_val (type e)) :: rest e).
End Event.

(** An inbound envelope, as [_handleSocketMessage] destructures it. *)
Module Message.
Record t : Type := mk {
  channel : option string;
  event : option Event.t;
  requestId : option Z;
  hadError : JsVal;
  error : JsVal;
  result : JsVal
}.
End Message.

(** The object handed to [socket.send] by [callServiceFrameworkMethod]. *)
Module Request.
Record t : Type := mk {
  serviceName : string;
  methodName : string;
  methodArgs : list JsVal;
  serviceOptions : JsVal;
  requestId : Z
}.
End Request.

(** The object handed to [socket.xhrRequest] by [callMethod], before
    [extraOptions] are merged over it by [object.assign]. *)
Module Xhr.
Record t : Type := mk {
  uri : string;
  qs_args : JsVal;
  qs_argTypes : JsVal;
  method : string;
  extraOptions : JsVal
}.
End Xhr.

(** ** Node's EventEmitter *)

(** The functions this class registers as listeners. *)
Inductive Callback : Type :=
| CbSettle (rid : Z)
    (** [(error, result) => { error ? reject(error) : resolve(result); }] of
        the call with request id [rid] *)
| CbDeleteEmitter (id : Z)
    (** [() => delete this._eventEmitters[eventEmitterId]] *)
| CbUser (h : nat)
    (** a function supplied from outside the class *).

Record Listener : Type := mkListener { fn : Callback; once_only : bool }.

#[global] Instance Callback_eq_dec : EqDecision Callback.
Proof. solve_decision. Defined.

#[global] Instance Listener_eq_dec : EqDecision Listener.
Proof. solve_decision. Defined.

(** [_events]: the listeners of each event name in registration order; a name
    without listeners has no entry. *)
Abbreviation Emitter := (gmap string (list Listener)).

Module EventEmitter.

Definition listeners (name : string) (em : Emitter) : list Listener :=
  default [] (em !! name).

Definition addListener (name : string) (l : Listener) (em : Emitter) : Emitter :=
  <[name := listeners name em ++ [l]]> em.

Definition on (name : string) (cb : Callback) : Emitter -> Emitter :=
  addListener name (mkListener cb false).

Definition once (name : string) (cb : Callback) : Emitter -> Emitter :=
  addListener name (mkListener cb true).

Definition removeAllListeners (name : string) (em : Emitter) : Emitter :=
  delete name em.

(** Index of the last listener satisfying [p]; the source scans from the end. *)
Fixpoint last_index (p : Listener -> bool) (ls : list Listener) : option nat :=
  match ls with
  | [] => None
  | l :: rest =>
      match last_index p rest with
      | Some i => Some (S i)
      | None => if p l then Some 0%nat else None
      end
  end.

Definition store (name : string) (ls : list Listener) (em : Emitter) : Emitter :=
  match ls with
  | [] => delete name em
  | _ => <[name := ls]> em
  end.

(** [removeListener(name, cb)]: drops the most recently added listener that is
    [cb] or a once-wrapper of [cb]. *)
Definition removeListener (name : string) (cb : Callback) (em : Emitter) : Emitter :=
  match em !! name with
  | None => em
  | Some ls =>
      match last_index (fun l => bool_decide (fn l = cb)) ls with
      | None => em
      | Some i => store name (delete i ls) em
      end
  end.

(** Index of the first listener equal to [l]. *)
Fixpoint first_index (l : Listener) (ls : list Listener) : option nat :=
  match ls with
  | [] => None
  | l' :: rest =>
      if bool_decide (l' = l) then Some 0%nat
      else S <$> first_index l rest
  end.

(** What a once-wrapper does before it calls its function: it removes itself.
    While [emit] walks its snapshot the wrappers in front of this one are
    already gone, so the wrapper is the first listener equal to it. *)
Definition removeWrapper (name : string) (l : Listener) (em : Emitter) : Emitter :=
  match em !! name with
  | None => em
  | Some ls =>
      match first_index l ls with
      | None => em
      | Some i => store name (delete i ls) em
      end
  end.

End EventEmitter.

(** ** Runtime objects *)

(** A [NuclideSocket]; the class reads its [id] and calls [send],
    [xhrRequest], [waitForConnect] and [close] on it. *)
Record NuclideSocket : Type := mkSocket { id : JsVal }.

Inductive PState : Type :=
| Pending
| Resolved (v : JsVal)
| Rejected (e : JsVal).

(** Promises are named by what created them: the promise returned by the call
    with request id [rid], the [n]-th promise made by an [async] function or
    by [then], the [n]-th promise handed out by the socket. *)
Inductive PromiseRef : Type :=
| PRpc (rid : Z)
| PAsync (n : nat)
| PSocket (n : nat).

Inductive EmitterRef : Type :=
| Eventbus
| ServiceFrameworkEventEmitter
| ServiceFrameworkRpcEmitter
| ServiceFramework3Emitter
| Stream (a : nat).

#[global] Instance EmitterRef_eq_dec : EqDecision EmitterRef.
Proof. solve_decision. Defined.

#[global] Instance PromiseRef_eq_dec : EqDecision PromiseRef.
Proof. solve_decision. Defined.

(** The closure handed to [setTimeout] by [callServiceFrameworkMethod]; its
    request id is the key it is stored under. *)
Record Timer : Type := mkTimer {
  timeout : Z;
  timer_serviceName : string;
  timer_methodName : string
}.

(** The rest of an [async] function after an [await], or a [then] callback.
    The first argument is the promise the continuation settles. *)
Inductive Frame : Type :=
| FCallMethod (r : nat)
    (** [callMethod] after [await this.socket.xhrRequest(...)] *)
| FCallSubscribe1 (s : nat) (channel : string) (options : JsVal)
    (** [_callSubscribe] after [await this.socket.waitForConnect()] *)
| FCallSubscribe2 (s : nat)
    (** [_callSubscribe] after [await this.callMethod(...)] *)
| FConsume (c : nat) (eventEmitter : nat)
    (** [consumeEventEmitter] after [await this._callSubscribe(...)] *)
| FUnsubscribe (t : nat) (serviceName : string) (eventMethodName serviceOptions : JsVal)
    (** [() => this._unsubscribeEventFromServer(...)], passed to [then] *)
| FAdopt (t : nat)
    (** a promise resolved with another promise follows it *).

Record Reaction : Type := mkReaction { awaited : PromiseRef; frame : Frame }.

(** The [Disposable] returned by [registerEventListener], with the variables
    its disposal action closes over. *)
Record Disposable : Type := mkDisposable {
  disposed : bool;
  d_remoteEventName : string;
  d_callback : nat;
  d_subscribePromise : PromiseRef;
  d_serviceName : string;
  d_eventMethodName : JsVal;
  d_serviceOptions : JsVal
}.

(** ** The state *)

Record State : Type := mkState {
  (* the fields of NuclideRemoteEventbus *)
  socket : option NuclideSocket;
  eventbus : Emitter;
  serviceFrameworkEventEmitter : Emitter;
  _rpcRequestId : Z;
  _serviceFrameworkRpcEmitter : Emitter;
  _serviceFramework3Emitter : Emitter;
  _eventEmitters : gmap Z nat;
  (* the emitters made by consumeEventEmitter *)
  streams : gmap nat Emitter;
  next_emitter : nat;
  (* promises, timers, promise reactions, disposables *)
  rpc_promises : gmap Z PState;
  async_promises : list PState;
  socket_promises : list PState;
  timers : gmap Z Timer;
  reactions : list Reaction;
  disposables : list Disposable
}.

Definition set_socket (v : option NuclideSocket) (st : State) : State :=
  {| socket := v; eventbus := eventbus st; serviceFrameworkEventEmitter :=
     serviceFrameworkEventEmitter st; _rpcRequestId := _rpcRequestId st;
     _serviceFrameworkRpcEmitter := _serviceFrameworkRpcEmitter st;
     _serviceFramework3Emitter := _serviceFramework3Emitter st; _eventEmitters :=
     _eventEmitters st; streams := streams st; next_emitter := next_emitter st;
     rpc_promises := rpc_promises st; async_promises := async_promises st;
     socket_promises := socket_promises st; timers := timers st; reactions := reactions
     st; disposables := disposables st |}.

Definition set_eventbus (v : Emitter) (st : State) : State :=
  {| socket := socket st; eventbus := v; serviceFrameworkEventEmitter :=
     serviceFrameworkEventEmitter st; _rpcRequestId := _rpcRequestId st;
     _serviceFrameworkRpcEmitter := _serviceFrameworkRpcEmitter st;
     _serviceFramework3Emitter := _serviceFramework3Emitter st; _eventEmitters :=
     _eventEmitters st; streams := streams st; next_emitter := next_emitter st;
     rpc_promises := rpc_promises st; async_promises := async_promises st;
     socket_promises := socket_promises st; timers := timers st; reactions := reactions
     st; disposables := disposables st |}.

Definition set_serviceFrameworkEventEmitter (v : Emitter) (st : State) : State :=
  {| socket := socket st; eventbus := eventbus st; serviceFrameworkEventEmitter := v;
     _rpcRequestId := _rpcRequestId st; _serviceFrameworkRpcEmitter :=
     _serviceFrameworkRpcEmitter st; _serviceFramework3Emitter :=
     _serviceFramework3Emitter st; _eventEmitters := _eventEmitters st; streams :=
     streams st; next_emitter := next_emitter st; rpc_promises := rpc_promises st;
     async_promises := async_promises st; socket_promises := socket_promises st; timers
     := timers st; reactions := reactions st; disposables := disposables st |}.

Definition set__rpcRequestId (v : Z) (st : State) : State :=
  {| socket := socket st; eventbus := eventbus st; serviceFrameworkEventEmitter :=
     serviceFrameworkEventEmitter st; _rpcRequestId := v; _serviceFrameworkRpcEmitter :=
     _serviceFrameworkRpcEmitter st; _serviceFramework3Emitter :=
     _serviceFramework3Emitter st; _eventEmitters := _eventEmitters st; streams :=
     streams st; next_emitter := next_emitter st; rpc_promises := rpc_promises st;
     async_promises := async_promises st; socket_promises := socket_promises st; timers
     := timers st; reactions := reactions st; disposables := disposables st |}.

Definition set__serviceFrameworkRpcEmitter (v : Emitter) (st : State) : State :=
  {| socket := socket st; eventbus := eventbus st; serviceFrameworkEventEmitter :=
     serviceFrameworkEventEmitter st; _rpcRequestId := _rpcRequestId st;
     _serviceFrameworkRpcEmitter := v; _serviceFramework3Emitter :=
     _serviceFramework3Emitter st; _eventEmitters := _eventEmitters st; streams :=
     streams st; next_emitter := next_emitter st; rpc_promises := rpc_promises st;
     async_promises := async_promises st; socket_promises := socket_promises st; timers
     := timers st; reactions := reactions st; disposables := disposables st |}.

Definition set__serviceFramework3Emitter (v : Emitter) (st : State) : State :=
  {| socket := socket st; eventbus := eventbus st; serviceFrameworkEventEmitter :=
     serviceFrameworkEventEmitter st; _rpcRequestId := _rpcRequestId st;
     _serviceFrameworkRpcEmitter := _serviceFrameworkRpcEmitter st;
     _serviceFramework3Emitter := v; _eventEmitters := _eventEmitters st; streams :=
     streams st; next_emitter := next_emitter st; rpc_promises := rpc_promises st;
     async_promises := async_promises st; socket_promises := socket_promises st; timers
     := timers st; reactions := reactions st; disposables := disposables st |}.

Definition set__eventEmitters (v : gmap Z nat) (st : State) : State :=
  {| socket := socket st; eventbus := eventbus st; serviceFrameworkEventEmitter :=
     serviceFrameworkEventEmitter st; _rpcRequestId := _rpcRequestId st;
     _serviceFrameworkRpcEmitter := _serviceFrameworkRpcEmitter st;
     _serviceFramework3Emitter := _serviceFramework3Emitter st; _eventEmitters := v;
     streams := streams st; next_emitter := next_emitter st; rpc_promises :=
     rpc_promises st; async_promises := async_promises st; socket_promises :=
     socket_promises st; timers := timers st; reactions := reactions st; disposables :=
     disposables st |}.

Definition set_streams (v : gmap nat Emitter) (st : State) : State :=
  {| socket := socket st; eventbus := eventbus st; serviceFrameworkEventEmitter :=
     serviceFrameworkEventEmitter st; _rpcRequestId := _rpcRequestId st;
     _serviceFrameworkRpcEmitter := _serviceFrameworkRpcEmitter st;
     _serviceFramework3Emitter := _serviceFramework3Emitter st; _eventEmitters :=
     _eventEmitters st; streams := v; next_emitter := next_emitter st; rpc_promises :=
     rpc_promises st; async_promises := async_promises st; socket_promises :=
     socket_promises st; timers := timers st; reactions := reactions st; disposables :=
     disposables st |}.

Definition set_next_emitter (v : nat) (st : State) : State :=
  {| socket := socket st; eventbus := eventbus st; serviceFrameworkEventEmitter :=
     serviceFrameworkEventEmitter st; _rpcRequestId := _rpcRequestId st;
     _serviceFrameworkRpcEmitter := _serviceFrameworkRpcEmitter st;
     _serviceFramework3Emitter := _serviceFramework3Emitter st; _eventEmitters :=
     _eventEmitters st; streams := streams st; next_emitter := v; rpc_promises :=
     rpc_promises st; async_promises := async_promises st; socket_promises :=
     socket_promises st; timers := timers st; reactions := reactions st; disposables :=
     disposables st |}.

Definition set_rpc_promises (v : gmap Z PState) (st : State) : State :=
  {| socket := socket st; eventbus := eventbus st; serviceFrameworkEventEmitter :=
     serviceFrameworkEventEmitter st; _rpcRequestId := _rpcRequestId st;
     _serviceFrameworkRpcEmitter := _serviceFrameworkRpcEmitter st;
     _serviceFramework3Emitter := _serviceFramework3Emitter st; _eventEmitters :=
     _eventEmitters st; streams := streams st; next_emitter := next_emitter st;
     rpc_promises := v; async_promises := async_promises st; socket_promises :=
     socket_promises st; timers := timers st; reactions := reactions st; disposables :=
     disposables st |}.

Definition set_async_promises (v : list PState) (st : State) : State :=
  {| socket := socket st; eventbus := eventbus st; serviceFrameworkEventEmitter :=
     serviceFrameworkEventEmitter st; _rpcRequestId := _rpcRequestId st;
     _serviceFrameworkRpcEmitter := _serviceFrameworkRpcEmitter st;
     _serviceFramework3Emitter := _serviceFramework3Emitter st; _eventEmitters :=
     _eventEmitters st; streams := streams st; next_emitter := next_emitter st;
     rpc_promises := rpc_promises st; async_promises := v; socket_promises :=
     socket_promises st; timers := timers st; reactions := reactions st; disposables :=
     disposables st |}.

Definition set_socket_promises (v : list PState) (st : State) : State :=
  {| socket := socket st; eventbus := eventbus st; serviceFrameworkEventEmitter :=
     serviceFrameworkEventEmitter st; _rpcRequestId := _rpcRequestId st;
     _serviceFrameworkRpcEmitter := _serviceFrameworkRpcEmitter st;
     _serviceFramework3Emitter := _serviceFramework3Emitter st; _eventEmitters :=
     _eventEmitters st; streams := streams st; next_emitter := next_emitter st;
     rpc_promises := rpc_promises st; async_promises := async_promises st;
     socket_promises := v; timers := timers st; reactions := reactions st; disposables
     := disposables st |}.

Definition set_timers (v : gmap Z Timer) (st : State) : State :=
  {| socket := socket st; eventbus := eventbus st; serviceFrameworkEventEmitter :=
     serviceFrameworkEventEmitter st; _rpcRequestId := _rpcRequestId st;
     _serviceFrameworkRpcEmitter := _serviceFrameworkRpcEmitter st;
     _serviceFramework3Emitter := _serviceFramework3Emitter st; _eventEmitters :=
     _eventEmitters st; streams := streams st; next_emitter := next_emitter st;
     rpc_promises := rpc_promises st; async_promises := async_promises st;
     socket_promises := socket_promises st; timers := v; reactions := reactions st;
     disposables := disposables st |}.

Definition set_reactions (v : list Reaction) (st : State) : State :=
  {| socket := socket st; eventbus := eventbus st; serviceFrameworkEventEmitter :=
     serviceFrameworkEventEmitter st; _rpcRequestId := _rpcRequestId st;
     _serviceFrameworkRpcEmitter := _serviceFrameworkRpcEmitter st;
     _serviceFramework3Emitter := _serviceFramework3Emitter st; _eventEmitters :=
     _eventEmitters st; streams := streams st; next_emitter := next_emitter st;
     rpc_promises := rpc_promises st; async_promises := async_promises st;
     socket_promises := socket_promises st; timers := timers st; reactions := v;
     disposables := disposables st |}.

Definition set_disposables (v : list Disposable) (st : State) : State :=
  {| socket := socket st; eventbus := eventbus st; serviceFrameworkEventEmitter :=
     serviceFrameworkEventEmitter st; _rpcRequestId := _rpcRequestId st;
     _serviceFrameworkRpcEmitter := _serviceFrameworkRpcEmitter st;
     _serviceFramework3Emitter := _serviceFramework3Emitter st; _eventEmitters :=
     _eventEmitters st; streams := streams st; next_emitter := next_emitter st;
     rpc_promises := rpc_promises st; async_promises := async_promises st;
     socket_promises := socket_promises st; timers := timers st; reactions := reactions
     st; disposables := v |}.

Definition get_emitter (r : EmitterRef) (st : State) : Emitter :=
  match r with
  | Eventbus => eventbus st
  | ServiceFrameworkEventEmitter => serviceFrameworkEventEmitter st
  | ServiceFrameworkRpcEmitter => _serviceFrameworkRpcEmitter st
  | ServiceFramework3Emitter => _serviceFramework3Emitter st
  | Stream a => default ∅ (streams st !! a)
  end.

Definition set_emitter (r : EmitterRef) (em : Emitter) (st : State) : State :=
  match r with
  | Eventbus => set_eventbus em st
  | ServiceFrameworkEventEmitter => set_serviceFrameworkEventEmitter em st
  | ServiceFrameworkRpcEmitter => set__serviceFrameworkRpcEmitter em st
  | ServiceFramework3Emitter => set__serviceFramework3Emitter em st
  | Stream a => set_streams (<[a := em]> (streams st)) st
  end.

Definition update_emitter (r : EmitterRef) (f : Emitter -> Emitter) (st : State) : State :=
  set_emitter r (f (get_emitter r st)) st.

Definition pstate (p : PromiseRef) (st : State) : option PState :=
  match p with
  | PRpc rid => rpc_promises st !! rid
  | PAsync n => async_promises st !! n
  | PSocket n => socket_promises st !! n
  end.

Definition set_pstate (p : PromiseRef) (s : PState) (st : State) : State :=
  match p with
  | PRpc rid => set_rpc_promises (<[rid := s]> (rpc_promises st)) st
  | PAsync n => set_async_promises (<[n := s]> (async_promises st)) st
  | PSocket n => set_socket_promises (<[n := s]> (socket_promises st)) st
  end.

(** [resolve] and [reject] act on a pending promise and are ignored by a
    settled one. *)
Definition settle (p : PromiseRef) (s : PState) (st : State) : State :=
  match pstate p st with
  | Some Pending => set_pstate p s st
  | _ => st
  end.

(** ** Effects and the monad of operations *)

Inductive LogCall : Type :=
| LogEmitterNotFound (eventEmitterId : Z) (type : JsVal) (args : JsVal)
    (** [logger.error('eventEmitter not found: %d', eventEmitterId, type, args)] *)
| LogClosed (serviceName methodName : string)
    (** [logger.error('RemoteEventBus closed - callMethod:', ...)] *)
| LogErr (err : JsVal)
    (** [logger.error(err)] *).

Inductive Effect : Type :=
| ESend (r : Request.t)                (** [socket.send(r)] *)
| EXhrRequest (x : Xhr.t)              (** [socket.xhrRequest(x)] *)
| EWaitForConnect                      (** [socket.waitForConnect()] *)
| ESocketClose                         (** [socket.close()] *)
| ELoggerError (l : LogCall)           (** [logger.error(...)] *)
| EEmit (target : EmitterRef) (name : string) (args : list JsVal)
                                       (** [target.emit(name, ...args)] is called *)
| EInvoke (h : nat) (args : list JsVal)
                                       (** the outside function [h] is called *)
| ERequestId (rid : Z)                 (** [this._rpcRequestId++] yields [rid] *).

Inductive Res (A : Type) : Type :=
| Ok (a : A)
| Throw (e : JsVal).
Arguments Ok {A} a.
Arguments Throw {A} e.

Record Out (A : Type) : Type := mkOut { post : State; fx : list Effect; val : Res A }.
Arguments mkOut {A} post fx val.
Arguments post {A} o.
Arguments fx {A} o.
Arguments val {A} o.

Definition M (A : Type) : Type := State -> Out A.

Definition ret {A : Type} (a : A) : M A := fun st => mkOut st [] (Ok a).

Definition bind {A B : Type} (m : M A) (k : A -> M B) : M B := fun st =>
  match m st with
  | mkOut st1 fx1 (Ok a) =>
      match k a st1 with
      | mkOut st2 fx2 r => mkOut st2 (fx1 ++ fx2) r
      end
  | mkOut st1 fx1 (Throw e) => mkOut st1 fx1 (Throw e)
  end.

Definition throw {A : Type} (e : JsVal) : M A := fun st => mkOut st [] (Throw e).
Definition tell (e : Effect) : M unit := fun st => mkOut st [e] (Ok tt).
Definition get : M State := fun st => mkOut st [] (Ok st).
Definition modify (f : State -> State) : M unit := fun st => mkOut (f st) [] (Ok tt).

Arguments ret {A} a _ /.
Arguments bind {A B} m k _ /.
Arguments throw {A} e _ /.
Arguments tell e _ /.
Arguments get _ /.
Arguments modify f _ /.

#[global] Instance M_ret : MRet M := @ret.
#[global] Instance M_bind : MBind M := fun A B k m => bind m k.

(** [try { m } catch (e) { h e }] *)
Definition catch {A : Type} (m : M A) (h : JsVal -> M A) : M A := fun st =>
  match m st with
  | mkOut st1 fx1 (Ok a) => mkOut st1 fx1 (Ok a)
  | mkOut st1 fx1 (Throw e) =>
      match h e st1 with
      | mkOut st2 fx2 r => mkOut st2 (fx1 ++ fx2) r
      end
  end.

Arguments catch {A} m h _ /.

(** [array.forEach(f)] *)
Fixpoint forEach {A : Type} (l : list A) (f : A -> M unit) : M unit :=
  match l with
  | [] => ret tt
  | x :: rest => f x ;; forEach rest f
  end.

(** ** The modules the class imports that are not part of this development *)

(** Modelled as parameters: the constants of [./config],
    [getRemoteEventName] of [./service-manager] and [serializeArgs] of
    [./utils]. *)
Class Config : Type := {
  SERVICE_FRAMEWORK_EVENT_CHANNEL : string;
  SERVICE_FRAMEWORK_RPC_CHANNEL : string;
  SERVICE_FRAMEWORK_RPC_TIMEOUT_MS : Z;
  SERVICE_FRAMEWORK3_CHANNEL : string;
  getRemoteEventName : string -> JsVal -> JsVal -> string;
  serializeArgs : list JsVal -> JsVal * JsVal
}.

(** ** The class *)

Section NuclideRemoteEventbus.
Context `{!Config}.

(** [new NuclideRemoteEventbus(serverUri, options)], given the socket the
    constructor creates. *)
Definition constructor (sock : NuclideSocket) : State :=
  {| socket := Some sock;
     eventbus := ∅;
     serviceFrameworkEventEmitter := ∅;
     _rpcRequestId := 1;
     _serviceFrameworkRpcEmitter := ∅;
     _serviceFramework3Emitter := ∅;
     _eventEmitters := ∅;
     streams := ∅;
     next_emitter := 0;
     rpc_promises := ∅;
     async_promises := [];
     socket_promises := [];
     timers := ∅;
     reactions := [];
     disposables := [] |}.

(** *** Runtime primitives *)

(** Calling a listener. *)
Definition run_callback (cb : Callback) (args : list JsVal) : M unit :=
  match cb with
  | CbSettle rid =>
      let error := nth 0 args JUndefined in
      let result := nth 1 args JUndefined in
      if truthy error then modify (settle (PRpc rid) (Rejected error))
      else modify (settle (PRpc rid) (Resolved result))
  | CbDeleteEmitter eventEmitterId =>
      modify (fun st => set__eventEmitters (delete eventEmitterId (_eventEmitters st)) st)
  | CbUser h => tell (EInvoke h args)
  end.

(** The loop of [emit] over its snapshot of the listeners. *)
Fixpoint call_listeners (r : EmitterRef) (name : string) (snapshot : list Listener)
    (args : list JsVal) : M unit :=
  match snapshot with
  | [] => mret tt
  | l :: rest =>
      (if once_only l
       then modify (update_emitter r (EventEmitter.removeWrapper name l))
       else mret tt) ;;
      run_callback (fn l) args ;;
      call_listeners r name rest args
  end.

(** What [emit('error', er)] throws when nothing listens for ['error']. *)
Definition unhandled_error (args : list JsVal) : JsVal :=
  match args with
  | JError k m :: _ => JError k m
  | _ => JError "Error" "Uncaught, unspecified 'error' event."
  end.

(** [r.emit(name, ...args)] *)
Definition emit (r : EmitterRef) (name : string) (args : list JsVal) : M bool :=
  tell (EEmit r name args) ;;
  st ← get;
  match get_emitter r st !! name with
  | None =>
      if bool_decide (name = "error"%string) then throw (unhandled_error args)
      else mret false
  | Some snapshot => call_listeners r name snapshot args ;; mret true
  end.

(** The promise object an [async] function or [then] returns. *)
Definition new_promise : M nat := fun st =>
  mkOut (set_async_promises (async_promises st ++ [Pending]) st) []
        (Ok (length (async_promises st))).

(** [await p] with the rest of the function as [k], and [p.then(k)]. *)
Definition await (p : PromiseRef) (k : Frame) : M unit :=
  modify (fun st => set_reactions (reactions st ++ [mkReaction p k]) st).

(** [new EventEmitter()] *)
Definition new_emitter : M nat := fun st =>
  mkOut (set_next_emitter (S (next_emitter st))
           (set_streams (<[next_emitter st := ∅]> (streams st)) st)) []
        (Ok (next_emitter st)).

(** The promise a method of the socket returns. *)
Definition socket_promise : M nat := fun st =>
  mkOut (set_socket_promises (socket_promises st ++ [Pending]) st) []
        (Ok (length (socket_promises st))).

(** [this._rpcRequestId++] *)
Definition nextRequestId : M Z := fun st =>
  mkOut (set__rpcRequestId (_rpcRequestId st + 1) st) [ERequestId (_rpcRequestId st)]
        (Ok (_rpcRequestId st)).

(** *** Methods *)

(** [[event.name].concat(event.args)] without its head: the arguments the
    listeners receive. *)
Definition spread (v : JsVal) : list JsVal :=
  match v with
  | JArr l => l
  | _ => [v]
  end.

Definition event_val (event : option Event.t) : JsVal :=
  match event with
  | Some ev => Event.to_val ev
  | None => JUndefined
  end.

Definition _handleSocketMessage (message : Message.t) : M unit :=
  let channel := Message.channel message in
  let event := Message.event message in
  if bool_decide (channel = Some SERVICE_FRAMEWORK_RPC_CHANNEL) then
    match Message.requestId message with
    | None => throw (undefinedDeref "toString")
    | Some requestId =>
        emit ServiceFrameworkRpcEmitter (pretty requestId)
             [Message.error message; Message.result message] ;;
        mret tt
    end
  else if bool_decide (channel = Some SERVICE_FRAMEWORK_EVENT_CHANNEL) then
    match event with
    | None => throw (undefinedDeref "name")
    | Some ev =>
        emit ServiceFrameworkEventEmitter (key_of (Event.name ev)) (spread (Event.args ev)) ;;
        mret tt
    end
  else if bool_decide (channel = Some SERVICE_FRAMEWORK3_CHANNEL) then
    match Message.requestId message with
    | None => throw (undefinedDeref "toString")
    | Some requestId =>
        emit ServiceFramework3Emitter (pretty requestId)
             [Message.hadError message; Message.error message; Message.result message] ;;
        mret tt
    end
  else
    (* [true]: the function has not returned yet *)
    continue ←
      match event with
      | Some ev =>
          if truthy (num_val (Event.eventEmitterId ev)) then
            let eventEmitterId := default 0 (Event.eventEmitterId ev) in
            st ← get;
            match _eventEmitters st !! eventEmitterId with
            | None =>
                tell (ELoggerError (LogEmitterNotFound eventEmitterId
                                      (str_val (Event.type ev)) (Event.args ev))) ;;
                mret false
            | Some a =>
                emit (Stream a) (key_of (Event.type ev)) (spread (Event.args ev)) ;;
                mret true
            end
          else mret true
      | None => mret true
      end;
    if continue : bool then emit Eventbus (key_of channel) [event_val event] ;; mret tt
    else mret tt.

Definition callServiceFrameworkMethod (serviceName methodName : string)
    (methodArgs : list JsVal) (serviceOptions : JsVal) (timeout : option Z)
    : M PromiseRef :=
  let timeout := default SERVICE_FRAMEWORK_RPC_TIMEOUT_MS timeout in
  requestId ← nextRequestId;
  st ← get;
  match socket st with
  | None =>
      (* [this.socket.send] raises; the async function returns a rejected promise *)
      modify (set_pstate (PRpc requestId) (Rejected (nullDeref "send"))) ;;
      mret (PRpc requestId)
  | Some _ =>
      tell (ESend (Request.mk serviceName methodName methodArgs serviceOptions requestId)) ;;
      modify (set_pstate (PRpc requestId) Pending) ;;
      modify (update_emitter ServiceFrameworkRpcEmitter
                (EventEmitter.once (pretty requestId) (CbSettle requestId))) ;;
      modify (fun st => set_timers
                (<[requestId := mkTimer timeout serviceName methodName]> (timers st)) st) ;;
      mret (PRpc requestId)
  end.

(** The function handed to [setTimeout] for the call [requestId] runs. *)
Definition timeout_message (tm : Timer) : string :=
  "Timeout after " +:+ pretty (timeout tm) +:+ " for "
    +:+ timer_serviceName tm +:+ "/" +:+ timer_methodName tm.

Definition timer_fires (requestId : Z) : M unit :=
  st ← get;
  match timers st !! requestId with
  | None => mret tt
  | Some tm =>
      modify (fun st => set_timers (delete requestId (timers st)) st) ;;
      modify (update_emitter ServiceFrameworkRpcEmitter
                (EventEmitter.removeAllListeners (pretty requestId))) ;;
      modify (settle (PRpc requestId) (Rejected (JStr (timeout_message tm))))
  end.

Definition _subscribeEventOnServer (serviceName : string) (methodName serviceOptions : JsVal)
    : M PromiseRef :=
  st ← get;
  match socket st with
  | None => throw (nullDeref "id")
  | Some sock =>
      callServiceFrameworkMethod "serviceFramework" "subscribeEvent"
        [id sock; JStr serviceName; methodName] serviceOptions None
  end.

Definition _unsubscribeEventFromServer (serviceName : string) (methodName serviceOptions : JsVal)
    : M PromiseRef :=
  st ← get;
  match socket st with
  | None => throw (nullDeref "id")
  | Some sock =>
      callServiceFrameworkMethod "serviceFramework" "unsubscribeEvent"
        [id sock; JStr serviceName; methodName] serviceOptions None
  end.

(** Returns the index of the new [Disposable]. *)
Definition registerEventListener (localEventName : string) (callback : nat)
    (serviceOptions : JsVal) : M nat :=
  let parts := split_slash localEventName in
  let serviceName := nth 0 parts EmptyString in
  let eventMethodName := str_val (parts !! 1%nat) in
  let remoteEventName := getRemoteEventName serviceName eventMethodName serviceOptions in
  modify (update_emitter ServiceFrameworkEventEmitter
            (EventEmitter.on remoteEventName (CbUser callback))) ;;
  subscribePromise ← _subscribeEventOnServer serviceName eventMethodName serviceOptions;
  st ← get;
  modify (fun st => set_disposables
            (disposables st ++
               [mkDisposable false remoteEventName callback subscribePromise
                             serviceName eventMethodName serviceOptions]) st) ;;
  mret (length (disposables st)).

(** [dispose()] of the [d]-th disposable: event-kit runs the disposal action
    the first time only and drops what it returns. *)
Definition dispose (d : nat) : M unit :=
  st ← get;
  match disposables st !! d with
  | None => mret tt
  | Some D =>
      if disposed D then mret tt
      else
        modify (set_disposables
                  (<[d := mkDisposable true (d_remoteEventName D) (d_callback D)
                            (d_subscribePromise D) (d_serviceName D)
                            (d_eventMethodName D) (d_serviceOptions D)]> (disposables st))) ;;
        modify (update_emitter ServiceFrameworkEventEmitter
                  (EventEmitter.removeListener (d_remoteEventName D) (CbUser (d_callback D)))) ;;
        t ← new_promise;
        await (d_subscribePromise D)
              (FUnsubscribe t (d_serviceName D) (d_eventMethodName D) (d_serviceOptions D))
  end.

(** Returns the index of the promise of the [async] function. *)
Definition callMethod (serviceName methodName : string) (methodArgs : option (list JsVal))
    (extraOptions : JsVal) : M nat :=
  r ← new_promise;
  st ← get;
  match socket st with
  | None =>
      tell (ELoggerError (LogClosed serviceName methodName)) ;;
      modify (settle (PAsync r) (Resolved JUndefined)) ;;
      mret r
  | Some _ =>
      let (args, argTypes) := serializeArgs (default [] methodArgs) in
      tell (EXhrRequest (Xhr.mk (serviceName +:+ "/" +:+ methodName) args argTypes
                                "GET" extraOptions)) ;;
      x ← socket_promise;
      await (PSocket x) (FCallMethod r) ;;
      mret r
  end.

(** A parameter declared with a default value ([p = d]) takes the default
    when the argument is [undefined]. *)
Definition default_param (d v : JsVal) : JsVal :=
  match v with JUndefined => d | _ => v end.

Definition _callSubscribe (channel : string) (options : JsVal) : M nat :=
  let options := default_param (JObj []) options in
  s ← new_promise;
  st ← get;
  match socket st with
  | None =>
      modify (settle (PAsync s) (Rejected (nullDeref "waitForConnect"))) ;;
      mret s
  | Some _ =>
      tell EWaitForConnect ;;
      w ← socket_promise;
      await (PSocket w) (FCallSubscribe1 s channel options) ;;
      mret s
  end.

Definition eventEmitterChannel (id : Z) : string := "event_emitter/" +:+ pretty id.

Definition consumeEventEmitter (eventEmitterId : Z) (eventNames : list string)
    (disposeEventNames : option (list string)) : M nat :=
  c ← new_promise;
  eventEmitter ← new_emitter;
  modify (fun st => set__eventEmitters (<[eventEmitterId := eventEmitter]> (_eventEmitters st)) st) ;;
  forEach (default [] disposeEventNames) (fun disposeEventName =>
    modify (update_emitter (Stream eventEmitter)
              (EventEmitter.once disposeEventName (CbDeleteEmitter eventEmitterId)))) ;;
  s ← _callSubscribe (eventEmitterChannel eventEmitterId)
        (JObj [("eventEmitterId"%string, JNum eventEmitterId);
               ("eventNames"%string, JArr (map JStr eventNames))]);
  await (PAsync s) (FConsume c eventEmitter) ;;
  mret c.

Definition consumeStream (streamId : Z) : M nat :=
  let streamEvents := ["data"; "error"; "close"; "end"]%string in
  consumeEventEmitter streamId streamEvents (Some ["end"%string]).

Definition close : M unit :=
  st ← get;
  match socket st with
  | None => throw (nullDeref "close")
  | Some _ => tell ESocketClose ;; modify (set_socket None)
  end.

(** *** The event loop *)

(** A continuation runs with the outcome of the promise it waited for. *)
Definition resume (k : Frame) (outcome : JsVal + JsVal) : M unit :=
  match k, outcome with
  | FCallMethod r, inl v => modify (settle (PAsync r) (Resolved v))
  | FCallMethod r, inr err =>
      (* [catch (err) { logger.error(err); throw err; }] *)
      tell (ELoggerError (LogErr err)) ;;
      modify (settle (PAsync r) (Rejected err))
  | FCallSubscribe1 s channel options, inl _ =>
      st ← get;
      match socket st with
      | None => modify (settle (PAsync s) (Rejected (nullDeref "id")))
      | Some sock =>
          m ← callMethod "eventbus" "subscribe" (Some [id sock; JStr channel; options])
                (JObj [("method"%string, JStr "POST"); ("json"%string, JBool true)]);
          await (PAsync m) (FCallSubscribe2 s)
      end
  | FCallSubscribe1 s _ _, inr err => modify (settle (PAsync s) (Rejected err))
  | FCallSubscribe2 s, inl _ => modify (settle (PAsync s) (Resolved JUndefined))
  | FCallSubscribe2 s, inr err => modify (settle (PAsync s) (Rejected err))
  | FConsume c eventEmitter, inl _ => modify (settle (PAsync c) (Resolved (JEmitter eventEmitter)))
  | FConsume c _, inr err => modify (settle (PAsync c) (Rejected err))
  | FUnsubscribe t serviceName eventMethodName serviceOptions, inl _ =>
      (* an exception in a [then] callback rejects the promise [then] returned *)
      catch (u ← _unsubscribeEventFromServer serviceName eventMethodName serviceOptions;
             await u (FAdopt t))
            (fun err => modify (settle (PAsync t) (Rejected err)))
  | FUnsubscribe t _ _ _, inr err => modify (settle (PAsync t) (Rejected err))
  | FAdopt t, inl v => modify (settle (PAsync t) (Resolved v))
  | FAdopt t, inr err => modify (settle (PAsync t) (Rejected err))
  end.

(** The job of the [k]-th registered reaction runs; it can only once the
    promise it waits for is settled. *)
Definition reaction_runs (k : nat) : M unit :=
  st ← get;
  match reactions st !! k with
  | None => mret tt
  | Some r =>
      match pstate (awaited r) st with
      | Some (Resolved v) =>
          modify (fun st => set_reactions (delete k (reactions st)) st) ;;
          resume (frame r) (inl v)
      | Some (Rejected e) =>
          modify (fun st => set_reactions (delete k (reactions st)) st) ;;
          resume (frame r) (inr e)
      | _ => mret tt
      end
  end.

(** The socket settles the [n]-th promise it handed out. *)
Definition socket_settles (n : nat) (outcome : JsVal + JsVal) : M unit :=
  modify (settle (PSocket n)
            match outcome with inl v => Resolved v | inr e => Rejected e end).

(** Code outside the class attaches a function of its own to an emitter it
    can reach: the public [eventbus] and [serviceFrameworkEventEmitter], the
    emitters returned by [consumeEventEmitter], and
    [_serviceFramework3Emitter], which the constructor hands to
    [ServiceFramework.ClientComponent].  [_serviceFrameworkRpcEmitter] is not
    reachable from outside. *)
Definition attach_listener (r : EmitterRef) (name : string) (h : nat) (once_only : bool)
    : M unit :=
  st ← get;
  match r with
  | ServiceFrameworkRpcEmitter => mret tt
  | Stream a =>
      if bool_decide (a < next_emitter st)%nat
      then modify (update_emitter r (EventEmitter.addListener name (mkListener (CbUser h) once_only)))
      else mret tt
  | _ => modify (update_emitter r (EventEmitter.addListener name (mkListener (CbUser h) once_only)))
  end.

(** Everything that can happen to one bus. *)
Inductive Step : Type :=
| CallServiceFrameworkMethod (serviceName methodName : string) (methodArgs : list JsVal)
    (serviceOptions : JsVal) (timeout : option Z)
| CallMethod (serviceName methodName : string) (methodArgs : option (list JsVal))
    (extraOptions : JsVal)
| RegisterEventListener (localEventName : string) (callback : nat) (serviceOptions : JsVal)
| Dispose (d : nat)
| ConsumeEventEmitter (eventEmitterId : Z) (eventNames : list string)
    (disposeEventNames : option (list string))
| ConsumeStream (streamId : Z)
| Close
| GenerateRequestId
    (** [() => this._rpcRequestId++], the generator given to the ClientComponent *)
| AttachListener (r : EmitterRef) (name : string) (h : nat) (once_only : bool)
| SocketMessage (message : Message.t)
    (** the socket emits ['message'] *)
| TimerFires (requestId : Z)
| ReactionRuns (k : nat)
| SocketSettles (n : nat) (outcome : JsVal + JsVal).

Definition step (e : Step) : M unit :=
  match e with
  | CallServiceFrameworkMethod s m a o t => callServiceFrameworkMethod s m a o t ;; mret tt
  | CallMethod s m a o => callMethod s m a o ;; mret tt
  | RegisterEventListener n c o => registerEventListener n c o ;; mret tt
  | Dispose d => dispose d
  | ConsumeEventEmitter i ns ds => consumeEventEmitter i ns ds ;; mret tt
  | ConsumeStream i => consumeStream i ;; mret tt
  | Close => close
  | GenerateRequestId => nextRequestId ;; mret tt
  | AttachListener r n h o => attach_listener r n h o
  | SocketMessage message => _handleSocketMessage message
  | TimerFires requestId => timer_fires requestId
  | ReactionRuns k => reaction_runs k
  | SocketSettles n outcome => socket_settles n outcome
  end.

(** A run of the event loop.  An exception ends the turn that raised it, not
    the loop. *)
Fixpoint run (es : list Step) (st : State) : State :=
  match es with
  | [] => st
  | e :: rest => run rest (post (step e st))
  end.

Fixpoint run_fx (es : list Step) (st : State) : list Effect :=
  match es with
  | [] => []
  | e :: rest => fx (step e st) ++ run_fx rest (post (step e st))
  end.

Inductive reachable : State -> Prop :=
| reachable_init sock : reachable (constructor sock)
| reachable_step st e : reachable st -> reachable (post (step e st)).

End NuclideRemoteEventbus.

(** ** What a run shows to the outside *)

(** The request ids handed out, in order. *)
Definition request_ids (l : list Effect) : list Z :=
  omap (fun e => match e with ERequestId rid => Some rid | _ => None end) l.

(** The emitters [emit] was called on, in order. *)
Definition dispatched (l : list Effect) : list EmitterRef :=
  omap (fun e => match e with EEmit r _ _ => Some r | _ => None end) l.

(** The requests handed to [socket.send], in order. *)
Definition sent (l : list Effect) : list Request.t :=
  omap (fun e => match e with ESend r => Some r | _ => None end) l.

(** The calls of [logger.error], in order. *)
Definition logged (l : list Effect) : list LogCall :=
  omap (fun e => match e with ELoggerError c => Some c | _ => None end) l.

(** The outside functions run, in order. *)
Definition invoked (l : list Effect) : list (nat * list JsVal) :=
  omap (fun e => match e with EInvoke h args => Some (h, args) | _ => None end) l.

(** Effects that use the socket. *)
Definition uses_socket (e : Effect) : bool :=
  match e with
  | ESend _ | EXhrRequest _ | EWaitForConnect | ESocketClose => true
  | _ => false
  end.

(** The pending request of a call: its one-shot listener on the RPC emitter. *)
Definition rpc_listener (rid : Z) : Listener := mkListener (CbSettle rid) true.

Definition pending_request (rid : Z) (st : State) : Prop :=
  EventEmitter.listeners (pretty rid) (_serviceFrameworkRpcEmitter st) <> [].

(** The state change a listener makes when it is called, and what it shows. *)
Definition callback_effect (cb : Callback) (args : list JsVal) (st : State) : State :=
  match cb with
  | CbSettle rid =>
      if truthy (nth 0 args JUndefined)
      then settle (PRpc rid) (Rejected (nth 0 args JUndefined)) st
      else settle (PRpc rid) (Resolved (nth 1 args JUndefined)) st
  | CbDeleteEmitter eventEmitterId =>
      set__eventEmitters (delete eventEmitterId (_eventEmitters st)) st
  | CbUser _ => st
  end.

Definition callback_fx (cb : Callback) (args : list JsVal) : list Effect :=
  match cb with
  | CbUser h => [EInvoke h args]
  | _ => []
  end.

Fixpoint listeners_effect (r : EmitterRef) (name : string) (snapshot : list Listener)
    (args : list JsVal) (st : State) : State :=
  match snapshot with
  | [] => st
  | l :: rest =>
      listeners_effect r name rest args
        (callback_effect (fn l) args
           (if once_only l then update_emitter r (EventEmitter.removeWrapper name l) st
            else st))
  end.

(** The settled state a response gives the promise of its call. *)
Definition response_outcome (message : Message.t) : PState :=
  if truthy (Message.error message) then Rejected (Message.error message)
  else Resolved (Message.result message).

(** An envelope carries the fields its channel requires. *)
Definition fields_present `{!Config} (message : Message.t) : Prop :=
  (Message.channel message = Some SERVICE_FRAMEWORK_RPC_CHANNEL ->
   is_Some (Message.requestId message)) /\
  (Message.channel message = Some SERVICE_FRAMEWORK3_CHANNEL ->
   is_Some (Message.requestId message)) /\
  (Message.channel message = Some SERVICE_FRAMEWORK_EVENT_CHANNEL ->
   is_Some (Message.event message)).

(** Nothing in the envelope names the event ['error'], which Node's emitter
    treats specially. *)
Definition no_error_event (message : Message.t) : Prop :=
  Message.channel message <> Some "error"%string /\
  forall ev, Message.event message = Some ev ->
    Event.name ev <> Some "error"%string /\ Event.type ev <> Some "error"%string.

(** A stream event: an envelope outside the three framework channels whose
    event carries a truthy [eventEmitterId]. *)
Definition stream_event `{!Config} (message : Message.t) (eventEmitterId : Z)
    (type : option string) (args : JsVal) : Prop :=
  Message.channel message <> Some SERVICE_FRAMEWORK_RPC_CHANNEL /\
  Message.channel message <> Some SERVICE_FRAMEWORK_EVENT_CHANNEL /\
  Message.channel message <> Some SERVICE_FRAMEWORK3_CHANNEL /\
  exists ev, Message.event message = Some ev /\
    Event.eventEmitterId ev = Some eventEmitterId /\
    Event.type ev = type /\ Event.args ev = args.

(** [this.eventbus.emit(channel, event)] *)
Definition generic_emit (message : Message.t) : M bool :=
  emit Eventbus (key_of (Message.channel message)) [event_val (Message.event message)].

(** The destinations of an envelope, as a table: the three framework channels
    have one emitter each; a stream event goes to the emitter registered for
    its id and then to the generic bus, or nowhere when the id is not
    registered; everything else goes to the generic bus. *)
Definition destinations `{!Config} (st : State) (message : Message.t) : list EmitterRef :=
  let channel := Message.channel message in
  if bool_decide (channel = Some SERVICE_FRAMEWORK_RPC_CHANNEL)
  then [ServiceFrameworkRpcEmitter]
  else if bool_decide (channel = Some SERVICE_FRAMEWORK_EVENT_CHANNEL)
  then [ServiceFrameworkEventEmitter]
  else if bool_decide (channel = Some SERVICE_FRAMEWORK3_CHANNEL)
  then [ServiceFramework3Emitter]
  else match Message.event message ≫= Event.eventEmitterId with
       | Some eventEmitterId =>
           if bool_decide (eventEmitterId = 0) then [Eventbus]
           else match _eventEmitters st !! eventEmitterId with
                | Some a => [Stream a; Eventbus]
                | None => []
                end
       | None => [Eventbus]
       end.


(** ** A sample configuration and sample envelopes *)

Definition sample_config : Config :=
  {| SERVICE_FRAMEWORK_EVENT_CHANNEL := "service_framework_event";
     SERVICE_FRAMEWORK_RPC_CHANNEL := "service_framework_rpc";
     SERVICE_FRAMEWORK_RPC_TIMEOUT_MS := 60000;
     SERVICE_FRAMEWORK3_CHANNEL := "service_framework3_rpc";
     getRemoteEventName := fun serviceName eventMethodName _ =>
       (serviceName +:+ "/" +:+
          match eventMethodName with JStr s => s | _ => "undefined" end)%string;
     serializeArgs := fun args => (JArr args, JArr (map (fun _ => JStr "any") args)) |}.

Definition sample_socket : NuclideSocket := mkSocket (JStr "client-1").

(** [{channel: 'service_framework_rpc', requestId, error, result}] *)
Definition rpc_response (requestId : option Z) (error result : JsVal) : Message.t :=
  Message.mk (Some "service_framework_rpc"%string) None requestId JUndefined error result.

(** [{channel, event: {eventEmitterId, type, args}}] *)
Definition stream_message (channel : string) (eventEmitterId : Z) (type : string)
    (args : list JsVal) : Message.t :=
  Message.mk (Some channel)
    (Some (Event.mk None (JArr args) (Some eventEmitterId) (Some type) []))
    None JUndefined JUndefined JUndefined.

(** The state after [consumeStream(7)] with an outside function on the new
    emitter under ['data'] and one on the generic bus under the channel of
    the stream. *)
Definition consumed_7 : State :=
  @run sample_config
      [ConsumeStream 7;
       AttachListener (Stream 0) "data"%string 2%nat false;
       AttachListener Eventbus "event_emitter/7"%string 1%nat false]
      (constructor sample_socket).

Definition data_7 : Message.t :=
  stream_message "event_emitter/7"%string 7 "data"%string [JStr "line"%string].

Definition end_7 : Message.t :=
  stream_message "event_emitter/7"%string 7 "end"%string [].



(** ** The operations a turn of the event loop is made of *)

(** The part of [consumeEventEmitter] before [_callSubscribe]: the new
    emitter is entered in the table and gets its disposing listeners. *)
Definition register_emitter (eventEmitterId : Z) (disposeEventNames : option (list string))
    : M nat :=
  eventEmitter ← new_emitter;
  modify (fun st => set__eventEmitters (<[eventEmitterId := eventEmitter]> (_eventEmitters st)) st) ;;
  forEach (default [] disposeEventNames) (fun disposeEventName =>
    modify (update_emitter (Stream eventEmitter)
              (EventEmitter.once disposeEventName (CbDeleteEmitter eventEmitterId)))) ;;
  mret eventEmitter.

(** The state after the [forEach] of [consumeEventEmitter]. *)
Fixpoint install_disposers (eventEmitter : nat) (eventEmitterId : Z)
    (disposeEventNames : list string) (st : State) : State :=
  match disposeEventNames with
  | [] => st
  | disposeEventName :: rest =>
      install_disposers eventEmitter eventEmitterId rest
        (update_emitter (Stream eventEmitter)
           (EventEmitter.once disposeEventName (CbDeleteEmitter eventEmitterId)) st)
  end.

Definition is_unsubscribe (k : Frame) : bool :=
  match k with
  | FUnsubscribe _ _ _ _ => true
  | _ => false
  end.

Definition is_rpc (p : PromiseRef) : bool :=
  match p with
  | PRpc _ => true
  | _ => false
  end.

(** Operations that keep the invariants of the state on their own, by kind. *)
Inductive Kind : Type :=
| KEmit
| KTimer (requestId : Z)
| KRegister (eventEmitterId : Z)
| KOther.

Inductive elementary `{!Config} : Kind -> forall {A : Type}, M A -> Prop :=
| el_callServiceFrameworkMethod s m a o t :
    elementary KOther (callServiceFrameworkMethod s m a o t)
| el_callMethod s m a o : elementary KOther (callMethod s m a o)
| el_callSubscribe channel options : elementary KOther (_callSubscribe channel options)
| el_timer_fires requestId : elementary (KTimer requestId) (timer_fires requestId)
| el_emit r name args : elementary KEmit (emit r name args)
| el_dispose d : elementary KOther (dispose d)
| el_close : elementary KOther close
| el_nextRequestId : elementary KOther nextRequestId
| el_attach_listener r name h o : elementary KOther (attach_listener r name h o)
| el_register_emitter i ds : elementary (KRegister i) (register_emitter i ds)
| el_new_promise : elementary KOther new_promise
| el_settle p s : is_rpc p = false -> elementary KOther (modify (settle p s))
| el_await p k : is_unsubscribe k = false -> elementary KOther (await p k)
| el_drop_reaction k :
    elementary KOther (modify (fun st => set_reactions (delete k (reactions st)) st))
| el_log c : elementary KOther (tell (ELoggerError c))
| el_on name h :
    elementary KOther (modify (update_emitter ServiceFrameworkEventEmitter
                                 (EventEmitter.on name (CbUser h))))
| el_new_disposable D :
    disposed D = false ->
    elementary KOther (modify (fun st => set_disposables (disposables st ++ [D]) st)).

(** Operations put together from elementary ones of the allowed kinds. *)
Inductive composed `{!Config} (allowed : Kind -> Prop) : forall {A : Type}, M A -> Prop :=
| co_elementary k {A} (m : M A) : allowed k -> elementary k m -> composed allowed m
| co_ret {A} (a : A) : composed allowed (ret a)
| co_throw {A} e : composed allowed (@throw A e)
| co_get : composed allowed get
| co_bind {A B} (m : M A) (k : A -> M B) :
    composed allowed m -> (forall a, composed allowed (k a)) -> composed allowed (bind m k)
| co_catch {A} (m : M A) (h : JsVal -> M A) :
    composed allowed m -> (forall e, composed allowed (h e)) -> composed allowed (catch m h).

(** The kinds of elementary operation a turn can contain. *)
Definition step_kind (e : Step) (k : Kind) : Prop :=
  match e with
  | SocketMessage _ => k = KEmit \/ k = KOther
  | TimerFires requestId => k = KTimer requestId
  | ConsumeEventEmitter i _ _ | ConsumeStream i => k = KRegister i \/ k = KOther
  | _ => k = KOther
  end.

(** A relation between the state before, the effects and the state after that
    holds of no change and of one change after another. *)
Record Compositional (R : State -> list Effect -> State -> Prop) : Prop := {
  comp_refl : forall st, R st [] st;
  comp_trans : forall st fx1 st1 fx2 st2,
    R st fx1 st1 -> R st1 fx2 st2 -> R st (fx1 ++ fx2) st2
}.

Definition sat {A : Type} (R : State -> list Effect -> State -> Prop) (m : M A) : Prop :=
  forall st, R st (fx (m st)) (post (m st)).

(** Once the socket is gone it stays gone, and nothing uses it. *)
Definition closed_rel (st : State) (f : list Effect) (st' : State) : Prop :=
  socket st = None ->
  socket st' = None /\ Forall (fun e => uses_socket e = false) f.

(** ** Invariants of the reachable states *)

Definition user_listener (l : Listener) : Prop := exists h, fn l = CbUser h.

(** The one-shot listener [consumeEventEmitter] puts on a new emitter for each
    of its dispose events. *)
Definition dispose_listener (eventEmitterId : Z) : Listener :=
  mkListener (CbDeleteEmitter eventEmitterId) true.

(** Calls: the RPC emitter holds one one-shot listener per request that is
    still waited for, under the request id as a decimal string, and the timer
    of that request has not fired; promises exist for request ids that were
    handed out only; a call is pending exactly as long as it has its
    listener. *)
Record wf_calls (st : State) : Prop := mkWfCalls {
  wf_rpc : forall name ls,
    _serviceFrameworkRpcEmitter st !! name = Some ls ->
    exists rid, name = pretty rid /\ ls = [rpc_listener rid] /\
      rid < _rpcRequestId st /\ is_Some (timers st !! rid);
  wf_promises : forall rid s,
    rpc_promises st !! rid = Some s -> rid < _rpcRequestId st;
  wf_pending : forall rid,
    rpc_promises st !! rid = Some Pending ->
    _serviceFrameworkRpcEmitter st !! pretty rid = Some [rpc_listener rid];
  wf_listening : forall rid ls,
    _serviceFrameworkRpcEmitter st !! pretty rid = Some ls ->
    rpc_promises st !! rid = Some Pending
}.

(** Listeners: the other emitters of the class hold outside functions only; a
    stream emitter holds outside functions and its own dispose listeners, and
    is in the table under its own id at most; the table holds emitters that
    exist. *)
Record wf_listeners (st : State) : Prop := mkWfListeners {
  wf_user : forall r name ls l,
    r = Eventbus \/ r = ServiceFrameworkEventEmitter \/ r = ServiceFramework3Emitter ->
    get_emitter r st !! name = Some ls -> l ∈ ls -> user_listener l;
  wf_stream : forall a name ls l,
    get_emitter (Stream a) st !! name = Some ls -> l ∈ ls ->
    user_listener l \/
    exists i, l = dispose_listener i /\
      forall i', _eventEmitters st !! i' = Some a -> i' = i;
  wf_table : forall i a, _eventEmitters st !! i = Some a -> (a < next_emitter st)%nat
}.

(** A waiting unsubscribe belongs to a disposed subscription and waits for
    the promise of its subscribe call. *)
Definition wf_unsubs (st : State) : Prop :=
  forall k r t s m o,
    reactions st !! k = Some r -> frame r = FUnsubscribe t s m o ->
    exists d D, disposables st !! d = Some D /\ disposed D = true /\
      awaited r = d_subscribePromise D /\ s = d_serviceName D /\
      m = d_eventMethodName D /\ o = d_serviceOptions D.

Record wf (st : State) : Prop := mkWf {
  wf_c : wf_calls st;
  wf_l : wf_listeners st;
  wf_u : wf_unsubs st
}.

Definition wf_rel (st : State) (f : list Effect) (st' : State) : Prop := wf st -> wf st'.

(** An emitter that lost listeners and gained none. *)
Definition shrinks (em em' : Emitter) : Prop :=
  forall name ls', em' !! name = Some ls' ->
    exists ls, em !! name = Some ls /\ ls' ⊆ ls.

(** The request ids handed out during a run count up from the counter. *)
Definition ids_rel (st : State) (f : list Effect) (st' : State) : Prop :=
  request_ids f = seqZ (_rpcRequestId st) (Z.of_nat (length (request_ids f))) /\
  _rpcRequestId st' = _rpcRequestId st + Z.of_nat (length (request_ids f)).

(** A promise that exists stays, a settled one keeps its state, and nothing
    becomes pending. *)
Definition promises_settle (st st' : State) : Prop :=
  forall rid,
    (rpc_promises st' !! rid = None <-> rpc_promises st !! rid = None) /\
    (rpc_promises st' !! rid = Some Pending -> rpc_promises st !! rid = Some Pending) /\
    (forall s, rpc_promises st !! rid = Some s -> s <> Pending ->
       rpc_promises st' !! rid = Some s).

(** Request ids that were handed out keep their timer until it fires and
    their promise once it is settled. *)
Definition frozen_rel (st : State) (f : list Effect) (st' : State) : Prop :=
  _rpcRequestId st <= _rpcRequestId st' /\
  (forall rid, rid < _rpcRequestId st ->
     timers st' !! rid = timers st !! rid \/ timers st' !! rid = None) /\
  (forall rid s, rid < _rpcRequestId st ->
     rpc_promises st !! rid = Some s -> s <> Pending ->
     rpc_promises st' !! rid = Some s).

(** The request [rid] is left alone. *)
Definition quiet_rel (rid : Z) (st : State) (f : list Effect) (st' : State) : Prop :=
  rid < _rpcRequestId st ->
  rid < _rpcRequestId st' /\
  rpc_promises st' !! rid = rpc_promises st !! rid.

(** ** Stream emitters *)







(** The emitter [a] exists and is not in the table. *)
Definition detached (a : nat) (st : State) : Prop :=
  (a < next_emitter st)%nat /\ forall i, _eventEmitters st !! i <> Some a.

Definition detached_rel (a : nat) (st : State) (f : list Effect) (st' : State) : Prop :=
  detached a st -> detached a st'.

(** Nothing happens to the table, and stream emitters gain outside functions
    at most. *)
Definition attaches_rel (st : State) (f : list Effect) (st' : State) : Prop :=
  next_emitter st' = next_emitter st /\
  _eventEmitters st' = _eventEmitters st /\
  forall a name, exists us,
    Forall user_listener us /\
    EventEmitter.listeners name (get_emitter (Stream a) st') =
    EventEmitter.listeners name (get_emitter (Stream a) st) ++ us.

(** ** Subscriptions *)

(** The same subscription, disposed or not. *)
Definition same_subscription (D D' : Disposable) : Prop :=
  d_remoteEventName D' = d_remoteEventName D /\
  d_callback D' = d_callback D /\
  d_subscribePromise D' = d_subscribePromise D /\
  d_serviceName D' = d_serviceName D /\
  d_eventMethodName D' = d_eventMethodName D /\
  d_serviceOptions D' = d_serviceOptions D /\
  (disposed D = true -> disposed D' = true).

(** Disposables stay what they are, up to being disposed. *)
Definition disposables_rel (st : State) (f : list Effect) (st' : State) : Prop :=
  forall d D, disposables st !! d = Some D ->
    exists D', disposables st' !! d = Some D' /\ same_subscription D D'.

Definition unsubscribe_request (r : Request.t) : Prop :=
  Request.methodName r = "unsubscribeEvent"%string.

(** The turns that send an unsubscribe request: a call of
    [callServiceFrameworkMethod] from outside that names the method itself,
    and the job of a disposal, which runs when the promise of the subscribe
    call is resolved. *)
Definition sends_unsubscribe (st : State) (e : Step) : Prop :=
  (exists serviceName methodArgs serviceOptions timeout,
     e = CallServiceFrameworkMethod serviceName "unsubscribeEvent" methodArgs
           serviceOptions timeout) \/
  (exists k t d D v,
     e = ReactionRuns k /\
     reactions st !! k =
       Some (mkReaction (d_subscribePromise D)
               (FUnsubscribe t (d_serviceName D) (d_eventMethodName D) (d_serviceOptions D))) /\
     disposables st !! d = Some D /\ disposed D = true /\
     pstate (d_subscribePromise D) st = Some (Resolved v)).
(** ** More relations between the state before and after *)

(** The requests sent carry request ids that were handed out, in the order
    in which they were handed out. *)
Definition sends_rel (st : State) (f : list Effect) (st' : State) : Prop :=
  map Request.requestId (sent f) `sublist_of` request_ids f.

(** No emitter is called and no outside function is run. *)
Definition silent_rel (st : State) (f : list Effect) (st' : State) : Prop :=
  dispatched f = [] /\ invoked f = [].



(** A list of numbers that increases strictly. *)
Definition increasing (l : list Z) : Prop :=
  forall (i j : nat) a b, l !! i = Some a -> l !! j = Some b -> (i < j)%nat -> a < b.

(** A promise of an [async] function or of the socket that is settled keeps
    its state. *)
Definition keeps_rel (st : State) (f : list Effect) (st' : State) : Prop :=
  forall n s, s <> Pending ->
    (async_promises st !! n = Some s -> async_promises st' !! n = Some s) /\
    (socket_promises st !! n = Some s -> socket_promises st' !! n = Some s).

(** The state a promise of the socket is settled with. *)
Definition settled_as (outcome : JsVal + JsVal) : PState :=
  match outcome with inl v => Resolved v | inr e => Rejected e end.


(** ** More sample states and envelopes *)

(** The state after one call on a fresh connection; the call has the request
    id 1. *)
Definition called_1 : State :=
  @run sample_config [CallServiceFrameworkMethod "a" "b" [] JUndefined None]
       (constructor sample_socket).


(** [{channel: 'service_framework_event', event: {name: 'Watcher/change',
    args: ['a.js']}}] *)
Definition change_event : Message.t :=
  Message.mk (Some "service_framework_event"%string)
    (Some (Event.mk (Some "Watcher/change"%string) (JArr [JStr "a.js"%string]) None None []))
    None JUndefined JUndefined JUndefined.

(** ** The meta events of Node's emitter *)

(** Node's emitter emits [newListener] from [on] and [once] before it adds a
    listener and [removeListener] after it has removed one, when somebody
    listens for them.  [meta_free] says that nobody does. *)
Definition meta_free (em : Emitter) : Prop :=
  em !! "newListener"%string = None /\ em !! "removeListener"%string = None.


(** A call, a generated id, a subscription and another call. *)
Definition four_ids : list Step :=
  [CallServiceFrameworkMethod "a" "b" [] JUndefined None;
   GenerateRequestId;
   RegisterEventListener "Service/event" 1%nat JUndefined;
   CallServiceFrameworkMethod "a" "c" [] JUndefined None].

(** [{channel: 'service_framework3_rpc', result: 1}], without [requestId] *)
Definition sf3_without_id : Message.t :=
  Message.mk (Some "service_framework3_rpc"%string) None None JUndefined JUndefined (JNum 1).

(** * Properties *)

Ltac js_unfold := unfold mbind, mret, M_bind, M_ret in *.

Ltac solve_dest :=
  split; [reflexivity | split; [discriminate | intros Hx; by destruct Hx]].

(** ** Decimal strings *)

Lemma pretty_N_char_digit x : is_digit (pretty_N_char x) = true.
Proof. unfold pretty_N_char. by repeat case_match. Qed.

Lemma pretty_N_go_head x s :
  (0 < x)%N -> exists c s', pretty_N_go x s = String c s' /\ is_digit c = true.
Proof.
  revert s. induction (N.lt_wf_0 x) as [x _ IH]; intros s Hx.
  rewrite pretty_N_go_step by done.
  destruct (decide (x `div` 10 = 0)%N) as [E|E].
  - rewrite E, pretty_N_go_0. eexists _, _. split; [reflexivity | apply pretty_N_char_digit].
  - apply IH; [apply N.div_lt; lia | ]. destruct (x `div` 10)%N; [done | lia].
Qed.

Lemma pretty_Z_head (n : Z) :
  exists c s', pretty n = String c s' /\ (is_digit c = true \/ c = "-"%char).
Proof.
  destruct n as [|p|p]; unfold pretty, pretty_Z.
  - exists "0"%char, EmptyString. by split; [|left].
  - unfold pretty, pretty_positive, pretty, pretty_N.
    case_decide; [lia|].
    destruct (pretty_N_go_head (N.pos p) EmptyString) as (c & s' & -> & ?); [lia|]. eauto.
  - exists "-"%char. eexists. split; [|by right]. reflexivity.
Qed.

(** A request id never spells the event name ['error']. *)
Lemma pretty_Z_ne_error (n : Z) : pretty n <> "error"%string.
Proof.
  destruct (pretty_Z_head n) as (c & s' & -> & [Hd| ->]); [|done].
  intros [= -> _]. discriminate.
Qed.

Section Properties.
Context `{!Config}.

(** ** Listeners and [emit] *)

Lemma run_callback_spec cb args st :
  run_callback cb args st = mkOut (callback_effect cb args st) (callback_fx cb args) (Ok tt).
Proof. destruct cb; cbn; [destruct (truthy _)|..]; reflexivity. Qed.

Lemma call_listeners_spec r name ls args st :
  call_listeners r name ls args st =
    mkOut (listeners_effect r name ls args st)
          (flat_map (fun l => callback_fx (fn l) args) ls) (Ok tt).
Proof.
  revert st. induction ls as [|l ls IH]; intros st; [reflexivity|].
  cbn [call_listeners listeners_effect flat_map]. js_unfold. cbn [bind].
  destruct (once_only l); cbn; rewrite run_callback_spec, IH; cbn;
    by rewrite ?app_nil_r.
Qed.

(** [emit] when somebody listens. *)
Lemma emit_some r name args st ls :
  get_emitter r st !! name = Some ls ->
  emit r name args st =
    mkOut (listeners_effect r name ls args st)
          (EEmit r name args :: flat_map (fun l => callback_fx (fn l) args) ls) (Ok true).
Proof.
  intros E. unfold emit. js_unfold. cbn. rewrite E. cbn.
  rewrite call_listeners_spec. cbn. by rewrite app_nil_r.
Qed.

(** [emit] when nobody listens: nothing happens, unless the event is
    ['error']. *)
Lemma emit_none r name args st :
  get_emitter r st !! name = None ->
  name <> "error"%string ->
  emit r name args st = mkOut st [EEmit r name args] (Ok false).
Proof.
  intros E Hne. unfold emit. js_unfold. cbn. rewrite E.
  by rewrite bool_decide_eq_false_2.
Qed.

Lemma emit_unhandled_error r args st :
  get_emitter r st !! "error"%string = None ->
  emit r "error" args st = mkOut st [EEmit r "error"%string args] (Throw (unhandled_error args)).
Proof. intros E. unfold emit. js_unfold. cbn. by rewrite E. Qed.

(** [emit] raises only Node's unhandled-['error'] exception. *)
Lemma emit_val r name args st :
  (exists b, val (emit r name args st) = Ok b) \/
  (name = "error"%string /\ get_emitter r st !! name = None /\
   emit r name args st = mkOut st [EEmit r name args] (Throw (unhandled_error args))).
Proof.
  destruct (get_emitter r st !! name) as [ls|] eqn:E.
  - left. rewrite (emit_some _ _ _ _ _ E). eauto.
  - destruct (decide (name = "error"%string)) as [->|Hne].
    + right. by rewrite emit_unhandled_error.
    + left. rewrite emit_none by done. eauto.
Qed.

Lemma emit_fx_head r name args st :
  exists rest, fx (emit r name args st) = EEmit r name args :: rest /\
    dispatched rest = [] /\ logged rest = [] /\ sent rest = [] /\ request_ids rest = [].
Proof.
  destruct (get_emitter r st !! name) as [ls|] eqn:E.
  - rewrite (emit_some _ _ _ _ _ E). eexists; split; [reflexivity|].
    clear E. induction ls as [|[[] ?] ls IH]; cbn; auto.
  - unfold emit. js_unfold. cbn. rewrite E.
    destruct (bool_decide _); cbn; eexists; split; reflexivity || auto.
Qed.

(** ** The message router *)

Lemma key_of_ne_error (o : option string) : o <> Some "error"%string -> key_of o <> "error"%string.
Proof. destruct o; cbn; congruence. Qed.

Lemma emit_ok r name args st :
  name <> "error"%string -> exists b, val (emit r name args st) = Ok b.
Proof. intros Hne. destruct (emit_val r name args st) as [?|(-> & _)]; done. Qed.

Lemma emit_dispatched r name args st : dispatched (fx (emit r name args st)) = [r].
Proof.
  destruct (emit_fx_head r name args st) as (rest & -> & Hd & _).
  exact (f_equal (cons r) Hd).
Qed.

Lemma emit_logged r name args st : logged (fx (emit r name args st)) = [].
Proof. destruct (emit_fx_head r name args st) as (rest & -> & _ & Hl & _). exact Hl. Qed.

Lemma dispatched_app l1 l2 : dispatched (l1 ++ l2) = dispatched l1 ++ dispatched l2.
Proof. apply omap_app. Qed.

(** The router, one case after the other. *)
Lemma handle_rpc message st requestId :
  Message.channel message = Some SERVICE_FRAMEWORK_RPC_CHANNEL ->
  Message.requestId message = Some requestId ->
  _handleSocketMessage message st =
    let o := emit ServiceFrameworkRpcEmitter (pretty requestId)
               [Message.error message; Message.result message] st in
    mkOut (post o) (fx o) (match val o with Ok _ => Ok tt | Throw e => Throw e end).
Proof.
  intros Hc Hr. unfold _handleSocketMessage. rewrite Hc, Hr.
  rewrite bool_decide_eq_true_2 by done. js_unfold. cbn.
  destruct (emit _ _ _ st) as [st' f [b|e]]; cbn; by rewrite ?app_nil_r.
Qed.

Lemma handle_event message st ev :
  Message.channel message <> Some SERVICE_FRAMEWORK_RPC_CHANNEL ->
  Message.channel message = Some SERVICE_FRAMEWORK_EVENT_CHANNEL ->
  Message.event message = Some ev ->
  _handleSocketMessage message st =
    let o := emit ServiceFrameworkEventEmitter (key_of (Event.name ev))
               (spread (Event.args ev)) st in
    mkOut (post o) (fx o) (match val o with Ok _ => Ok tt | Throw e => Throw e end).
Proof.
  intros Hn Hc He. unfold _handleSocketMessage. rewrite He.
  rewrite bool_decide_eq_false_2 by done.
  rewrite bool_decide_eq_true_2 by done. js_unfold. cbn.
  destruct (emit _ _ _ st) as [st' f [b|e]]; cbn; by rewrite ?app_nil_r.
Qed.

Lemma handle_sf3 message st requestId :
  Message.channel message <> Some SERVICE_FRAMEWORK_RPC_CHANNEL ->
  Message.channel message <> Some SERVICE_FRAMEWORK_EVENT_CHANNEL ->
  Message.channel message = Some SERVICE_FRAMEWORK3_CHANNEL ->
  Message.requestId message = Some requestId ->
  _handleSocketMessage message st =
    let o := emit ServiceFramework3Emitter (pretty requestId)
               [Message.hadError message; Message.error message; Message.result message] st in
    mkOut (post o) (fx o) (match val o with Ok _ => Ok tt | Throw e => Throw e end).
Proof.
  intros Hn1 Hn2 Hc Hr. unfold _handleSocketMessage. rewrite Hr.
  rewrite !bool_decide_eq_false_2 by done.
  rewrite bool_decide_eq_true_2 by done. js_unfold. cbn.
  destruct (emit _ _ _ st) as [st' f [b|e]]; cbn; by rewrite ?app_nil_r.
Qed.

Lemma handle_generic message st :
  Message.channel message <> Some SERVICE_FRAMEWORK_RPC_CHANNEL ->
  Message.channel message <> Some SERVICE_FRAMEWORK_EVENT_CHANNEL ->
  Message.channel message <> Some SERVICE_FRAMEWORK3_CHANNEL ->
  (forall ev, Message.event message = Some ev ->
     truthy (num_val (Event.eventEmitterId ev)) = false) ->
  _handleSocketMessage message st =
    let o := generic_emit message st in
    mkOut (post o) (fx o) (match val o with Ok _ => Ok tt | Throw e => Throw e end).
Proof.
  intros Hn1 Hn2 Hn3 Hev. unfold _handleSocketMessage, generic_emit.
  rewrite !bool_decide_eq_false_2 by done. js_unfold.
  destruct (Message.event message) as [ev|] eqn:E.
  - rewrite (Hev ev eq_refl). cbn.
    destruct (emit _ _ _ st) as [st' f [b|e]]; cbn; by rewrite ?app_nil_r.
  - cbn. destruct (emit _ _ _ st) as [st' f [b|e]]; cbn; by rewrite ?app_nil_r.
Qed.

Lemma handle_stream_unknown message st eventEmitterId type args :
  stream_event message eventEmitterId type args ->
  eventEmitterId <> 0 ->
  _eventEmitters st !! eventEmitterId = None ->
  _handleSocketMessage message st =
    mkOut st [ELoggerError (LogEmitterNotFound eventEmitterId (str_val type) args)] (Ok tt).
Proof.
  intros (Hn1 & Hn2 & Hn3 & ev & He & Hid & <- & <-) Hnz Hl.
  unfold _handleSocketMessage. rewrite He.
  rewrite !bool_decide_eq_false_2 by done. js_unfold.
  rewrite Hid. cbn.
  destruct (Z.eqb_spec eventEmitterId 0) as [|_]; [done|]. cbn. by rewrite Hl.
Qed.

Lemma handle_stream_known message st eventEmitterId type args a :
  stream_event message eventEmitterId type args ->
  eventEmitterId <> 0 ->
  _eventEmitters st !! eventEmitterId = Some a ->
  _handleSocketMessage message st =
    let o1 := emit (Stream a) (key_of type) (spread args) st in
    match val o1 with
    | Ok _ =>
        let o2 := generic_emit message (post o1) in
        mkOut (post o2) (fx o1 ++ fx o2)
              (match val o2 with Ok _ => Ok tt | Throw e => Throw e end)
    | Throw e => mkOut (post o1) (fx o1) (Throw e)
    end.
Proof.
  intros (Hn1 & Hn2 & Hn3 & ev & He & Hid & <- & <-) Hnz Hl.
  unfold _handleSocketMessage, generic_emit. rewrite He.
  rewrite !bool_decide_eq_false_2 by done. js_unfold.
  rewrite Hid. cbn.
  destruct (Z.eqb_spec eventEmitterId 0) as [|_]; [done|]. cbn. rewrite Hl. cbn.
  destruct (emit (Stream a) _ _ st) as [st' f [b|e]]; cbn; [|by rewrite ?app_nil_r].
  destruct (emit Eventbus _ _ st') as [st'' f' [b'|e']]; cbn; by rewrite ?app_nil_r.
Qed.

(** Every envelope falls in one of the cases above. *)
Lemma message_cases message :
  Message.channel message = Some SERVICE_FRAMEWORK_RPC_CHANNEL \/
  (Message.channel message <> Some SERVICE_FRAMEWORK_RPC_CHANNEL /\
   Message.channel message = Some SERVICE_FRAMEWORK_EVENT_CHANNEL) \/
  (Message.channel message <> Some SERVICE_FRAMEWORK_RPC_CHANNEL /\
   Message.channel message <> Some SERVICE_FRAMEWORK_EVENT_CHANNEL /\
   Message.channel message = Some SERVICE_FRAMEWORK3_CHANNEL) \/
  (exists eventEmitterId type args,
     stream_event message eventEmitterId type args /\ eventEmitterId <> 0) \/
  (Message.channel message <> Some SERVICE_FRAMEWORK_RPC_CHANNEL /\
   Message.channel message <> Some SERVICE_FRAMEWORK_EVENT_CHANNEL /\
   Message.channel message <> Some SERVICE_FRAMEWORK3_CHANNEL /\
   forall ev, Message.event message = Some ev ->
     truthy (num_val (Event.eventEmitterId ev)) = false).
Proof.
  destruct (decide (Message.channel message = Some SERVICE_FRAMEWORK_RPC_CHANNEL)); [auto|].
  destruct (decide (Message.channel message = Some SERVICE_FRAMEWORK_EVENT_CHANNEL)); [auto|].
  destruct (decide (Message.channel message = Some SERVICE_FRAMEWORK3_CHANNEL)); [auto 6|].
  right. right. right.
  destruct (Message.event message) as [ev|] eqn:E; [|right; naive_solver].
  destruct (Event.eventEmitterId ev) as [i|] eqn:Ei.
  - destruct (decide (i = 0)) as [->|Hi].
    + right. repeat split; try done. intros ? [= <-]. by rewrite Ei.
    + left. exists i, (Event.type ev), (Event.args ev).
      split; [|done]. unfold stream_event. naive_solver.
  - right. repeat split; try done. intros ? [= <-]. by rewrite Ei.
Qed.

(** *** The router never calls more than the emitters of the table *)

Lemma generic_emit_dispatched message st : dispatched (fx (generic_emit message st)) = [Eventbus].
Proof. apply emit_dispatched. Qed.

(** An rpc-response envelope whose [requestId] has no listener changes
    nothing. *)
Lemma rpc_response_without_pending (st : State) (message : Message.t) (requestId : Z) :
  Message.channel message = Some SERVICE_FRAMEWORK_RPC_CHANNEL ->
  Message.requestId message = Some requestId ->
  ~ pending_request requestId st ->
  val (_handleSocketMessage message st) = Ok tt /\
  post (_handleSocketMessage message st) = st /\
  fx (_handleSocketMessage message st) =
    [EEmit ServiceFrameworkRpcEmitter (pretty requestId)
       [Message.error message; Message.result message]].
Proof.
  intros Hc Hr Hp. rewrite (handle_rpc _ _ _ Hc Hr). cbn zeta.
  unfold pending_request, EventEmitter.listeners in Hp.
  destruct (_serviceFrameworkRpcEmitter st !! pretty requestId) as [ls|] eqn:E.
  - cbn in Hp. assert (ls = []) as -> by (by destruct ls; [|destruct Hp]).
    by rewrite (emit_some ServiceFrameworkRpcEmitter _ _ _ _ E).
  - by rewrite emit_none by (done || apply pretty_Z_ne_error).
Qed.

(** C8. An rpc-response envelope whose [requestId] has no pending request is
    handled without an exception and leaves the whole state as it was; the
    only thing that happens is the call of [emit], which finds no listener. *)
Theorem rpc_response_without_pending_request (st : State) (message : Message.t)
    (requestId : Z) :
  Message.channel message = Some SERVICE_FRAMEWORK_RPC_CHANNEL ->
  Message.requestId message = Some requestId ->
  ~ pending_request requestId st ->
  val (_handleSocketMessage message st) = Ok tt /\
  post (_handleSocketMessage message st) = st /\
  fx (_handleSocketMessage message st) =
    [EEmit ServiceFrameworkRpcEmitter (pretty requestId)
       [Message.error message; Message.result message]].
Proof. apply rpc_response_without_pending. Qed.

(** The handler returns normally for every envelope that carries the fields
    its channel requires and that names no event ['error']. *)
Lemma handler_returns st message :
  fields_present message -> no_error_event message ->
  val (_handleSocketMessage message st) = Ok tt.
Proof.
  intros (Hrpc & Hsf3 & Hev) (Hch & Hnames).
  destruct (message_cases message)
    as [Hc|[[Hn Hc]|[(Hn1 & Hn2 & Hc)|[(i & ty & ar & Hs & Hi)|(Hn1 & Hn2 & Hn3 & Hf)]]]].
  - destruct (Hrpc Hc) as [rid Hr]. rewrite (handle_rpc _ _ _ Hc Hr). cbn.
    by destruct (emit_ok ServiceFrameworkRpcEmitter (pretty rid)
                   [Message.error message; Message.result message] st
                   (pretty_Z_ne_error rid)) as [b ->].
  - destruct (Hev Hc) as [ev He]. rewrite (handle_event _ _ _ Hn Hc He). cbn.
    destruct (Hnames ev He) as [Hname _].
    by destruct (emit_ok ServiceFrameworkEventEmitter (key_of (Event.name ev))
                   (spread (Event.args ev)) st (key_of_ne_error _ Hname)) as [b ->].
  - destruct (Hsf3 Hc) as [rid Hr]. rewrite (handle_sf3 _ _ _ Hn1 Hn2 Hc Hr). cbn.
    by destruct (emit_ok ServiceFramework3Emitter (pretty rid)
                   [Message.hadError message; Message.error message; Message.result message]
                   st (pretty_Z_ne_error rid)) as [b ->].
  - destruct (_eventEmitters st !! i) as [a|] eqn:El.
    + rewrite (handle_stream_known _ _ _ _ _ _ Hs Hi El). cbn zeta.
      destruct Hs as (_ & _ & _ & ev & He & _ & <- & <-).
      destruct (Hnames ev He) as [_ Hty].
      destruct (emit_ok (Stream a) (key_of (Event.type ev)) (spread (Event.args ev)) st
                  (key_of_ne_error _ Hty)) as [b ->].
      cbn. unfold generic_emit.
      by destruct (emit_ok Eventbus (key_of (Message.channel message))
                     [event_val (Message.event message)]
                     (post (emit (Stream a) (key_of (Event.type ev))
                              (spread (Event.args ev)) st))
                     (key_of_ne_error _ Hch)) as [b' ->].
    + by rewrite (handle_stream_unknown _ _ _ _ _ Hs Hi El).
  - rewrite (handle_generic _ _ Hn1 Hn2 Hn3 Hf). cbn. unfold generic_emit.
    by destruct (emit_ok Eventbus (key_of (Message.channel message))
                   [event_val (Message.event message)] st
                   (key_of_ne_error _ Hch)) as [b' ->].
Qed.

(** An envelope of a framework channel without the field the channel reads
    raises a TypeError before anything else happens. *)
Lemma handle_rpc_missing message st :
  Message.channel message = Some SERVICE_FRAMEWORK_RPC_CHANNEL ->
  Message.requestId message = None ->
  _handleSocketMessage message st = mkOut st [] (Throw (undefinedDeref "toString")).
Proof.
  intros Hc Hr. unfold _handleSocketMessage. rewrite Hc, Hr.
  by rewrite bool_decide_eq_true_2.
Qed.

Lemma handle_event_missing message st :
  Message.channel message <> Some SERVICE_FRAMEWORK_RPC_CHANNEL ->
  Message.channel message = Some SERVICE_FRAMEWORK_EVENT_CHANNEL ->
  Message.event message = None ->
  _handleSocketMessage message st = mkOut st [] (Throw (undefinedDeref "name")).
Proof.
  intros Hn Hc He. unfold _handleSocketMessage. rewrite He.
  rewrite bool_decide_eq_false_2 by done. by rewrite bool_decide_eq_true_2.
Qed.

Lemma handle_sf3_missing message st :
  Message.channel message <> Some SERVICE_FRAMEWORK_RPC_CHANNEL ->
  Message.channel message <> Some SERVICE_FRAMEWORK_EVENT_CHANNEL ->
  Message.channel message = Some SERVICE_FRAMEWORK3_CHANNEL ->
  Message.requestId message = None ->
  _handleSocketMessage message st = mkOut st [] (Throw (undefinedDeref "toString")).
Proof.
  intros Hn1 Hn2 Hc Hr. unfold _handleSocketMessage. rewrite Hr.
  rewrite !bool_decide_eq_false_2 by done. by rewrite bool_decide_eq_true_2.
Qed.

(** The emitters the router has called are always an initial part of the
    table's list, whether it returns or throws; an error is logged exactly
    when the list is empty. *)
Lemma router_prefix st message :
  dispatched (fx (_handleSocketMessage message st)) `prefix_of` destinations st message /\
  (val (_handleSocketMessage message st) = Ok tt ->
   dispatched (fx (_handleSocketMessage message st)) = destinations st message) /\
  (destinations st message = [] <-> logged (fx (_handleSocketMessage message st)) <> []).
Proof.
  unfold destinations.
  destruct (message_cases message)
    as [Hc|[[Hn Hc]|[(Hn1 & Hn2 & Hc)|[(i & ty & ar & Hs & Hi)|(Hn1 & Hn2 & Hn3 & Hf)]]]].
  - rewrite bool_decide_eq_true_2 by done.
    destruct (Message.requestId message) as [rid|] eqn:Hr.
    + rewrite (handle_rpc _ _ _ Hc Hr). cbn.
      rewrite emit_dispatched, emit_logged. split; [done|]. split; [done|]. by split.
    + rewrite (handle_rpc_missing _ _ Hc Hr). cbn.
      split; [apply prefix_nil|]. split; [done|]. by split.
  - rewrite bool_decide_eq_false_2 by done. rewrite bool_decide_eq_true_2 by done.
    destruct (Message.event message) as [ev|] eqn:He.
    + rewrite (handle_event _ _ _ Hn Hc He). cbn.
      rewrite emit_dispatched, emit_logged. split; [done|]. split; [done|]. by split.
    + rewrite (handle_event_missing _ _ Hn Hc He). cbn.
      split; [apply prefix_nil|]. split; [done|]. by split.
  - rewrite !bool_decide_eq_false_2 by done. rewrite bool_decide_eq_true_2 by done.
    destruct (Message.requestId message) as [rid|] eqn:Hr.
    + rewrite (handle_sf3 _ _ _ Hn1 Hn2 Hc Hr). cbn.
      rewrite emit_dispatched, emit_logged. split; [done|]. split; [done|]. by split.
    + rewrite (handle_sf3_missing _ _ Hn1 Hn2 Hc Hr). cbn.
      split; [apply prefix_nil|]. split; [done|]. by split.
  - pose proof Hs as (Hn1 & Hn2 & Hn3 & ev & He & Hid & <- & <-).
    rewrite !bool_decide_eq_false_2 by done. rewrite He. cbn. rewrite Hid.
    rewrite bool_decide_eq_false_2 by done.
    destruct (_eventEmitters st !! i) as [a|] eqn:El.
    + rewrite (handle_stream_known _ _ _ _ _ _ Hs Hi El). cbn zeta.
      pose proof (emit_dispatched (Stream a) (key_of (Event.type ev))
                    (spread (Event.args ev)) st) as Hd1.
      pose proof (emit_logged (Stream a) (key_of (Event.type ev))
                    (spread (Event.args ev)) st) as Hl1.
      destruct (emit (Stream a) (key_of (Event.type ev)) (spread (Event.args ev)) st)
        as [st1 f1 [b|e]]; cbn [val post fx] in *.
      * unfold logged in *. rewrite dispatched_app, omap_app, Hd1, Hl1.
        rewrite generic_emit_dispatched. unfold generic_emit.
        fold (logged (fx (emit Eventbus (key_of (Message.channel message))
                            [event_val (Message.event message)] st1))).
        rewrite emit_logged. cbn. split; [done|]. split; [done|]. by split.
      * rewrite Hd1, Hl1. split; [by exists [Eventbus]|]. split; [done|]. by split.
    + rewrite (handle_stream_unknown _ _ _ _ _ Hs Hi El). cbn.
      split; [done|]. split; [done|]. by split.
  - rewrite !bool_decide_eq_false_2 by done.
    rewrite (handle_generic _ _ Hn1 Hn2 Hn3 Hf). cbn.
    rewrite generic_emit_dispatched. unfold generic_emit. rewrite emit_logged.
    destruct (Message.event message) as [ev|] eqn:He; cbn;
      [|split; [done|]; split; [done|]; by split].
    specialize (Hf ev eq_refl).
    destruct (Event.eventEmitterId ev) as [i|]; cbn in *;
      [|split; [done|]; split; [done|]; by split].
    destruct (Z.eqb_spec i 0) as [E|]; [subst i|done].
    rewrite bool_decide_eq_true_2 by done. split; [done|]. split; [done|]. by split.
Qed.

(** C7, as amended.  The handler returns normally for every envelope that
    carries the fields its channel requires and that does not name the event
    ['error'].  An envelope of a known channel without the field the channel
    reads is not logged and dropped: an rpc-response envelope without
    [requestId], an event-broadcast envelope without [event] and a
    serviceFramework3 envelope without [requestId] each raise a TypeError out
    of the handler, with no state change, no emitter called and nothing
    logged. *)
Theorem handler_throws_on_missing_fields_only :
  (forall st message,
     fields_present message -> no_error_event message ->
     val (_handleSocketMessage message st) = Ok tt) /\
  (forall st message,
     Message.channel message = Some SERVICE_FRAMEWORK_RPC_CHANNEL ->
     Message.requestId message = None ->
     _handleSocketMessage message st = mkOut st [] (Throw (undefinedDeref "toString"))) /\
  (forall st message,
     Message.channel message <> Some SERVICE_FRAMEWORK_RPC_CHANNEL ->
     Message.channel message = Some SERVICE_FRAMEWORK_EVENT_CHANNEL ->
     Message.event message = None ->
     _handleSocketMessage message st = mkOut st [] (Throw (undefinedDeref "name"))) /\
  (forall st message,
     Message.channel message <> Some SERVICE_FRAMEWORK_RPC_CHANNEL ->
     Message.channel message <> Some SERVICE_FRAMEWORK_EVENT_CHANNEL ->
     Message.channel message = Some SERVICE_FRAMEWORK3_CHANNEL ->
     Message.requestId message = None ->
     _handleSocketMessage message st = mkOut st [] (Throw (undefinedDeref "toString"))).
Proof.
  split_and!.
  - intros st message. apply handler_returns.
  - intros st message. apply handle_rpc_missing.
  - intros st message. apply handle_event_missing.
  - intros st message. apply handle_sf3_missing.
Qed.

(** C3, as amended.  The router dispatches by channel and, outside the three
    framework channels, by the stream id, as the table [destinations] says:
    one emitter for each of the three framework channels (rpc-response,
    event-broadcast, serviceFramework3); for a stream event the emitter
    registered for its id and then also the generic bus; no emitter at all,
    and one call of [logger.error], when the id is not registered; the
    generic bus alone for everything else, an event with id 0 included.
    Whenever the handler returns, the emitters it has called are exactly
    those of the table, and it returns for every envelope that carries the
    fields its channel requires and names no event ['error'].  When it
    throws instead, the emitters called are an initial part of the table's
    list.  An error is logged exactly when the table is empty. *)
Theorem router_destinations (st : State) (message : Message.t) :
  let o := _handleSocketMessage message st in
  dispatched (fx o) `prefix_of` destinations st message /\
  (val o = Ok tt -> dispatched (fx o) = destinations st message) /\
  (fields_present message -> no_error_event message ->
   val o = Ok tt /\ dispatched (fx o) = destinations st message) /\
  (destinations st message = [] <-> logged (fx o) <> []).
Proof.
  cbn zeta. destruct (router_prefix st message) as (Hp & He & Hl).
  split_and!; [done..| |done].
  intros Hf Hn. pose proof (handler_returns st message Hf Hn). auto.
Qed.

(** ** Turns of the event loop are composed of elementary operations *)

Lemma composed_sat allowed R :
  Compositional R ->
  (forall k A (m : M A), allowed k -> elementary k m -> sat R m) ->
  forall A (m : M A), composed allowed m -> sat R m.
Proof.
  intros [Hrefl Htrans] Hel A m Hm.
  induction Hm as [k A m Hk Hm|A a|A e| |A B m k Hm IHm Hk IHk|A m h Hm IHm Hh IHh]; intros st.
  - by eapply Hel.
  - apply Hrefl.
  - apply Hrefl.
  - apply Hrefl.
  - specialize (IHm st). cbn. destruct (m st) as [st1 f1 [a|e]]; cbn in *.
    + specialize (IHk a st1). destruct (k a st1) as [st2 f2 r]; cbn in *. eauto.
    + done.
  - specialize (IHm st). cbn. destruct (m st) as [st1 f1 [a|e]]; cbn in *; [done|].
    specialize (IHh e st1). destruct (h e st1) as [st2 f2 r]; cbn in *. eauto.
Qed.

Ltac composed_step :=
  lazymatch goal with
  | |- composed _ (bind _ _) => apply co_bind; [|intros ?]
  | |- composed _ (catch _ _) => apply co_catch; [|intros ?]
  | |- composed _ (ret _) => apply co_ret
  | |- composed _ (throw _) => apply co_throw
  | |- composed _ get => apply co_get
  | |- composed _ (match ?x with _ => _ end) => destruct x
  | |- composed _ (let (_, _) := ?x in _) => destruct x
  | |- composed _ _ =>
      eapply co_elementary; [|solve [constructor; done]]; solve [cbn; auto]
  end.

Ltac composed_auto := js_unfold; repeat composed_step.

Lemma consumeEventEmitter_register i ns ds st :
  consumeEventEmitter i ns ds st =
    (c ← new_promise;
     eventEmitter ← register_emitter i ds;
     s ← _callSubscribe (eventEmitterChannel i)
           (JObj [("eventEmitterId"%string, JNum i);
                  ("eventNames"%string, JArr (map JStr ns))]);
     await (PAsync s) (FConsume c eventEmitter) ;;
     mret c) st.
Proof.
  unfold consumeEventEmitter, register_emitter. js_unfold. cbn.
  destruct (forEach _ _ _) as [st1 f1 [[]|e]]; cbn; [|done].
  destruct (_callSubscribe _ _ st1) as [st2 f2 [a|e]]; cbn;
    by rewrite ?app_nil_r.
Qed.

Lemma composed_resume k outcome : composed (fun k => k = KOther) (resume k outcome).
Proof.
  destruct k, outcome; cbn [resume]; unfold _unsubscribeEventFromServer; composed_auto.
Qed.

Lemma composed_reaction_runs k : composed (fun k => k = KOther) (reaction_runs k).
Proof.
  unfold reaction_runs. js_unfold. apply co_bind; [apply co_get|intros st].
  destruct (reactions st !! k) as [r|]; [|apply co_ret].
  destruct (pstate (awaited r) st) as [[|v|e]|]; try apply co_ret.
  - apply co_bind; [|intros _; apply composed_resume].
    eapply co_elementary; [|apply el_drop_reaction]; done.
  - apply co_bind; [|intros _; apply composed_resume].
    eapply co_elementary; [|apply el_drop_reaction]; done.
Qed.

(** Every turn satisfies what the elementary operations of its kinds
    satisfy. *)
Lemma step_sat R e :
  Compositional R ->
  (forall k A (m : M A), step_kind e k -> elementary k m -> sat R m) ->
  sat R (step e).
Proof.
  intros HR Hel.
  assert (forall A (m : M A), composed (step_kind e) m -> sat R m) as Hc
    by (apply composed_sat; assumption).
  clear Hel. destruct e; cbn [step]; cbn [step_kind] in Hc.
  - apply Hc. composed_auto.
  - apply Hc. composed_auto.
  - apply Hc. unfold registerEventListener, _subscribeEventOnServer. composed_auto.
  - apply Hc. composed_auto.
  - intros st. js_unfold. cbn [bind]. rewrite consumeEventEmitter_register.
    match goal with |- context [?m st] =>
      match m with mbind _ _ =>
        pose proof (Hc _ (m ≫= fun _ => ret tt)) as Hm end end.
    apply Hm. composed_auto.
  - intros st. unfold consumeStream. js_unfold. cbn [bind].
    rewrite consumeEventEmitter_register.
    match goal with |- context [?m st] =>
      match m with mbind _ _ =>
        pose proof (Hc _ (m ≫= fun _ => ret tt)) as Hm end end.
    apply Hm. composed_auto.
  - apply Hc. composed_auto.
  - apply Hc. composed_auto.
  - apply Hc. composed_auto.
  - apply Hc. unfold _handleSocketMessage. composed_auto.
  - apply Hc. composed_auto.
  - apply Hc. eapply composed_reaction_runs.
  - apply Hc. unfold socket_settles. composed_auto.
Qed.

(** ** What calling listeners can change *)

Lemma listeners_effect_ind (P : State -> State -> Prop) r name args :
  (forall st, P st st) ->
  (forall st1 st2 st3, P st1 st2 -> P st2 st3 -> P st1 st3) ->
  (forall st cb, P st (callback_effect cb args st)) ->
  (forall st l, P st (update_emitter r (EventEmitter.removeWrapper name l) st)) ->
  forall ls st, P st (listeners_effect r name ls args st).
Proof.
  intros Hrefl Htrans Hcb Hrm ls. induction ls as [|l ls IH]; intros st; cbn; [done|].
  eapply Htrans; [|apply IH].
  destruct (once_only l); [eapply Htrans; [apply Hrm|apply Hcb]|apply Hcb].
Qed.

(** The result of [emit] is one of three. *)
Lemma emit_cases r name args st :
  (exists ls, get_emitter r st !! name = Some ls /\
     emit r name args st =
       mkOut (listeners_effect r name ls args st)
             (EEmit r name args :: flat_map (fun l => callback_fx (fn l) args) ls)
             (Ok true)) \/
  (get_emitter r st !! name = None /\
   exists v, emit r name args st = mkOut st [EEmit r name args] v).
Proof.
  destruct (get_emitter r st !! name) as [ls|] eqn:E.
  - left. exists ls. split; [done|]. by apply emit_some.
  - right. split; [done|]. unfold emit. js_unfold. cbn. rewrite E.
    destruct (bool_decide _); cbn; eauto.
Qed.

Lemma callback_fx_no_socket cb args : Forall (fun e => uses_socket e = false) (callback_fx cb args).
Proof. destruct cb; cbn; repeat constructor. Qed.

Lemma emit_fx_no_socket r name args st :
  Forall (fun e => uses_socket e = false) (fx (emit r name args st)).
Proof.
  destruct (emit_cases r name args st) as [(ls & _ & ->)|(_ & v & ->)]; cbn.
  - constructor; [done|]. induction ls as [|l ls IH]; cbn; [constructor|].
    apply Forall_app. split; [apply callback_fx_no_socket|done].
  - by repeat constructor.
Qed.

Lemma forEach_once_spec a i ds st :
  forEach ds (fun n =>
     modify (update_emitter (Stream a) (EventEmitter.once n (CbDeleteEmitter i)))) st
  = mkOut (install_disposers a i ds st) [] (Ok tt).
Proof.
  revert st. induction ds as [|d ds IH]; intros st; cbn; [done|].
  js_unfold. cbn. by rewrite IH.
Qed.

Lemma register_emitter_spec i ds st :
  register_emitter i ds st =
    mkOut (install_disposers (next_emitter st) i (default [] ds)
             (set__eventEmitters (<[i := next_emitter st]> (_eventEmitters st))
                (set_next_emitter (S (next_emitter st))
                   (set_streams (<[next_emitter st := ∅]> (streams st)) st))))
          [] (Ok (next_emitter st)).
Proof.
  unfold register_emitter. js_unfold. cbn. by rewrite forEach_once_spec.
Qed.

Lemma install_disposers_ind (P : State -> State -> Prop) a i :
  (forall st, P st st) ->
  (forall st1 st2 st3, P st1 st2 -> P st2 st3 -> P st1 st3) ->
  (forall st d, P st (update_emitter (Stream a)
                        (EventEmitter.once d (CbDeleteEmitter i)) st)) ->
  forall ds st, P st (install_disposers a i ds st).
Proof.
  intros Hrefl Htrans Hup ds. induction ds as [|d ds IH]; intros st; cbn; [done|].
  eapply Htrans; [apply Hup|apply IH].
Qed.


(** ** Fields an operation leaves alone *)

Lemma settle_socket p s st :
  socket (settle p s st) = socket st.
Proof. unfold settle. destruct (pstate p st) as [[]|]; try done; by destruct p. Qed.

Lemma settle__rpcRequestId p s st :
  _rpcRequestId (settle p s st) = _rpcRequestId st.
Proof. unfold settle. destruct (pstate p st) as [[]|]; try done; by destruct p. Qed.

Lemma settle_next_emitter p s st :
  next_emitter (settle p s st) = next_emitter st.
Proof. unfold settle. destruct (pstate p st) as [[]|]; try done; by destruct p. Qed.

Lemma settle_timers p s st :
  timers (settle p s st) = timers st.
Proof. unfold settle. destruct (pstate p st) as [[]|]; try done; by destruct p. Qed.

Lemma settle_reactions p s st :
  reactions (settle p s st) = reactions st.
Proof. unfold settle. destruct (pstate p st) as [[]|]; try done; by destruct p. Qed.

Lemma settle_disposables p s st :
  disposables (settle p s st) = disposables st.
Proof. unfold settle. destruct (pstate p st) as [[]|]; try done; by destruct p. Qed.

Lemma settle_eventbus p s st :
  eventbus (settle p s st) = eventbus st.
Proof. unfold settle. destruct (pstate p st) as [[]|]; try done; by destruct p. Qed.

Lemma settle_serviceFrameworkEventEmitter p s st :
  serviceFrameworkEventEmitter (settle p s st) = serviceFrameworkEventEmitter st.
Proof. unfold settle. destruct (pstate p st) as [[]|]; try done; by destruct p. Qed.

Lemma settle__serviceFrameworkRpcEmitter p s st :
  _serviceFrameworkRpcEmitter (settle p s st) = _serviceFrameworkRpcEmitter st.
Proof. unfold settle. destruct (pstate p st) as [[]|]; try done; by destruct p. Qed.

Lemma settle__serviceFramework3Emitter p s st :
  _serviceFramework3Emitter (settle p s st) = _serviceFramework3Emitter st.
Proof. unfold settle. destruct (pstate p st) as [[]|]; try done; by destruct p. Qed.

Lemma settle_streams p s st :
  streams (settle p s st) = streams st.
Proof. unfold settle. destruct (pstate p st) as [[]|]; try done; by destruct p. Qed.

Lemma settle__eventEmitters p s st :
  _eventEmitters (settle p s st) = _eventEmitters st.
Proof. unfold settle. destruct (pstate p st) as [[]|]; try done; by destruct p. Qed.

Lemma update_emitter_socket r f st :
  socket (update_emitter r f st) = socket st.
Proof. by destruct r. Qed.

Lemma update_emitter__rpcRequestId r f st :
  _rpcRequestId (update_emitter r f st) = _rpcRequestId st.
Proof. by destruct r. Qed.

Lemma update_emitter_next_emitter r f st :
  next_emitter (update_emitter r f st) = next_emitter st.
Proof. by destruct r. Qed.

Lemma update_emitter_timers r f st :
  timers (update_emitter r f st) = timers st.
Proof. by destruct r. Qed.

Lemma update_emitter_reactions r f st :
  reactions (update_emitter r f st) = reactions st.
Proof. by destruct r. Qed.

Lemma update_emitter_disposables r f st :
  disposables (update_emitter r f st) = disposables st.
Proof. by destruct r. Qed.

Lemma update_emitter_rpc_promises r f st :
  rpc_promises (update_emitter r f st) = rpc_promises st.
Proof. by destruct r. Qed.

Lemma update_emitter_async_promises r f st :
  async_promises (update_emitter r f st) = async_promises st.
Proof. by destruct r. Qed.

Lemma update_emitter_socket_promises r f st :
  socket_promises (update_emitter r f st) = socket_promises st.
Proof. by destruct r. Qed.

Lemma update_emitter__eventEmitters r f st :
  _eventEmitters (update_emitter r f st) = _eventEmitters st.
Proof. by destruct r. Qed.

Lemma callback_effect_socket cb args st :
  socket (callback_effect cb args st) = socket st.
Proof. destruct cb; cbn; [destruct (truthy _)|..]; by rewrite ?settle_socket. Qed.

Lemma callback_effect__rpcRequestId cb args st :
  _rpcRequestId (callback_effect cb args st) = _rpcRequestId st.
Proof. destruct cb; cbn; [destruct (truthy _)|..]; by rewrite ?settle__rpcRequestId. Qed.

Lemma callback_effect_next_emitter cb args st :
  next_emitter (callback_effect cb args st) = next_emitter st.
Proof. destruct cb; cbn; [destruct (truthy _)|..]; by rewrite ?settle_next_emitter. Qed.

Lemma callback_effect_timers cb args st :
  timers (callback_effect cb args st) = timers st.
Proof. destruct cb; cbn; [destruct (truthy _)|..]; by rewrite ?settle_timers. Qed.

Lemma callback_effect_reactions cb args st :
  reactions (callback_effect cb args st) = reactions st.
Proof. destruct cb; cbn; [destruct (truthy _)|..]; by rewrite ?settle_reactions. Qed.

Lemma callback_effect_disposables cb args st :
  disposables (callback_effect cb args st) = disposables st.
Proof. destruct cb; cbn; [destruct (truthy _)|..]; by rewrite ?settle_disposables. Qed.

Lemma callback_effect_eventbus cb args st :
  eventbus (callback_effect cb args st) = eventbus st.
Proof. destruct cb; cbn; [destruct (truthy _)|..]; by rewrite ?settle_eventbus. Qed.

Lemma callback_effect_serviceFrameworkEventEmitter cb args st :
  serviceFrameworkEventEmitter (callback_effect cb args st) = serviceFrameworkEventEmitter st.
Proof. destruct cb; cbn; [destruct (truthy _)|..]; by rewrite ?settle_serviceFrameworkEventEmitter. Qed.

Lemma callback_effect__serviceFrameworkRpcEmitter cb args st :
  _serviceFrameworkRpcEmitter (callback_effect cb args st) = _serviceFrameworkRpcEmitter st.
Proof. destruct cb; cbn; [destruct (truthy _)|..]; by rewrite ?settle__serviceFrameworkRpcEmitter. Qed.

Lemma callback_effect__serviceFramework3Emitter cb args st :
  _serviceFramework3Emitter (callback_effect cb args st) = _serviceFramework3Emitter st.
Proof. destruct cb; cbn; [destruct (truthy _)|..]; by rewrite ?settle__serviceFramework3Emitter. Qed.

Lemma callback_effect_streams cb args st :
  streams (callback_effect cb args st) = streams st.
Proof. destruct cb; cbn; [destruct (truthy _)|..]; by rewrite ?settle_streams. Qed.

Lemma callback_effect_async_promises cb args st :
  async_promises (callback_effect cb args st) = async_promises st.
Proof.
  destruct cb; cbn; [|done..].
  destruct (truthy _); unfold settle; cbn; by destruct (rpc_promises st !! rid) as [[]|].
Qed.

Lemma callback_effect_socket_promises cb args st :
  socket_promises (callback_effect cb args st) = socket_promises st.
Proof.
  destruct cb; cbn; [|done..].
  destruct (truthy _); unfold settle; cbn; by destruct (rpc_promises st !! rid) as [[]|].
Qed.

Lemma listeners_effect_socket r name ls args st :
  socket (listeners_effect r name ls args st) = socket st.
Proof. apply (listeners_effect_ind (fun st st' => socket st' = socket st));
  [done | congruence | intros; apply callback_effect_socket | intros; apply update_emitter_socket]. Qed.

Lemma listeners_effect__rpcRequestId r name ls args st :
  _rpcRequestId (listeners_effect r name ls args st) = _rpcRequestId st.
Proof. apply (listeners_effect_ind (fun st st' => _rpcRequestId st' = _rpcRequestId st));
  [done | congruence | intros; apply callback_effect__rpcRequestId | intros; apply update_emitter__rpcRequestId]. Qed.

Lemma listeners_effect_next_emitter r name ls args st :
  next_emitter (listeners_effect r name ls args st) = next_emitter st.
Proof. apply (listeners_effect_ind (fun st st' => next_emitter st' = next_emitter st));
  [done | congruence | intros; apply callback_effect_next_emitter | intros; apply update_emitter_next_emitter]. Qed.

Lemma listeners_effect_timers r name ls args st :
  timers (listeners_effect r name ls args st) = timers st.
Proof. apply (listeners_effect_ind (fun st st' => timers st' = timers st));
  [done | congruence | intros; apply callback_effect_timers | intros; apply update_emitter_timers]. Qed.

Lemma listeners_effect_reactions r name ls args st :
  reactions (listeners_effect r name ls args st) = reactions st.
Proof. apply (listeners_effect_ind (fun st st' => reactions st' = reactions st));
  [done | congruence | intros; apply callback_effect_reactions | intros; apply update_emitter_reactions]. Qed.

Lemma listeners_effect_disposables r name ls args st :
  disposables (listeners_effect r name ls args st) = disposables st.
Proof. apply (listeners_effect_ind (fun st st' => disposables st' = disposables st));
  [done | congruence | intros; apply callback_effect_disposables | intros; apply update_emitter_disposables]. Qed.

Lemma listeners_effect_async_promises r name ls args st :
  async_promises (listeners_effect r name ls args st) = async_promises st.
Proof. apply (listeners_effect_ind (fun st st' => async_promises st' = async_promises st));
  [done | congruence | intros; apply callback_effect_async_promises | intros; apply update_emitter_async_promises]. Qed.

Lemma listeners_effect_socket_promises r name ls args st :
  socket_promises (listeners_effect r name ls args st) = socket_promises st.
Proof. apply (listeners_effect_ind (fun st st' => socket_promises st' = socket_promises st));
  [done | congruence | intros; apply callback_effect_socket_promises | intros; apply update_emitter_socket_promises]. Qed.

Lemma install_disposers_socket a i ds st :
  socket (install_disposers a i ds st) = socket st.
Proof. apply (install_disposers_ind (fun st st' => socket st' = socket st));
  [done | congruence | intros; apply update_emitter_socket]. Qed.

Lemma install_disposers__rpcRequestId a i ds st :
  _rpcRequestId (install_disposers a i ds st) = _rpcRequestId st.
Proof. apply (install_disposers_ind (fun st st' => _rpcRequestId st' = _rpcRequestId st));
  [done | congruence | intros; apply update_emitter__rpcRequestId]. Qed.

Lemma install_disposers_next_emitter a i ds st :
  next_emitter (install_disposers a i ds st) = next_emitter st.
Proof. apply (install_disposers_ind (fun st st' => next_emitter st' = next_emitter st));
  [done | congruence | intros; apply update_emitter_next_emitter]. Qed.

Lemma install_disposers_timers a i ds st :
  timers (install_disposers a i ds st) = timers st.
Proof. apply (install_disposers_ind (fun st st' => timers st' = timers st));
  [done | congruence | intros; apply update_emitter_timers]. Qed.

Lemma install_disposers_reactions a i ds st :
  reactions (install_disposers a i ds st) = reactions st.
Proof. apply (install_disposers_ind (fun st st' => reactions st' = reactions st));
  [done | congruence | intros; apply update_emitter_reactions]. Qed.

Lemma install_disposers_disposables a i ds st :
  disposables (install_disposers a i ds st) = disposables st.
Proof. apply (install_disposers_ind (fun st st' => disposables st' = disposables st));
  [done | congruence | intros; apply update_emitter_disposables]. Qed.

Lemma install_disposers_rpc_promises a i ds st :
  rpc_promises (install_disposers a i ds st) = rpc_promises st.
Proof. apply (install_disposers_ind (fun st st' => rpc_promises st' = rpc_promises st));
  [done | congruence | intros; apply update_emitter_rpc_promises]. Qed.

Lemma install_disposers_async_promises a i ds st :
  async_promises (install_disposers a i ds st) = async_promises st.
Proof. apply (install_disposers_ind (fun st st' => async_promises st' = async_promises st));
  [done | congruence | intros; apply update_emitter_async_promises]. Qed.

Lemma install_disposers_socket_promises a i ds st :
  socket_promises (install_disposers a i ds st) = socket_promises st.
Proof. apply (install_disposers_ind (fun st st' => socket_promises st' = socket_promises st));
  [done | congruence | intros; apply update_emitter_socket_promises]. Qed.

Lemma install_disposers__eventEmitters a i ds st :
  _eventEmitters (install_disposers a i ds st) = _eventEmitters st.
Proof. apply (install_disposers_ind (fun st st' => _eventEmitters st' = _eventEmitters st));
  [done | congruence | intros; apply update_emitter__eventEmitters]. Qed.

Lemma install_disposers_eventbus a i ds st :
  eventbus (install_disposers a i ds st) = eventbus st.
Proof. apply (install_disposers_ind (fun st st' => eventbus st' = eventbus st));
  [done | congruence | done]. Qed.

Lemma install_disposers_serviceFrameworkEventEmitter a i ds st :
  serviceFrameworkEventEmitter (install_disposers a i ds st) = serviceFrameworkEventEmitter st.
Proof. apply (install_disposers_ind (fun st st' => serviceFrameworkEventEmitter st' = serviceFrameworkEventEmitter st));
  [done | congruence | done]. Qed.

Lemma install_disposers__serviceFrameworkRpcEmitter a i ds st :
  _serviceFrameworkRpcEmitter (install_disposers a i ds st) = _serviceFrameworkRpcEmitter st.
Proof. apply (install_disposers_ind (fun st st' => _serviceFrameworkRpcEmitter st' = _serviceFrameworkRpcEmitter st));
  [done | congruence | done]. Qed.

Lemma install_disposers__serviceFramework3Emitter a i ds st :
  _serviceFramework3Emitter (install_disposers a i ds st) = _serviceFramework3Emitter st.
Proof. apply (install_disposers_ind (fun st st' => _serviceFramework3Emitter st' = _serviceFramework3Emitter st));
  [done | congruence | done]. Qed.

Create Rewrite HintDb frame.
#[local] Hint Rewrite
  settle_socket settle__rpcRequestId settle_next_emitter
  settle_timers settle_reactions settle_disposables
  settle_eventbus settle_serviceFrameworkEventEmitter settle__serviceFrameworkRpcEmitter
  settle__serviceFramework3Emitter settle_streams settle__eventEmitters
  update_emitter_socket update_emitter__rpcRequestId update_emitter_next_emitter
  update_emitter_timers update_emitter_reactions update_emitter_disposables
  update_emitter_rpc_promises update_emitter_async_promises update_emitter_socket_promises
  update_emitter__eventEmitters callback_effect_socket callback_effect__rpcRequestId
  callback_effect_next_emitter callback_effect_timers callback_effect_reactions
  callback_effect_disposables callback_effect_eventbus callback_effect_serviceFrameworkEventEmitter
  callback_effect__serviceFrameworkRpcEmitter callback_effect__serviceFramework3Emitter callback_effect_streams
  callback_effect_async_promises callback_effect_socket_promises listeners_effect_socket
  listeners_effect__rpcRequestId listeners_effect_next_emitter listeners_effect_timers
  listeners_effect_reactions listeners_effect_disposables listeners_effect_async_promises
  listeners_effect_socket_promises install_disposers_socket install_disposers__rpcRequestId
  install_disposers_next_emitter install_disposers_timers install_disposers_reactions
  install_disposers_disposables install_disposers_rpc_promises install_disposers_async_promises
  install_disposers_socket_promises install_disposers__eventEmitters install_disposers_eventbus
  install_disposers_serviceFrameworkEventEmitter install_disposers__serviceFrameworkRpcEmitter install_disposers__serviceFramework3Emitter
  : frame.

Lemma emit_socket r name args st : socket (post (emit r name args st)) = socket st.
Proof.
  destruct (emit_cases r name args st) as [(ls & _ & ->)|(_ & v & ->)]; cbn; [|done].
  apply listeners_effect_socket.
Qed.

Lemma closed_rel_compositional : Compositional closed_rel.
Proof.
  split.
  - intros st Hs. by split.
  - intros st f1 st1 f2 st2 H1 H2 Hs.
    destruct (H1 Hs) as [Hs1 Hf1]. destruct (H2 Hs1) as [Hs2 Hf2].
    split; [done|]. apply Forall_app. by split.
Qed.

Lemma closed_rel_elementary k A (m : M A) : elementary k m -> sat closed_rel m.
Proof.
  intros Hel. destruct Hel; intros st Hs.
  - unfold callServiceFrameworkMethod. js_unfold. cbn. rewrite Hs. cbn.
    split; [done|]. by repeat constructor.
  - unfold callMethod. js_unfold. cbn. rewrite Hs. cbn.
    rewrite settle_socket. cbn. split; [done|]. by repeat constructor.
  - unfold _callSubscribe. js_unfold. cbn. rewrite Hs. cbn.
    rewrite settle_socket. cbn. split; [done|]. by repeat constructor.
  - unfold timer_fires. js_unfold. cbn.
    destruct (timers st !! requestId); cbn; [|by split].
    rewrite settle_socket. cbn. by split.
  - rewrite emit_socket. split; [done|]. apply emit_fx_no_socket.
  - unfold dispose. js_unfold. cbn.
    destruct (disposables st !! d) as [D|]; cbn; [|by split].
    destruct (disposed D); cbn; by split.
  - unfold close. js_unfold. cbn. rewrite Hs. cbn. by split.
  - cbn. split; [done|]. by repeat constructor.
  - unfold attach_listener. js_unfold. cbn.
    destruct r; cbn; try (by split).
    destruct (bool_decide _); cbn; by split.
  - rewrite register_emitter_spec. cbn. by rewrite install_disposers_socket.
  - cbn. by split.
  - cbn. rewrite settle_socket. by split.
  - cbn. by split.
  - cbn. by split.
  - cbn. split; [done|]. by repeat constructor.
  - cbn. by split.
  - cbn. by split.
Qed.

Lemma run_sat R :
  Compositional R -> (forall e, sat R (step e)) ->
  forall es st, R st (run_fx es st) (run es st).
Proof.
  intros HR Hstep es. induction es as [|e es IH]; intros st; cbn.
  - apply (comp_refl _ HR).
  - eapply (comp_trans _ HR); [apply Hstep|apply IH].
Qed.

Lemma closed_rel_run es st : closed_rel st (run_fx es st) (run es st).
Proof.
  apply run_sat; [apply closed_rel_compositional|].
  intros e. apply step_sat; [apply closed_rel_compositional|].
  intros k A m _. apply closed_rel_elementary.
Qed.

Lemma close_open st sock :
  socket st = Some sock -> close st = mkOut (set_socket None st) [ESocketClose] (Ok tt).
Proof. intros Hs. unfold close. js_unfold. cbn. by rewrite Hs. Qed.

Lemma close_ok st : val (close st) = Ok tt -> socket (post (close st)) = None.
Proof. unfold close. js_unfold. cbn. by destruct (socket st). Qed.

(** C4, as amended.  Once [close()] has succeeded, whatever happened since:
    [callMethod] logs 'RemoteEventBus closed', sends nothing and its promise
    is resolved with [undefined] (it does not fail);
    [callServiceFrameworkMethod] takes a request id, sends nothing and its
    promise is rejected at once. *)
Theorem calls_after_close (st : State) (es : list Step)
    (serviceName methodName : string) (methodArgs : option (list JsVal))
    (extraOptions : JsVal) (rpcArgs : list JsVal) (serviceOptions : JsVal)
    (timeout : option Z) :
  val (close st) = Ok tt ->
  let st1 := run es (post (close st)) in
  let o1 := callMethod serviceName methodName methodArgs extraOptions st1 in
  let o2 := callServiceFrameworkMethod serviceName methodName rpcArgs serviceOptions
              timeout st1 in
  (exists r, val o1 = Ok r /\
     pstate (PAsync r) (post o1) = Some (Resolved JUndefined) /\
     fx o1 = [ELoggerError (LogClosed serviceName methodName)]) /\
  (val o2 = Ok (PRpc (_rpcRequestId st1)) /\
   pstate (PRpc (_rpcRequestId st1)) (post o2) = Some (Rejected (nullDeref "send")) /\
   fx o2 = [ERequestId (_rpcRequestId st1)]).
Proof.
  intros Hc st1 o1 o2.
  assert (socket st1 = None) as Hs
    by (apply (closed_rel_run es (post (close st))), close_ok, Hc).
  subst o1 o2. split.
  - unfold callMethod. js_unfold. cbn. rewrite Hs. cbn.
    exists (length (async_promises st1)). split; [done|]. split; [|done].
    unfold settle. cbn. rewrite list_lookup_middle by done. cbn.
    apply list_lookup_insert_eq. rewrite length_app; cbn; lia.
  - unfold callServiceFrameworkMethod. js_unfold. cbn. rewrite Hs. cbn.
    split; [done|]. split; [|done]. apply lookup_insert_eq.
Qed.


(** ** Emitters *)

Lemma get_update_emitter r r' f st :
  get_emitter r' (update_emitter r f st) =
    if decide (r' = r) then f (get_emitter r st) else get_emitter r' st.
Proof.
  unfold update_emitter. destruct (decide (r' = r)) as [->|Hne].
  - destruct r; cbn; by rewrite ?lookup_insert_eq.
  - destruct r, r'; cbn; try done. rewrite lookup_insert_ne; [done|congruence].
Qed.

Lemma get_emitter_settle r p s st : get_emitter r (settle p s st) = get_emitter r st.
Proof. destruct r; cbn; by autorewrite with frame. Qed.

Lemma get_emitter_callback_effect r cb args st :
  get_emitter r (callback_effect cb args st) = get_emitter r st.
Proof. destruct r; cbn; by autorewrite with frame. Qed.

Lemma get_emitter_set_table r t st : get_emitter r (set__eventEmitters t st) = get_emitter r st.
Proof. by destruct r. Qed.

Lemma shrinks_refl em : shrinks em em.
Proof. intros name ls E. by exists ls. Qed.

Lemma shrinks_trans em1 em2 em3 : shrinks em1 em2 -> shrinks em2 em3 -> shrinks em1 em3.
Proof.
  intros H12 H23 name ls3 E3.
  destruct (H23 _ _ E3) as (ls2 & E2 & S23).
  destruct (H12 _ _ E2) as (ls1 & E1 & S12).
  exists ls1. split; [done|]. by etrans.
Qed.

Lemma store_lookup name ls em name' :
  EventEmitter.store name ls em !! name' =
    if decide (name = name') then (match ls with [] => None | _ => Some ls end)
    else em !! name'.
Proof.
  unfold EventEmitter.store. case_decide as E.
  - subst. destruct ls; by rewrite ?lookup_delete_eq, ?lookup_insert_eq.
  - destruct ls; by rewrite ?lookup_delete_ne, ?lookup_insert_ne.
Qed.

Lemma shrinks_store name ls i em :
  em !! name = Some ls -> shrinks em (EventEmitter.store name (delete i ls) em).
Proof.
  intros E name' ls' E'. rewrite store_lookup in E'. case_decide; [subst|eauto].
  exists ls. split; [done|].
  destruct (delete i ls) eqn:Ed; [done|]. injection E' as <-. rewrite <-Ed.
  apply sublist_subseteq, sublist_delete.
Qed.

Lemma shrinks_removeWrapper name l em :
  shrinks em (EventEmitter.removeWrapper name l em).
Proof.
  unfold EventEmitter.removeWrapper.
  destruct (em !! name) as [ls|] eqn:E; [|apply shrinks_refl].
  destruct (EventEmitter.first_index l ls); [|apply shrinks_refl].
  by apply shrinks_store.
Qed.

Lemma shrinks_removeListener name cb em :
  shrinks em (EventEmitter.removeListener name cb em).
Proof.
  unfold EventEmitter.removeListener.
  destruct (em !! name) as [ls|] eqn:E; [|apply shrinks_refl].
  destruct (EventEmitter.last_index _ ls); [|apply shrinks_refl].
  by apply shrinks_store.
Qed.

Lemma addListener_lookup name l em name' :
  EventEmitter.addListener name l em !! name' =
    if decide (name = name') then Some (EventEmitter.listeners name em ++ [l])
    else em !! name'.
Proof.
  unfold EventEmitter.addListener. case_decide; [subst|].
  - by rewrite lookup_insert_eq.
  - by rewrite lookup_insert_ne.
Qed.

Lemma addListener_elem name l em name' ls' x :
  EventEmitter.addListener name l em !! name' = Some ls' -> x ∈ ls' ->
  x = l \/ exists ls, em !! name' = Some ls /\ x ∈ ls.
Proof.
  rewrite addListener_lookup. case_decide; [subst|eauto].
  intros [= <-] [Hx|Hx%list_elem_of_singleton]%elem_of_app; [|by left].
  right. unfold EventEmitter.listeners in Hx.
  destruct (em !! name') as [ls|]; cbn in Hx; [eauto|by apply elem_of_nil in Hx].
Qed.

(** Calling listeners removes listeners and table entries, and settles
    promises; it adds nothing. *)
Lemma listeners_effect_shrinks r name ls args st r' :
  shrinks (get_emitter r' st) (get_emitter r' (listeners_effect r name ls args st)).
Proof.
  apply (listeners_effect_ind
           (fun st st' => shrinks (get_emitter r' st) (get_emitter r' st'))).
  - intros. apply shrinks_refl.
  - intros ???. apply shrinks_trans.
  - intros. rewrite get_emitter_callback_effect. apply shrinks_refl.
  - intros. rewrite get_update_emitter. case_decide; [subst|apply shrinks_refl].
    apply shrinks_removeWrapper.
Qed.

Lemma listeners_effect_other r name ls args st r' :
  r' <> r -> get_emitter r' (listeners_effect r name ls args st) = get_emitter r' st.
Proof.
  intros Hne.
  apply (listeners_effect_ind (fun st st' => get_emitter r' st' = get_emitter r' st)).
  - done.
  - congruence.
  - intros. apply get_emitter_callback_effect.
  - intros. rewrite get_update_emitter. by case_decide.
Qed.

Lemma callback_effect_table cb args st i a :
  _eventEmitters (callback_effect cb args st) !! i = Some a ->
  _eventEmitters st !! i = Some a.
Proof.
  destruct cb; cbn; [destruct (truthy _)|..]; autorewrite with frame; try done.
  intros E. apply lookup_delete_Some in E. tauto.
Qed.

Lemma listeners_effect_table r name ls args st i a :
  _eventEmitters (listeners_effect r name ls args st) !! i = Some a ->
  _eventEmitters st !! i = Some a.
Proof.
  apply (listeners_effect_ind
           (fun st st' => _eventEmitters st' !! i = Some a -> _eventEmitters st !! i = Some a)).
  - done.
  - auto.
  - intros. by eapply callback_effect_table.
  - intros ??. by autorewrite with frame.
Qed.

Lemma settle_rpc_lookup p s st rid :
  rpc_promises (settle p s st) !! rid =
    if decide (p = PRpc rid)
    then match rpc_promises st !! rid with Some Pending => Some s | o => o end
    else rpc_promises st !! rid.
Proof.
  unfold settle. destruct p as [rid'| |]; cbn.
  - destruct (decide (rid' = rid)) as [->|Hne].
    + rewrite decide_True by done.
      destruct (rpc_promises st !! rid) as [[]|] eqn:E; cbn;
        by rewrite ?lookup_insert_eq, ?E.
    + rewrite decide_False by congruence.
      destruct (rpc_promises st !! rid') as [[]|]; cbn; by rewrite ?lookup_insert_ne.
  - by destruct (async_promises st !! n) as [[]|].
  - by destruct (socket_promises st !! n) as [[]|].
Qed.

Lemma promises_settle_refl st : promises_settle st st.
Proof. intros rid. naive_solver. Qed.

Lemma promises_settle_trans st1 st2 st3 :
  promises_settle st1 st2 -> promises_settle st2 st3 -> promises_settle st1 st3.
Proof.
  intros H12 H23 rid. destruct (H12 rid) as (A1 & B1 & C1), (H23 rid) as (A2 & B2 & C2).
  split; [|split].
  - by rewrite A2.
  - auto.
  - auto.
Qed.

Lemma promises_settle_settle p s st : s <> Pending -> promises_settle st (settle p s st).
Proof.
  intros Hs rid. rewrite settle_rpc_lookup. case_decide as E; [|naive_solver].
  destruct (rpc_promises st !! rid) as [[]|]; naive_solver.
Qed.

Lemma promises_settle_settle_after p s st st0 :
  s <> Pending -> rpc_promises st0 = rpc_promises st ->
  promises_settle st (settle p s st0).
Proof.
  intros Hs E. eapply promises_settle_trans; [|by apply promises_settle_settle].
  intros rid. rewrite E. naive_solver.
Qed.

Lemma promises_settle_same st st' :
  rpc_promises st' = rpc_promises st -> promises_settle st st'.
Proof. intros E rid. rewrite E. naive_solver. Qed.

Lemma callback_effect_promises cb args st : promises_settle st (callback_effect cb args st).
Proof.
  destruct cb; cbn; [destruct (truthy _)|..];
    (by apply promises_settle_settle) || by apply promises_settle_same.
Qed.

Lemma listeners_effect_promises r name ls args st :
  promises_settle st (listeners_effect r name ls args st).
Proof.
  apply (listeners_effect_ind promises_settle).
  - apply promises_settle_refl.
  - apply promises_settle_trans.
  - intros. apply callback_effect_promises.
  - intros. apply promises_settle_same. by autorewrite with frame.
Qed.

(** ** The invariants hold in every reachable state *)

Lemma wf_calls_same st st' :
  _serviceFrameworkRpcEmitter st' = _serviceFrameworkRpcEmitter st ->
  _rpcRequestId st <= _rpcRequestId st' ->
  timers st' = timers st ->
  rpc_promises st' = rpc_promises st ->
  wf_calls st -> wf_calls st'.
Proof.
  intros E1 E2 E3 E4 [H1 H2 H3 H4]. split.
  - intros name ls. rewrite E1, E3. intros (rid & ? & ? & ? & ?)%H1.
    exists rid. split_and!; try done. lia.
  - intros rid s. rewrite E4. intros ?%H2. lia.
  - intros rid. rewrite E1, E4. apply H3.
  - intros rid ls. rewrite E1, E4. apply H4.
Qed.

Lemma wf_listeners_shrink st st' :
  (forall r, r <> ServiceFrameworkRpcEmitter ->
     shrinks (get_emitter r st) (get_emitter r st')) ->
  (forall i a, _eventEmitters st' !! i = Some a -> _eventEmitters st !! i = Some a) ->
  (next_emitter st <= next_emitter st')%nat ->
  wf_listeners st -> wf_listeners st'.
Proof.
  intros Hem Htab Hnext [H1 H2 H3]. split.
  - intros r name ls' l Hr E Hl.
    assert (r <> ServiceFrameworkRpcEmitter) as Hne
      by (destruct Hr as [->|[->| ->]]; done).
    destruct (Hem r Hne _ _ E) as (ls & E0 & Hsub).
    apply (H1 r name ls l Hr E0). by apply Hsub.
  - intros a name ls' l E Hl.
    destruct (Hem (Stream a) (ltac:(done)) _ _ E) as (ls & E0 & Hsub).
    destruct (H2 a name ls l E0 (Hsub _ Hl)) as [?|(i & -> & Hi)]; [by left|].
    right. exists i. split; [done|]. intros i' ?%Htab. by apply Hi.
  - intros i a ?%Htab%H3. lia.
Qed.

Lemma wf_listeners_same st st' :
  (forall r, r <> ServiceFrameworkRpcEmitter -> get_emitter r st' = get_emitter r st) ->
  _eventEmitters st' = _eventEmitters st ->
  (next_emitter st <= next_emitter st')%nat ->
  wf_listeners st -> wf_listeners st'.
Proof.
  intros Hem Htab Hnext. apply wf_listeners_shrink; [|by rewrite Htab|done].
  intros r Hr. rewrite (Hem r Hr). apply shrinks_refl.
Qed.

Lemma wf_unsubs_same st st' :
  reactions st' = reactions st -> disposables st' = disposables st ->
  wf_unsubs st -> wf_unsubs st'.
Proof. unfold wf_unsubs. intros -> ->. done. Qed.

Lemma wf_unsubs_await st st' p k :
  is_unsubscribe k = false ->
  reactions st' = reactions st ++ [mkReaction p k] ->
  disposables st' = disposables st ->
  wf_unsubs st -> wf_unsubs st'.
Proof.
  intros Hk Er Ed Hu j r t s m o. rewrite Er, Ed. intros Hj Hf.
  apply lookup_app_Some in Hj as [Hj|[_ Hj]]; [by eapply Hu|].
  apply list_lookup_singleton_Some in Hj as [_ <-]. cbn in Hf. by subst k.
Qed.

Lemma wf_unsubs_drop st st' k :
  reactions st' = delete k (reactions st) ->
  disposables st' = disposables st ->
  wf_unsubs st -> wf_unsubs st'.
Proof.
  intros Er Ed Hu j r t s m o. rewrite Er, Ed, list_lookup_delete. intros Hj. by eapply Hu.
Qed.

Lemma wf_unsubs_new_disposable st st' D :
  reactions st' = reactions st ->
  disposables st' = disposables st ++ [D] ->
  wf_unsubs st -> wf_unsubs st'.
Proof.
  intros Er Ed Hu j r t s m o. rewrite Er, Ed. intros Hj Hf.
  destruct (Hu _ _ _ _ _ _ Hj Hf) as (d & D' & Hd & ?).
  exists d, D'. split; [|done]. by apply lookup_app_l_Some.
Qed.

Lemma wf_calls_mono st st' :
  wf_calls st ->
  (forall name ls, _serviceFrameworkRpcEmitter st' !! name = Some ls ->
     _serviceFrameworkRpcEmitter st !! name = Some ls) ->
  _rpcRequestId st <= _rpcRequestId st' ->
  (forall rid ls, _serviceFrameworkRpcEmitter st' !! pretty rid = Some ls ->
     is_Some (timers st !! rid) -> is_Some (timers st' !! rid)) ->
  promises_settle st st' ->
  (forall rid, rpc_promises st' !! rid = Some Pending ->
     _serviceFrameworkRpcEmitter st' !! pretty rid =
     _serviceFrameworkRpcEmitter st !! pretty rid) ->
  (forall rid ls, _serviceFrameworkRpcEmitter st' !! pretty rid = Some ls ->
     rpc_promises st' !! rid = rpc_promises st !! rid) ->
  wf_calls st'.
Proof.
  intros [H1 H2 H3 H4] Hem Hc Htm Hp Hpe Hli. split.
  - intros name ls E. destruct (H1 _ _ (Hem _ _ E)) as (rid & -> & -> & ? & ?).
    exists rid. split_and!; [done|done|lia|by eapply Htm].
  - intros rid s E. destruct (Hp rid) as (Hn & _ & _).
    destruct (rpc_promises st !! rid) as [s0|] eqn:E0.
    + specialize (H2 _ _ E0). lia.
    + rewrite (proj2 Hn eq_refl) in E. done.
  - intros rid E. rewrite (Hpe _ E). apply H3. by apply (Hp rid).
  - intros rid ls E. rewrite (Hli _ _ E). eapply H4. by apply Hem.
Qed.

Lemma first_index_head l ls : EventEmitter.first_index l (l :: ls) = Some 0%nat.
Proof. cbn. by rewrite bool_decide_eq_true_2. Qed.

Lemma removeWrapper_single name l em :
  em !! name = Some [l] -> EventEmitter.removeWrapper name l em = delete name em.
Proof.
  intros E. unfold EventEmitter.removeWrapper. by rewrite E, first_index_head.
Qed.

(** What a response does to the request it answers, when the request is
    still waited for. *)
Lemma emit_rpc_listener st rid args :
  _serviceFrameworkRpcEmitter st !! pretty rid = Some [rpc_listener rid] ->
  listeners_effect ServiceFrameworkRpcEmitter (pretty rid) [rpc_listener rid] args st =
    settle (PRpc rid)
      (if truthy (nth 0 args JUndefined) then Rejected (nth 0 args JUndefined)
       else Resolved (nth 1 args JUndefined))
      (set__serviceFrameworkRpcEmitter
         (delete (pretty rid) (_serviceFrameworkRpcEmitter st)) st).
Proof.
  intros E. cbn. unfold update_emitter. cbn. rewrite (removeWrapper_single _ _ _ E).
  by destruct (truthy _).
Qed.

Lemma settle_not_pending rid s st :
  s <> Pending -> rpc_promises (settle (PRpc rid) s st) !! rid <> Some Pending.
Proof.
  intros Hs. rewrite settle_rpc_lookup, decide_True by done.
  destruct (rpc_promises st !! rid) as [[]|]; congruence.
Qed.

Lemma response_state_not_pending (e v : JsVal) :
  (if truthy e then Rejected e else Resolved v) <> Pending.
Proof. by destruct (truthy e). Qed.

Lemma callback_effect_no_settle cb args st :
  (forall rid, cb <> CbSettle rid) ->
  rpc_promises (callback_effect cb args st) = rpc_promises st.
Proof. intros Hcb. destruct cb; cbn; [by destruct (Hcb rid)|done..]. Qed.

Lemma listeners_effect_no_settle r name ls args st :
  (forall l rid, l ∈ ls -> fn l <> CbSettle rid) ->
  rpc_promises (listeners_effect r name ls args st) = rpc_promises st.
Proof.
  revert st. induction ls as [|l ls IH]; intros st Hls; cbn; [done|].
  rewrite IH by (intros ???; apply Hls; by right).
  rewrite callback_effect_no_settle by (intros rid; apply Hls; by left).
  destruct (once_only l); by autorewrite with frame.
Qed.

Lemma wf_listeners_no_settle st r name ls l rid :
  wf_listeners st -> r <> ServiceFrameworkRpcEmitter ->
  get_emitter r st !! name = Some ls -> l ∈ ls -> fn l <> CbSettle rid.
Proof.
  intros [H1 H2 _] Hr E Hl.
  destruct r; try done.
  - destruct (H1 Eventbus _ _ _ (or_introl eq_refl) E Hl) as [h ->]. done.
  - destruct (H1 ServiceFrameworkEventEmitter _ _ _ (or_intror (or_introl eq_refl)) E Hl)
      as [h ->]. done.
  - destruct (H1 ServiceFramework3Emitter _ _ _ (or_intror (or_intror eq_refl)) E Hl)
      as [h ->]. done.
  - destruct (H2 _ _ _ _ E Hl) as [[h ->]|(i & -> & _)]; done.
Qed.

Lemma wf_calls_emit r name args st :
  wf_listeners st -> wf_calls st -> wf_calls (post (emit r name args st)).
Proof.
  intros Hli Hc.
  destruct (emit_cases r name args st) as [(ls & E & ->)|(_ & v & ->)]; [|done]. cbn.
  destruct (decide (r = ServiceFrameworkRpcEmitter)) as [->|Hne].
  - cbn in E. destruct (wf_rpc _ Hc _ _ E) as (rid & -> & -> & Hlt & Htm).
    rewrite (emit_rpc_listener _ _ _ E).
    apply (wf_calls_mono st); autorewrite with frame; cbn; try done.
    + intros name ls Hl. apply lookup_delete_Some in Hl. tauto.
    + by apply promises_settle_settle_after; [apply response_state_not_pending|].
    + intros rid' Hp. apply lookup_delete_ne. intros Heq%(inj pretty). subst rid'.
      exfalso. revert Hp. apply settle_not_pending, response_state_not_pending.
    + intros rid' ls Hl. apply lookup_delete_Some in Hl as [Hk _].
      rewrite settle_rpc_lookup, decide_False; [done|]. intros [= ->]. done.
  - pose proof (listeners_effect_other r name ls args st _ (not_eq_sym Hne)) as Eem.
    cbn in Eem.
    apply (wf_calls_mono st); autorewrite with frame; rewrite ?Eem; try done.
    + apply listeners_effect_promises.
    + intros rid ls' _. rewrite listeners_effect_no_settle; [done|].
      intros l rid' Hl. by eapply wf_listeners_no_settle.
Qed.

Lemma wf_calls_timer_fires rid st : wf_calls st -> wf_calls (post (timer_fires rid st)).
Proof.
  intros Hc. unfold timer_fires. js_unfold. cbn.
  destruct (timers st !! rid) as [tm|] eqn:Et; cbn; [|done].
  unfold EventEmitter.removeAllListeners.
  apply (wf_calls_mono st); autorewrite with frame; cbn; try done.
  - intros name ls Hl. apply lookup_delete_Some in Hl. tauto.
  - intros rid' ls Hl Htm. apply lookup_delete_Some in Hl as [Hne _].
    rewrite lookup_delete_ne; [done|]. by intros ->.
  - by apply promises_settle_settle_after.
  - intros rid' Hp. apply lookup_delete_ne. intros Heq%(inj pretty). subst rid'.
    exfalso. revert Hp. by apply settle_not_pending.
  - intros rid' ls Hl. apply lookup_delete_Some in Hl as [Hk _].
    rewrite settle_rpc_lookup, decide_False; [done|]. intros [= ->]. done.
Qed.

Lemma rpc_key_fresh st :
  wf_calls st -> _serviceFrameworkRpcEmitter st !! pretty (_rpcRequestId st) = None.
Proof.
  intros Hc. destruct (_ !! _) as [ls|] eqn:E; [|done].
  destruct (wf_rpc _ Hc _ _ E) as (rid & Heq%(inj pretty) & _ & Hlt & _). lia.
Qed.

Lemma wf_calls_call s m a o t st :
  wf_calls st -> wf_calls (post (callServiceFrameworkMethod s m a o t st)).
Proof.
  intros Hc. pose proof Hc as [H1 H2 H3 H4].
  unfold callServiceFrameworkMethod. js_unfold. cbn.
  destruct (socket st) as [sock|]; cbn.
  - pose proof (rpc_key_fresh _ Hc) as Hfresh.
    assert (forall rid, rid <> _rpcRequestId st ->
              pretty rid <> pretty (_rpcRequestId st)) as Hinj
      by (intros rid Hne Heq%(inj pretty); done).
    split; cbn.
    + intros name ls. unfold EventEmitter.once. rewrite addListener_lookup.
      case_decide as En.
      * subst name. unfold EventEmitter.listeners. rewrite Hfresh. cbn. intros [= <-].
        exists (_rpcRequestId st). rewrite lookup_insert_eq.
        split_and!; [done|done|lia|eauto].
      * intros (rid & -> & -> & ? & ?)%H1. exists rid.
        split_and!; [done|done|lia|]. rewrite lookup_insert_ne; [done|lia].
    + intros rid s0. destruct (decide (rid = _rpcRequestId st)) as [->|Hne]; [lia|].
      rewrite lookup_insert_ne by done. intros ?%H2. lia.
    + intros rid. unfold EventEmitter.once. rewrite addListener_lookup.
      destruct (decide (rid = _rpcRequestId st)) as [->|Hne].
      * rewrite decide_True by done. unfold EventEmitter.listeners. by rewrite Hfresh.
      * rewrite lookup_insert_ne by done. rewrite decide_False by (by apply not_eq_sym, Hinj).
        apply H3.
    + intros rid ls. unfold EventEmitter.once. rewrite addListener_lookup.
      destruct (decide (rid = _rpcRequestId st)) as [->|Hne].
      * by rewrite lookup_insert_eq.
      * rewrite lookup_insert_ne by done. rewrite decide_False by (by apply not_eq_sym, Hinj).
        apply H4.
  - split; cbn.
    + intros name ls (rid & -> & -> & ? & ?)%H1. exists rid. split_and!; [done|done|lia|done].
    + intros rid s0. destruct (decide (rid = _rpcRequestId st)) as [->|Hne]; [lia|].
      rewrite lookup_insert_ne by done. intros ?%H2. lia.
    + intros rid. destruct (decide (rid = _rpcRequestId st)) as [->|Hne].
      * by rewrite lookup_insert_eq.
      * rewrite lookup_insert_ne by done. apply H3.
    + intros rid ls E. destruct (decide (rid = _rpcRequestId st)) as [->|Hne].
      * by rewrite (rpc_key_fresh _ Hc) in E.
      * rewrite lookup_insert_ne by done. by eapply H4.
Qed.

Lemma wf_listeners_add_user r name h o st :
  r <> ServiceFrameworkRpcEmitter ->
  wf_listeners st ->
  wf_listeners (update_emitter r (EventEmitter.addListener name (mkListener (CbUser h) o)) st).
Proof.
  intros Hr [H1 H2 H3]. split.
  - intros r0 name0 ls l Hr0. rewrite get_update_emitter. case_decide; [subst r0|by apply H1].
    intros E Hl. destruct (addListener_elem _ _ _ _ _ _ E Hl) as [->|(ls0 & E0 & Hl0)].
    + by exists h.
    + by apply (H1 r name0 ls0 l).
  - intros a name0 ls l. rewrite get_update_emitter. autorewrite with frame.
    case_decide; [subst r|by apply H2].
    intros E Hl. destruct (addListener_elem _ _ _ _ _ _ E Hl) as [->|(ls0 & E0 & Hl0)].
    + left. by exists h.
    + by apply (H2 a name0 ls0 l).
  - autorewrite with frame. done.
Qed.

Lemma install_disposers_other a i ds st r :
  r <> Stream a -> get_emitter r (install_disposers a i ds st) = get_emitter r st.
Proof.
  intros Hr.
  apply (install_disposers_ind (fun st st' => get_emitter r st' = get_emitter r st)).
  - done.
  - congruence.
  - intros. rewrite get_update_emitter. by case_decide.
Qed.

Lemma install_disposers_elem a i ds st name ls l :
  get_emitter (Stream a) (install_disposers a i ds st) !! name = Some ls -> l ∈ ls ->
  l = dispose_listener i \/
  exists ls0, get_emitter (Stream a) st !! name = Some ls0 /\ l ∈ ls0.
Proof.
  revert st ls. induction ds as [|d ds IH]; intros st ls; cbn [install_disposers]; [eauto|].
  intros E Hl. destruct (IH _ _ E Hl) as [->|(ls0 & E0 & Hl0)]; [by left|].
  rewrite get_update_emitter, decide_True in E0 by done.
  destruct (addListener_elem _ _ _ _ _ _ E0 Hl0) as [->|?]; eauto.
Qed.


Lemma wf_listeners_register i ds st :
  wf_listeners st -> wf_listeners (post (register_emitter i ds st)).
Proof.
  intros [H1 H2 H3]. rewrite register_emitter_spec. cbn [post].
  set (a := next_emitter st).
  set (st1 := set__eventEmitters _ _).
  assert (forall r, r <> Stream a -> get_emitter r st1 = get_emitter r st) as Hst1.
  { intros r Hr. destruct r; try done. cbn. rewrite lookup_insert_ne; [done|congruence]. }
  split.
  - intros r name ls l Hr.
    rewrite install_disposers_other by (destruct Hr as [->|[->| ->]]; done).
    rewrite Hst1 by (destruct Hr as [->|[->| ->]]; done). by apply H1.
  - intros a' name ls l. rewrite install_disposers__eventEmitters.
    assert (_eventEmitters st1 = <[i:=a]> (_eventEmitters st)) as -> by done.
    destruct (decide (a' = a)) as [->|Hne].
    + intros E Hl. right. exists i.
      destruct (install_disposers_elem _ _ _ _ _ _ _ E Hl) as [->|(ls0 & E0 & _)].
      * split; [done|]. intros i'. rewrite lookup_insert. case_decide; [done|].
        intros Hi'%H3. unfold a in Hi'. lia.
      * cbn in E0. by rewrite lookup_insert_eq in E0.
    + rewrite install_disposers_other by congruence. rewrite Hst1 by congruence.
      intros E Hl. destruct (H2 _ _ _ _ E Hl) as [?|(i0 & -> & Hi0)]; [by left|].
      right. exists i0. split; [done|]. intros i'. rewrite lookup_insert.
      case_decide; [congruence|]. apply Hi0.
  - intros i' a'. autorewrite with frame.
    assert (_eventEmitters st1 = <[i:=a]> (_eventEmitters st)) as -> by done.
    assert (next_emitter st1 = S a) as -> by done.
    rewrite lookup_insert.
    case_decide; [intros [= <-]; lia|]. intros ?%H3. unfold a. lia.
Qed.

Lemma wf_unsubs_dispose d st : wf_unsubs st -> wf_unsubs (post (dispose d st)).
Proof.
  intros Hu. unfold dispose. js_unfold. cbn.
  destruct (disposables st !! d) as [D|] eqn:Ed; cbn; [|done].
  destruct (disposed D) eqn:Edd; cbn; [done|].
  intros j r t s m o Hj Hf. cbn [reactions disposables set_reactions set_async_promises
    set_serviceFrameworkEventEmitter set_disposables] in Hj |- *.
  apply lookup_app_Some in Hj as [Hj|[_ Hj]].
  - destruct (Hu _ _ _ _ _ _ Hj Hf) as (d0 & D0 & Hd0 & Hdd0 & ?).
    exists d0, D0. split; [|done]. rewrite list_lookup_insert_ne; [done|].
    intros ->. congruence.
  - apply list_lookup_singleton_Some in Hj as [_ <-]. cbn in Hf. injection Hf as <- <- <- <-.
    eexists d, _. split.
    + apply list_lookup_insert_eq. by eapply lookup_lt_Some.
    + done.
Qed.

Lemma settle_rpc_promises_other p s st :
  is_rpc p = false -> rpc_promises (settle p s st) = rpc_promises st.
Proof.
  intros Hp. apply map_eq. intros rid. rewrite settle_rpc_lookup.
  rewrite decide_False; [done|]. by intros ->.
Qed.

Lemma wf_rel_compositional : Compositional wf_rel.
Proof. split; unfold wf_rel; auto. Qed.

Ltac wf_same :=
  lazymatch goal with
  | |- wf_calls _ =>
      eapply wf_calls_same; [..|eassumption];
      rewrite ?settle_rpc_promises_other by done; autorewrite with frame; cbn;
      autorewrite with frame; (reflexivity || lia)
  | |- wf_listeners _ =>
      eapply wf_listeners_same; [..|eassumption];
      [intros [] ?; cbn; autorewrite with frame; done
      |autorewrite with frame; cbn; autorewrite with frame; reflexivity
      |autorewrite with frame; cbn; autorewrite with frame; lia]
  | |- wf_unsubs _ =>
      eapply wf_unsubs_same; [..|eassumption]; autorewrite with frame; cbn;
      autorewrite with frame; reflexivity
  end.

Ltac wf_unsubs_by lem :=
  eapply lem; [..|eassumption]; try reflexivity; done.

Lemma wf_rel_elementary k A (m : M A) : elementary k m -> sat wf_rel m.
Proof.
  intros Hel. destruct Hel; intros st [Hc Hl Hu].
  - split; [by apply wf_calls_call|..];
      unfold callServiceFrameworkMethod; js_unfold; cbn;
      destruct (socket st); cbn; wf_same.
  - unfold callMethod. js_unfold. cbn. destruct (socket st); cbn.
    + destruct (serializeArgs _). cbn. split; [wf_same|wf_same|].
      wf_unsubs_by wf_unsubs_await.
    + split; wf_same.
  - unfold _callSubscribe. js_unfold. cbn. destruct (socket st); cbn.
    + split; [wf_same|wf_same|]. wf_unsubs_by wf_unsubs_await.
    + split; wf_same.
  - split; [by apply wf_calls_timer_fires|..];
      unfold timer_fires; js_unfold; cbn;
      destruct (timers st !! requestId); cbn; try done; wf_same.
  - split; [by apply wf_calls_emit|..];
      destruct (emit_cases r name args st) as [(ls & E & ->)|(_ & v & ->)]; cbn; try done.
    + apply (wf_listeners_shrink st); autorewrite with frame; try done.
      * intros. apply listeners_effect_shrinks.
      * intros ??. apply listeners_effect_table.
    + wf_same.
  - split; [..|by apply wf_unsubs_dispose];
      unfold dispose; js_unfold; cbn;
      destruct (disposables st !! d) as [D|]; cbn; try done;
      destruct (disposed D); cbn; try done.
    + wf_same.
    + apply (wf_listeners_shrink st); cbn; try done.
      intros r Hr. destruct r; try apply shrinks_refl. cbn.
      apply shrinks_removeListener.
  - unfold close. js_unfold. cbn. destruct (socket st); cbn; [|done]. split; wf_same.
  - cbn. split; wf_same.
  - unfold attach_listener. js_unfold. cbn.
    assert (forall r0, r0 <> ServiceFrameworkRpcEmitter ->
              wf (update_emitter r0
                    (EventEmitter.addListener name (mkListener (CbUser h) o)) st)) as Hadd.
    { intros r0 Hr0. split; [destruct r0; try done; wf_same| |wf_same].
      by apply (wf_listeners_add_user _ name h o st). }
    destruct r; cbn;
      [by apply (Hadd Eventbus)|by apply (Hadd ServiceFrameworkEventEmitter)|done
      |by apply (Hadd ServiceFramework3Emitter)|].
    case_bool_decide; cbn; [|done]. by apply (Hadd (Stream a)).
  - split; [..|by apply wf_listeners_register|]; rewrite register_emitter_spec; cbn; wf_same.
  - cbn. split; wf_same.
  - cbn. split; [|wf_same..].
    eapply wf_calls_same; [..|eassumption]; autorewrite with frame; try done.
    by apply settle_rpc_promises_other.
  - cbn. split; [wf_same|wf_same|]. wf_unsubs_by wf_unsubs_await.
  - cbn. split; [wf_same|wf_same|]. wf_unsubs_by wf_unsubs_drop.
  - cbn. split; wf_same.
  - cbn. split; [wf_same| |wf_same].
    by apply (wf_listeners_add_user ServiceFrameworkEventEmitter name h false st).
  - cbn. split; [wf_same|wf_same|]. wf_unsubs_by wf_unsubs_new_disposable.
Qed.

Lemma wf_constructor sock : wf (constructor sock).
Proof.
  split; [split|split|]; cbn.
  - intros name ls. by rewrite lookup_empty.
  - intros rid s. by rewrite lookup_empty.
  - intros rid. by rewrite lookup_empty.
  - intros rid ls. by rewrite lookup_empty.
  - intros r name ls l [->|[->| ->]]; cbn; by rewrite lookup_empty.
  - intros a name ls l. by rewrite !lookup_empty.
  - intros i a. by rewrite lookup_empty.
  - intros k r t s m o E. by destruct k.
Qed.

Lemma wf_step e st : wf st -> wf (post (step e st)).
Proof.
  apply (step_sat wf_rel e wf_rel_compositional).
  intros k A m _. apply wf_rel_elementary.
Qed.

Lemma reachable_wf st : reachable st -> wf st.
Proof. induction 1; [apply wf_constructor|by apply wf_step]. Qed.

Lemma reachable_run es st : reachable st -> reachable (run es st).
Proof.
  revert st. induction es as [|e es IH]; intros st Hr; cbn; [done|].
  apply IH. by constructor.
Qed.

(** ** Request ids *)

Lemma request_ids_app l1 l2 : request_ids (l1 ++ l2) = request_ids l1 ++ request_ids l2.
Proof. apply omap_app. Qed.

Lemma ids_rel_compositional : Compositional ids_rel.
Proof.
  split.
  - intros st. split; cbn; [done|lia].
  - intros st f1 st1 f2 st2 [E1 C1] [E2 C2]. unfold ids_rel.
    rewrite request_ids_app, length_app.
    split; [|lia].
    rewrite Nat2Z.inj_add, seqZ_app by lia. rewrite <-C1. by rewrite <-E1, <-E2.
Qed.

Lemma ids_rel_none st f st' :
  request_ids f = [] -> _rpcRequestId st' = _rpcRequestId st -> ids_rel st f st'.
Proof. intros E C. unfold ids_rel. rewrite E, C. cbn. split; [done|lia]. Qed.

Lemma ids_rel_one st st' :
  _rpcRequestId st' = _rpcRequestId st + 1 ->
  forall rest, request_ids rest = [] ->
  ids_rel st (ERequestId (_rpcRequestId st) :: rest) st'.
Proof.
  intros C rest E. unfold ids_rel.
  change (request_ids (ERequestId (_rpcRequestId st) :: rest))
    with (_rpcRequestId st :: request_ids rest).
  rewrite E, C. cbn. split; [|lia]. by rewrite seqZ_cons by lia.
Qed.

Lemma emit_request_ids r name args st : request_ids (fx (emit r name args st)) = [].
Proof. destruct (emit_fx_head r name args st) as (rest & -> & _ & _ & _ & E). exact E. Qed.

Lemma emit_rpcRequestId r name args st :
  _rpcRequestId (post (emit r name args st)) = _rpcRequestId st.
Proof.
  destruct (emit_cases r name args st) as [(ls & _ & ->)|(_ & v & ->)]; cbn; [|done].
  by autorewrite with frame.
Qed.

Lemma ids_rel_elementary k A (m : M A) : elementary k m -> sat ids_rel m.
Proof.
  intros Hel. destruct Hel; intros st.
  - unfold callServiceFrameworkMethod. js_unfold. cbn.
    destruct (socket st); cbn; by apply ids_rel_one.
  - unfold callMethod. js_unfold. cbn. destruct (socket st); cbn.
    + destruct (serializeArgs _). cbn. by apply ids_rel_none.
    + apply ids_rel_none; [done|]. by autorewrite with frame.
  - unfold _callSubscribe. js_unfold. cbn. destruct (socket st); cbn.
    + by apply ids_rel_none.
    + apply ids_rel_none; [done|]. by autorewrite with frame.
  - unfold timer_fires. js_unfold. cbn. destruct (timers st !! requestId); cbn.
    + apply ids_rel_none; [done|]. by autorewrite with frame.
    + by apply ids_rel_none.
  - apply ids_rel_none; [apply emit_request_ids|apply emit_rpcRequestId].
  - unfold dispose. js_unfold. cbn.
    destruct (disposables st !! d) as [D|]; cbn; [|by apply ids_rel_none].
    destruct (disposed D); cbn; by apply ids_rel_none.
  - unfold close. js_unfold. cbn. destruct (socket st); cbn; by apply ids_rel_none.
  - cbn. by apply ids_rel_one.
  - unfold attach_listener. js_unfold. cbn.
    destruct r; cbn; try (by apply ids_rel_none).
    case_bool_decide; cbn; by apply ids_rel_none.
  - rewrite register_emitter_spec. cbn. apply ids_rel_none; [done|].
    by autorewrite with frame.
  - cbn. by apply ids_rel_none.
  - cbn. apply ids_rel_none; [done|]. by autorewrite with frame.
  - cbn. by apply ids_rel_none.
  - cbn. by apply ids_rel_none.
  - cbn. by apply ids_rel_none.
  - cbn. by apply ids_rel_none.
  - cbn. by apply ids_rel_none.
Qed.

Lemma ids_rel_run es st : ids_rel st (run_fx es st) (run es st).
Proof.
  apply run_sat; [apply ids_rel_compositional|].
  intros e. apply step_sat; [apply ids_rel_compositional|].
  intros k A m _. apply ids_rel_elementary.
Qed.

(** ** Calls *)

Lemma frozen_rel_compositional : Compositional frozen_rel.
Proof.
  split.
  - intros st. split; [lia|]. split; [by left|done].
  - intros st f1 st1 f2 st2 (C1 & T1 & P1) (C2 & T2 & P2). split; [lia|]. split.
    + intros rid Hlt. destruct (T2 rid) as [E2|E2]; [lia| |by right].
      rewrite E2. by apply T1.
    + intros rid s Hlt E Hs. apply P2; [lia| |done]. by apply P1.
Qed.

Lemma frozen_rel_intro st f st' :
  _rpcRequestId st <= _rpcRequestId st' ->
  timers st' = timers st ->
  promises_settle st st' ->
  frozen_rel st f st'.
Proof.
  intros C T P. split; [done|]. split.
  - intros rid _. left. by rewrite T.
  - intros rid s _ E Hs. by apply (P rid).
Qed.

Lemma emit_timers r name args st : timers (post (emit r name args st)) = timers st.
Proof.
  destruct (emit_cases r name args st) as [(ls & _ & ->)|(_ & v & ->)]; cbn; [|done].
  by autorewrite with frame.
Qed.

Lemma emit_promises r name args st : promises_settle st (post (emit r name args st)).
Proof.
  destruct (emit_cases r name args st) as [(ls & _ & ->)|(_ & v & ->)]; cbn.
  - apply listeners_effect_promises.
  - apply promises_settle_refl.
Qed.

Ltac frozen_same :=
  apply frozen_rel_intro;
  [autorewrite with frame; cbn; autorewrite with frame; lia
  |autorewrite with frame; cbn; autorewrite with frame; reflexivity
  |apply promises_settle_same; rewrite ?settle_rpc_promises_other by done;
   autorewrite with frame; cbn; autorewrite with frame; reflexivity].

Lemma frozen_rel_elementary k A (m : M A) : elementary k m -> sat frozen_rel m.
Proof.
  intros Hel. destruct Hel; intros st.
  - unfold callServiceFrameworkMethod. js_unfold. cbn.
    destruct (socket st); unfold frozen_rel; cbn; (split; [lia|]; split).
    + intros rid Hlt. left. apply lookup_insert_ne. lia.
    + intros rid s0 Hlt E _. rewrite lookup_insert_ne by lia. done.
    + intros rid Hlt. by left.
    + intros rid s0 Hlt E _. rewrite lookup_insert_ne by lia. done.
  - unfold callMethod. js_unfold. cbn. destruct (socket st); cbn.
    + destruct (serializeArgs _). cbn. frozen_same.
    + frozen_same.
  - unfold _callSubscribe. js_unfold. cbn. destruct (socket st); cbn; frozen_same.
  - unfold timer_fires. js_unfold. cbn.
    destruct (timers st !! requestId) eqn:Et; cbn; [|frozen_same].
    unfold frozen_rel. split; [autorewrite with frame; cbn; lia|]. split.
    + intros rid _. autorewrite with frame. cbn. rewrite lookup_delete.
      case_decide; [by right|by left].
    + intros rid s _ E Hs.
      by apply (promises_settle_settle_after (PRpc requestId) _ st).
  - apply frozen_rel_intro;
      [rewrite emit_rpcRequestId; lia|apply emit_timers|apply emit_promises].
  - unfold dispose. js_unfold. cbn.
    destruct (disposables st !! d) as [D|]; cbn; [|frozen_same].
    destruct (disposed D); cbn; frozen_same.
  - unfold close. js_unfold. cbn. destruct (socket st); cbn; frozen_same.
  - cbn. frozen_same.
  - unfold attach_listener. js_unfold. cbn.
    destruct r; cbn; try frozen_same.
    case_bool_decide; cbn; frozen_same.
  - rewrite register_emitter_spec. cbn. frozen_same.
  - cbn. frozen_same.
  - cbn. frozen_same.
  - cbn. frozen_same.
  - cbn. frozen_same.
  - cbn. frozen_same.
  - cbn. frozen_same.
  - cbn. frozen_same.
Qed.

Lemma frozen_rel_step e st : frozen_rel st (fx (step e st)) (post (step e st)).
Proof.
  apply step_sat; [apply frozen_rel_compositional|].
  intros k A m _. apply frozen_rel_elementary.
Qed.

Lemma frozen_rel_run es st : frozen_rel st (run_fx es st) (run es st).
Proof.
  apply run_sat; [apply frozen_rel_compositional|]. intros e st'. apply frozen_rel_step.
Qed.

Lemma quiet_rel_compositional rid : Compositional (quiet_rel rid).
Proof.
  split.
  - intros st Hlt. by split.
  - intros st f1 st1 f2 st2 H1 H2 Hlt.
    destruct (H1 Hlt) as [Hlt1 E1]. destruct (H2 Hlt1) as [Hlt2 E2].
    split; [done|]. by rewrite E2.
Qed.

Lemma quiet_rel_same rid st f st' :
  _rpcRequestId st <= _rpcRequestId st' ->
  rpc_promises st' = rpc_promises st ->
  quiet_rel rid st f st'.
Proof. intros C P Hlt. rewrite P. split; [lia|done]. Qed.

Ltac quiet_same :=
  apply quiet_rel_same;
  [autorewrite with frame; cbn; autorewrite with frame; lia
  |rewrite ?settle_rpc_promises_other by done;
   autorewrite with frame; cbn; autorewrite with frame; reflexivity].

(** Operations other than [emit] and a timer leave the calls made so far
    alone. *)
Lemma quiet_rel_elementary rid k A (m : M A) :
  k <> KEmit -> (forall r, k <> KTimer r) -> elementary k m -> sat (quiet_rel rid) m.
Proof.
  intros Hk1 Hk2 Hel. destruct Hel; intros st.
  - unfold callServiceFrameworkMethod. js_unfold. cbn.
    destruct (socket st); unfold quiet_rel; cbn; intros Hlt;
      (split; [lia|]); rewrite lookup_insert_ne by lia; done.
  - unfold callMethod. js_unfold. cbn. destruct (socket st); cbn.
    + destruct (serializeArgs _). cbn. quiet_same.
    + quiet_same.
  - unfold _callSubscribe. js_unfold. cbn. destruct (socket st); cbn; quiet_same.
  - by destruct (Hk2 requestId).
  - done.
  - unfold dispose. js_unfold. cbn.
    destruct (disposables st !! d) as [D|]; cbn; [|quiet_same].
    destruct (disposed D); cbn; quiet_same.
  - unfold close. js_unfold. cbn. destruct (socket st); cbn; quiet_same.
  - cbn. quiet_same.
  - unfold attach_listener. js_unfold. cbn.
    destruct r; cbn; try quiet_same.
    case_bool_decide; cbn; quiet_same.
  - rewrite register_emitter_spec. cbn. quiet_same.
  - cbn. quiet_same.
  - cbn. quiet_same.
  - cbn. quiet_same.
  - cbn. quiet_same.
  - cbn. quiet_same.
  - cbn. quiet_same.
  - cbn. quiet_same.
Qed.

Lemma quiet_step rid e st :
  (forall k, step_kind e k -> k <> KEmit /\ forall r, k <> KTimer r) ->
  quiet_rel rid st (fx (step e st)) (post (step e st)).
Proof.
  intros Hk. apply step_sat; [apply quiet_rel_compositional|].
  intros k A m Hs. destruct (Hk k Hs). by apply quiet_rel_elementary.
Qed.

(** In a reachable state [emit] on an emitter other than the RPC emitter
    settles no call. *)
Lemma emit_no_settle r name args st :
  wf st -> r <> ServiceFrameworkRpcEmitter ->
  rpc_promises (post (emit r name args st)) = rpc_promises st.
Proof.
  intros Hwf Hr.
  destruct (emit_cases r name args st) as [(ls & E & ->)|(_ & v & ->)]; cbn; [|done].
  apply listeners_effect_no_settle. intros l rid Hl.
  by eapply wf_listeners_no_settle; [apply Hwf|..].
Qed.

(** [emit] on the RPC emitter settles the call it names and no other. *)
Lemma emit_rpc_other rid rid' args st :
  wf st -> rid' <> rid ->
  rpc_promises (post (emit ServiceFrameworkRpcEmitter (pretty rid') args st)) !! rid =
  rpc_promises st !! rid.
Proof.
  intros Hwf Hne.
  destruct (emit_cases ServiceFrameworkRpcEmitter (pretty rid') args st)
    as [(ls & E & ->)|(_ & v & ->)]; cbn; [|done].
  cbn in E. destruct (wf_rpc _ (wf_c _ Hwf) _ _ E) as (r & Hr%(inj pretty) & -> & _).
  subst r. rewrite (emit_rpc_listener _ _ _ E).
  rewrite settle_rpc_lookup, decide_False; [done|]. congruence.
Qed.

Lemma generic_emit_no_settle message st :
  wf st -> rpc_promises (post (generic_emit message st)) = rpc_promises st.
Proof. intros Hwf. by apply emit_no_settle. Qed.

Lemma emit_wf r name args st : wf st -> wf (post (emit r name args st)).
Proof. intros Hwf. by apply (wf_rel_elementary KEmit _ _ (el_emit r name args)). Qed.

(** A message that is not a response to the call [rid] leaves its promise
    alone. *)
Lemma handle_other_message rid message st :
  wf st ->
  ~ (Message.channel message = Some SERVICE_FRAMEWORK_RPC_CHANNEL /\
     Message.requestId message = Some rid) ->
  rpc_promises (post (_handleSocketMessage message st)) !! rid = rpc_promises st !! rid.
Proof.
  intros Hwf Hnm.
  destruct (message_cases message)
    as [Hc|[[Hn Hc]|[(Hn1 & Hn2 & Hc)|[(i & ty & ar & Hs & Hi)|(Hn1 & Hn2 & Hn3 & Hf)]]]].
  - destruct (Message.requestId message) as [rid'|] eqn:Hr.
    + rewrite (handle_rpc _ _ _ Hc Hr). cbn. apply emit_rpc_other; [done|].
      intros ->. by destruct Hnm.
    + unfold _handleSocketMessage. rewrite Hc, Hr. by rewrite bool_decide_eq_true_2.
  - destruct (Message.event message) as [ev|] eqn:He.
    + rewrite (handle_event _ _ _ Hn Hc He). cbn. by rewrite emit_no_settle.
    + unfold _handleSocketMessage. rewrite He.
      rewrite bool_decide_eq_false_2 by done. by rewrite bool_decide_eq_true_2.
  - destruct (Message.requestId message) as [rid'|] eqn:Hr.
    + rewrite (handle_sf3 _ _ _ Hn1 Hn2 Hc Hr). cbn. by rewrite emit_no_settle.
    + unfold _handleSocketMessage. rewrite Hr.
      rewrite !bool_decide_eq_false_2 by done. by rewrite bool_decide_eq_true_2.
  - destruct (_eventEmitters st !! i) as [a|] eqn:El.
    + rewrite (handle_stream_known _ _ _ _ _ _ Hs Hi El). cbn zeta.
      pose proof (emit_no_settle (Stream a) (key_of ty) (spread ar) st Hwf
                    (ltac:(done))) as E1.
      pose proof (emit_wf (Stream a) (key_of ty) (spread ar) st Hwf) as Hwf1.
      destruct (emit (Stream a) (key_of ty) (spread ar) st) as [st1 f1 [b|e]];
        cbn in *; [|by rewrite E1].
      by rewrite generic_emit_no_settle, E1.
    + by rewrite (handle_stream_unknown _ _ _ _ _ Hs Hi El).
  - rewrite (handle_generic _ _ Hn1 Hn2 Hn3 Hf). cbn. by rewrite generic_emit_no_settle.
Qed.

Lemma timer_fires_other rid rid' st :
  rid' <> rid ->
  rpc_promises (post (timer_fires rid' st)) !! rid = rpc_promises st !! rid.
Proof.
  intros Hne. unfold timer_fires. js_unfold. cbn.
  destruct (timers st !! rid'); cbn; [|done].
  rewrite settle_rpc_lookup, decide_False by congruence. done.
Qed.

(** Only its timer and a response to it settle a call. *)
Lemma pending_stays rid e st :
  wf st -> rpc_promises st !! rid = Some Pending ->
  e <> TimerFires rid ->
  (forall message, e = SocketMessage message ->
     ~ (Message.channel message = Some SERVICE_FRAMEWORK_RPC_CHANNEL /\
        Message.requestId message = Some rid)) ->
  rpc_promises (post (step e st)) !! rid = Some Pending.
Proof.
  intros Hwf Hp Ht Hm.
  assert (rid < _rpcRequestId st) as Hlt by (by eapply wf_promises; [apply Hwf|]).
  assert ((forall k, step_kind e k -> k <> KEmit /\ forall r, k <> KTimer r) ->
          rpc_promises (post (step e st)) !! rid = Some Pending) as Hquiet.
  { intros Hk. destruct (quiet_step rid e st Hk Hlt) as [_ ->]. done. }
  destruct e;
    try (apply Hquiet; intros kd Hk; cbn in Hk;
         try destruct Hk as [Hk|Hk]; subst kd; (split; [done|intros ?; done])).
  - cbn [step]. rewrite handle_other_message; [done..|]. by apply Hm.
  - cbn [step]. rewrite timer_fires_other; [done|]. congruence.
Qed.

(** The state a pending call is in. *)
Lemma pending_call st rid :
  wf st -> rpc_promises st !! rid = Some Pending ->
  _serviceFrameworkRpcEmitter st !! pretty rid = Some [rpc_listener rid] /\
  is_Some (timers st !! rid) /\ rid < _rpcRequestId st.
Proof.
  intros Hwf Hp. pose proof (wf_pending _ (wf_c _ Hwf) _ Hp) as E.
  destruct (wf_rpc _ (wf_c _ Hwf) _ _ E) as (r & Hr%(inj pretty) & _ & ? & ?).
  by subst r.
Qed.

(** What a response does to a pending call. *)
Lemma response_settles st rid message :
  _serviceFrameworkRpcEmitter st !! pretty rid = Some [rpc_listener rid] ->
  rpc_promises st !! rid = Some Pending ->
  Message.channel message = Some SERVICE_FRAMEWORK_RPC_CHANNEL ->
  Message.requestId message = Some rid ->
  val (_handleSocketMessage message st) = Ok tt /\
  pstate (PRpc rid) (post (_handleSocketMessage message st)) = Some (response_outcome message).
Proof.
  intros E Hp Hc Hr. rewrite (handle_rpc _ _ _ Hc Hr). cbn zeta.
  rewrite (emit_some ServiceFrameworkRpcEmitter _ _ _ _ E). cbn [val post pstate].
  split; [done|]. rewrite (emit_rpc_listener _ _ _ E).
  rewrite settle_rpc_lookup, decide_True by done. cbn. by rewrite Hp.
Qed.

(** What its timer does to a pending call. *)
Lemma timeout_settles st rid tm :
  timers st !! rid = Some tm ->
  rpc_promises st !! rid = Some Pending ->
  pstate (PRpc rid) (post (timer_fires rid st)) = Some (Rejected (JStr (timeout_message tm))).
Proof.
  intros Et Hp. unfold timer_fires. js_unfold. cbn. rewrite Et. cbn.
  rewrite settle_rpc_lookup, decide_True by done. cbn. by rewrite Hp.
Qed.

Lemma timer_fires_val rid st : val (timer_fires rid st) = Ok tt.
Proof. unfold timer_fires. js_unfold. cbn. by destruct (timers st !! rid). Qed.

Lemma call_open st sock s m a o t :
  socket st = Some sock ->
  let rid := _rpcRequestId st in
  let tm := mkTimer (default SERVICE_FRAMEWORK_RPC_TIMEOUT_MS t) s m in
  callServiceFrameworkMethod s m a o t st =
    mkOut (set_timers (<[rid := tm]> (timers st))
             (set__serviceFrameworkRpcEmitter
                (EventEmitter.once (pretty rid) (CbSettle rid) (_serviceFrameworkRpcEmitter st))
                (set_rpc_promises (<[rid := Pending]> (rpc_promises st))
                   (set__rpcRequestId (rid + 1) st))))
          [ERequestId rid; ESend (Request.mk s m a o rid)]
          (Ok (PRpc rid)).
Proof. intros Hs. unfold callServiceFrameworkMethod. js_unfold. cbn. by rewrite Hs. Qed.

Lemma bind_ret_post {A} (m : M A) st : post ((m ;; mret tt) st) = post (m st).
Proof. js_unfold. cbn. by destruct (m st) as [st1 f1 [a|e]]. Qed.

Lemma bind_ret_fx {A} (m : M A) st : fx ((m ;; mret tt) st) = fx (m st).
Proof. js_unfold. cbn. destruct (m st) as [st1 f1 [a|e]]; cbn; by rewrite ?app_nil_r. Qed.

(** C1.  A call made through [callServiceFrameworkMethod] on an open
    connection returns a pending promise.  While it is pending, a response
    with its request id settles it with the outcome of the response (rejected
    with [error] when that is truthy, resolved with [result] otherwise), its
    timer rejects it with the timeout message naming the duration and the
    service and method, and nothing else settles it.  Once it is settled no
    turn of the event loop changes it again, a response with its request id
    changes nothing at all and raises nothing, and neither does its timer
    raise. *)
Theorem call_settles_exactly_once (st : State) (sock : NuclideSocket)
    (serviceName methodName : string) (methodArgs : list JsVal) (serviceOptions : JsVal)
    (timeout : option Z) (es : list Step) :
  reachable st -> socket st = Some sock ->
  let rid := _rpcRequestId st in
  let o := callServiceFrameworkMethod serviceName methodName methodArgs serviceOptions
             timeout st in
  let st' := run es (post o) in
  let matching message :=
    Message.channel message = Some SERVICE_FRAMEWORK_RPC_CHANNEL /\
    Message.requestId message = Some rid in
  val o = Ok (PRpc rid) /\
  pstate (PRpc rid) (post o) = Some Pending /\
  (pstate (PRpc rid) st' = Some Pending ->
     (forall message, matching message ->
        val (_handleSocketMessage message st') = Ok tt /\
        pstate (PRpc rid) (post (_handleSocketMessage message st')) =
          Some (response_outcome message)) /\
     (val (timer_fires rid st') = Ok tt /\
      pstate (PRpc rid) (post (timer_fires rid st')) =
        Some (Rejected (JStr ("Timeout after "
                +:+ pretty (default SERVICE_FRAMEWORK_RPC_TIMEOUT_MS timeout)
                +:+ " for " +:+ serviceName +:+ "/" +:+ methodName)))) /\
     (forall e, pstate (PRpc rid) (post (step e st')) <> Some Pending ->
        e = TimerFires rid \/ exists message, e = SocketMessage message /\ matching message)) /\
  (forall s, pstate (PRpc rid) st' = Some s -> s <> Pending ->
     (forall e, pstate (PRpc rid) (post (step e st')) = Some s) /\
     (forall message, matching message ->
        _handleSocketMessage message st' =
          mkOut st' [EEmit ServiceFrameworkRpcEmitter (pretty rid)
                       [Message.error message; Message.result message]] (Ok tt)) /\
     val (timer_fires rid st') = Ok tt).
Proof.
  intros Hreach Hs rid o st0 matching.
  pose proof (reachable_wf _ Hreach) as Hwf.
  assert (reachable (post o)) as Hreach1.
  { unfold o. rewrite <-bind_ret_post.
    by apply (reachable_step st (CallServiceFrameworkMethod serviceName methodName
                                   methodArgs serviceOptions timeout)). }
  assert (wf st0) as Hwf' by (apply reachable_wf, reachable_run, Hreach1).
  subst o st0. rewrite (call_open _ _ _ _ _ _ _ Hs) in *. cbn zeta in *.
  cbn [post val] in *.
  set (tm := mkTimer _ _ _) in *. set (st1 := set_timers _ _) in *.
  set (st' := run es st1) in *.
  assert (timers st1 !! rid = Some tm) as Et1 by apply lookup_insert_eq.
  assert (rid < _rpcRequestId st1) as Hlt1 by (cbn; lia).
  destruct (frozen_rel_run es st1) as (Hc' & Ht' & Hp'). fold st' in Hc', Ht', Hp'.
  clearbody st'.
  split; [done|]. split; [apply lookup_insert_eq|]. split.
  - intros Hp. cbn [pstate] in Hp.
    destruct (pending_call _ _ Hwf' Hp) as (El & [tm' Et'] & Hlt').
    assert (tm' = tm) as ->.
    { destruct (Ht' rid Hlt1) as [E|E]; rewrite E in Et'; congruence. }
    split; [|split].
    + intros message [Hch Hr]. by apply response_settles.
    + split; [apply timer_fires_val|]. by rewrite (timeout_settles _ _ _ Et' Hp).
    + intros e Hne. cbn [pstate] in Hne.
      destruct e as [| | | | | | | | |message|requestId| |];
        try (destruct Hne; apply pending_stays; done).
      * right. exists message. split; [done|].
        destruct (decide (Message.channel message = Some SERVICE_FRAMEWORK_RPC_CHANNEL))
          as [Hch|Hch];
          [destruct (decide (Message.requestId message = Some rid)) as [Hr|Hr]; [done|]|];
          destruct Hne; apply pending_stays; try done;
          intros m [= <-] [??]; done.
      * destruct (decide (requestId = rid)) as [->|Hnr]; [by left|].
        destruct Hne. apply pending_stays; try done. congruence.
  - intros s Hp Hs'. cbn [pstate] in Hp. split; [|split].
    + intros e. cbn [pstate].
      destruct (frozen_rel_step e st') as (_ & _ & Hfr). apply Hfr; [|done..].
      by eapply wf_promises; [apply Hwf'|].
    + intros message [Hch Hr].
      destruct (rpc_response_without_pending st' message rid Hch Hr) as (E1 & E2 & E3).
      * unfold pending_request, EventEmitter.listeners.
        destruct (_serviceFrameworkRpcEmitter st' !! pretty rid) as [ls|] eqn:El; [|tauto].
        pose proof (wf_listening _ (wf_c _ Hwf') _ _ El). congruence.
      * destruct (_handleSocketMessage message st') as [st2 f2 v2]. cbn in *. congruence.
    + apply timer_fires_val.
Qed.

(** ** Stream emitters *)



Lemma store_listeners name ls em name' :
  EventEmitter.listeners name' (EventEmitter.store name ls em) =
    if decide (name = name') then ls else EventEmitter.listeners name' em.
Proof.
  unfold EventEmitter.listeners. rewrite store_lookup.
  case_decide; [|done]. by destruct ls.
Qed.







(** *** Operations that leave the table alone *)

Lemma attaches_rel_compositional : Compositional attaches_rel.
Proof.
  split.
  - intros st. split_and!; [done..|]. intros a name. exists []. by rewrite app_nil_r.
  - intros st f1 st1 f2 st2 (N1 & T1 & L1) (N2 & T2 & L2).
    split_and!; [congruence..|]. intros a name.
    destruct (L1 a name) as (us1 & U1 & E1). destruct (L2 a name) as (us2 & U2 & E2).
    exists (us1 ++ us2). split; [by apply Forall_app|]. by rewrite E2, E1, app_assoc.
Qed.

Lemma attaches_rel_same st f st' :
  next_emitter st' = next_emitter st ->
  _eventEmitters st' = _eventEmitters st ->
  streams st' = streams st ->
  attaches_rel st f st'.
Proof.
  intros N T S. split_and!; [done..|]. intros a name. exists [].
  cbn. by rewrite S, app_nil_r.
Qed.

Ltac attaches_same :=
  apply attaches_rel_same;
  autorewrite with frame; cbn; autorewrite with frame; reflexivity.

Lemma attaches_rel_add r name h o st f :
  attaches_rel st f
    (update_emitter r (EventEmitter.addListener name (mkListener (CbUser h) o)) st).
Proof.
  split_and!; [by autorewrite with frame..|]. intros a name'.
  rewrite get_update_emitter. case_decide as Er; [subst r|exists []; by rewrite app_nil_r].
  unfold EventEmitter.listeners at 1. rewrite addListener_lookup.
  case_decide; [subst name'|exists []; by rewrite app_nil_r].
  eexists [_]. split; [|reflexivity]. constructor; [|done]. by exists h.
Qed.

Lemma attaches_rel_elementary k A (m : M A) :
  elementary k m -> k <> KEmit -> (forall i, k <> KRegister i) -> sat attaches_rel m.
Proof.
  intros Hel Hk1 Hk2. destruct Hel; intros st.
  - unfold callServiceFrameworkMethod. js_unfold. cbn.
    destruct (socket st); cbn; attaches_same.
  - unfold callMethod. js_unfold. cbn. destruct (socket st); cbn.
    + destruct (serializeArgs _). cbn. attaches_same.
    + attaches_same.
  - unfold _callSubscribe. js_unfold. cbn. destruct (socket st); cbn; attaches_same.
  - unfold timer_fires. js_unfold. cbn. destruct (timers st !! requestId); cbn; attaches_same.
  - done.
  - unfold dispose. js_unfold. cbn.
    destruct (disposables st !! d) as [D|]; cbn; [|attaches_same].
    destruct (disposed D); cbn; attaches_same.
  - unfold close. js_unfold. cbn. destruct (socket st); cbn; attaches_same.
  - cbn. attaches_same.
  - unfold attach_listener. js_unfold. cbn.
    destruct r; cbn;
      [apply (attaches_rel_add Eventbus)|apply (attaches_rel_add ServiceFrameworkEventEmitter)
      |attaches_same|apply (attaches_rel_add ServiceFramework3Emitter)|].
    case_bool_decide; cbn; [apply (attaches_rel_add (Stream a))|attaches_same].
  - by destruct (Hk2 i).
  - cbn. attaches_same.
  - cbn. attaches_same.
  - cbn. attaches_same.
  - cbn. attaches_same.
  - cbn. attaches_same.
  - cbn. apply (attaches_rel_add ServiceFrameworkEventEmitter name h false).
  - cbn. attaches_same.
Qed.

Ltac by_attaches lem :=
  apply lem; eapply attaches_rel_elementary; [by constructor|done|done].

(** *** The entry of an id *)



Lemma register_emitter_table i ds st :
  _eventEmitters (post (register_emitter i ds st)) = <[i := next_emitter st]> (_eventEmitters st).
Proof. rewrite register_emitter_spec. cbn [post]. by rewrite install_disposers__eventEmitters. Qed.

Lemma register_emitter_next i ds st :
  next_emitter (post (register_emitter i ds st)) = S (next_emitter st).
Proof. rewrite register_emitter_spec. cbn [post]. by rewrite install_disposers_next_emitter. Qed.




(** *** An id that is not in the table *)



Lemma emit_table r name args st i a :
  _eventEmitters (post (emit r name args st)) !! i = Some a -> _eventEmitters st !! i = Some a.
Proof.
  destruct (emit_cases r name args st) as [(ls & E & ->)|(_ & v & ->)]; cbn; [|done].
  apply listeners_effect_table.
Qed.




(** *** An emitter that left the table *)

Lemma detached_rel_compositional a : Compositional (detached_rel a).
Proof. split; unfold detached_rel; auto. Qed.

Lemma attaches_detached a (A : Type) (m : M A) : sat attaches_rel m -> sat (detached_rel a) m.
Proof.
  intros Hm st. destruct (Hm st) as (N & T & _). unfold detached_rel, detached.
  by rewrite N, T.
Qed.

(** An emitter that left the table does not come back. *)
Lemma detached_rel_elementary a k A (m : M A) : elementary k m -> sat (detached_rel a) m.
Proof.
  intros Hel. destruct Hel; try by_attaches (attaches_detached a).
  - intros st [Hlt Hn]. split.
    + destruct (emit_cases r name args st) as [(ls & E & ->)|(_ & v & ->)]; cbn; [|done].
      by autorewrite with frame.
    + intros i' E. apply emit_table in E. by apply (Hn i').
  - intros st [Hlt Hn]. split.
    + rewrite register_emitter_next. lia.
    + intros i'. rewrite register_emitter_table, lookup_insert. case_decide.
      * intros [= <-]. lia.
      * apply Hn.
Qed.


(** *** The emitter of one [consumeEventEmitter] *)


























(** ** Subscriptions *)

Lemma same_subscription_refl D : same_subscription D D.
Proof. by split_and!. Qed.

Lemma same_subscription_trans D1 D2 D3 :
  same_subscription D1 D2 -> same_subscription D2 D3 -> same_subscription D1 D3.
Proof.
  intros (A1 & A2 & A3 & A4 & A5 & A6 & A7) (B1 & B2 & B3 & B4 & B5 & B6 & B7).
  split_and!; try congruence. auto.
Qed.

Lemma disposables_rel_compositional : Compositional disposables_rel.
Proof.
  split.
  - intros st d D E. exists D. split; [done|apply same_subscription_refl].
  - intros st f1 st1 f2 st2 H1 H2 d D E.
    destruct (H1 d D E) as (D1 & E1 & S1). destruct (H2 d D1 E1) as (D2 & E2 & S2).
    exists D2. split; [done|]. by eapply same_subscription_trans.
Qed.

Lemma disposables_rel_same st f st' :
  disposables st' = disposables st -> disposables_rel st f st'.
Proof. intros E d D Hd. exists D. rewrite E. split; [done|apply same_subscription_refl]. Qed.

Ltac disposables_same :=
  apply disposables_rel_same; autorewrite with frame; cbn; autorewrite with frame; reflexivity.

Lemma emit_disposables r name args st :
  disposables (post (emit r name args st)) = disposables st.
Proof.
  destruct (emit_cases r name args st) as [(ls & E & ->)|(_ & v & ->)]; cbn; [|done].
  by autorewrite with frame.
Qed.

Lemma disposables_rel_elementary k A (m : M A) : elementary k m -> sat disposables_rel m.
Proof.
  intros Hel. destruct Hel; intros st.
  - unfold callServiceFrameworkMethod. js_unfold. cbn.
    destruct (socket st); cbn; disposables_same.
  - unfold callMethod. js_unfold. cbn. destruct (socket st); cbn.
    + destruct (serializeArgs _). cbn. disposables_same.
    + disposables_same.
  - unfold _callSubscribe. js_unfold. cbn. destruct (socket st); cbn; disposables_same.
  - unfold timer_fires. js_unfold. cbn.
    destruct (timers st !! requestId); cbn; disposables_same.
  - apply disposables_rel_same, emit_disposables.
  - unfold dispose. js_unfold. cbn.
    destruct (disposables st !! d) as [D|] eqn:Ed; cbn; [|disposables_same].
    destruct (disposed D) eqn:Edd; cbn; [disposables_same|].
    intros d' D' E'. cbn. destruct (decide (d' = d)) as [->|Hne].
    + eexists. split; [apply list_lookup_insert_eq; by eapply lookup_lt_Some|].
      assert (D' = D) as -> by congruence. by split_and!.
    + exists D'. rewrite list_lookup_insert_ne by done.
      split; [done|apply same_subscription_refl].
  - unfold close. js_unfold. cbn. destruct (socket st); cbn; disposables_same.
  - cbn. disposables_same.
  - unfold attach_listener. js_unfold. cbn.
    destruct r; cbn; try disposables_same.
    case_bool_decide; cbn; disposables_same.
  - rewrite register_emitter_spec. cbn. disposables_same.
  - cbn. disposables_same.
  - cbn. disposables_same.
  - cbn. disposables_same.
  - cbn. disposables_same.
  - cbn. disposables_same.
  - cbn. disposables_same.
  - cbn. intros d D' E'. exists D'. cbn.
    split; [by apply lookup_app_l_Some|apply same_subscription_refl].
Qed.

Lemma disposables_run es st d D :
  disposables st !! d = Some D ->
  exists D', disposables (run es st) !! d = Some D' /\ same_subscription D D'.
Proof.
  revert st D. induction es as [|e es IH]; intros st D E; cbn.
  - exists D. split; [done|apply same_subscription_refl].
  - destruct (step_sat disposables_rel e disposables_rel_compositional
                (fun k A m _ => disposables_rel_elementary k A m) st d D E)
      as (D1 & E1 & S1).
    destruct (IH _ _ E1) as (D2 & E2 & S2). exists D2. split; [done|].
    by eapply same_subscription_trans.
Qed.

Lemma emit_sent r name args st : sent (fx (emit r name args st)) = [].
Proof. destruct (emit_fx_head r name args st) as (rest & -> & _ & _ & Hs & _). exact Hs. Qed.

Lemma sent_app l1 l2 : sent (l1 ++ l2) = sent l1 ++ sent l2.
Proof. apply omap_app. Qed.

(** The router sends nothing. *)
Lemma handle_sent message st : sent (fx (_handleSocketMessage message st)) = [].
Proof.
  destruct (message_cases message)
    as [Hc|[[Hn Hc]|[(Hn1 & Hn2 & Hc)|[(i & ty & ar & Hs & Hi)|(Hn1 & Hn2 & Hn3 & Hf)]]]].
  - destruct (Message.requestId message) as [rid'|] eqn:Hr.
    + rewrite (handle_rpc _ _ _ Hc Hr). cbn. apply emit_sent.
    + unfold _handleSocketMessage. rewrite Hc, Hr. by rewrite bool_decide_eq_true_2.
  - destruct (Message.event message) as [ev|] eqn:He.
    + rewrite (handle_event _ _ _ Hn Hc He). cbn. apply emit_sent.
    + unfold _handleSocketMessage. rewrite He.
      rewrite bool_decide_eq_false_2 by done. by rewrite bool_decide_eq_true_2.
  - destruct (Message.requestId message) as [rid'|] eqn:Hr.
    + rewrite (handle_sf3 _ _ _ Hn1 Hn2 Hc Hr). cbn. apply emit_sent.
    + unfold _handleSocketMessage. rewrite Hr.
      rewrite !bool_decide_eq_false_2 by done. by rewrite bool_decide_eq_true_2.
  - destruct (_eventEmitters st !! i) as [a|] eqn:El.
    + rewrite (handle_stream_known _ _ _ _ _ _ Hs Hi El). cbn zeta.
      pose proof (emit_sent (Stream a) (key_of ty) (spread ar) st) as E1.
      destruct (emit (Stream a) (key_of ty) (spread ar) st) as [st1 f1 [b|e]];
        cbn [fx post val] in *; [|done].
      rewrite sent_app, E1. apply emit_sent.
    + by rewrite (handle_stream_unknown _ _ _ _ _ Hs Hi El).
  - rewrite (handle_generic _ _ Hn1 Hn2 Hn3 Hf). cbn. apply emit_sent.
Qed.

Lemma consume_sent i ns ds st : sent (fx (consumeEventEmitter i ns ds st)) = [].
Proof.
  rewrite consumeEventEmitter_register. js_unfold. cbn.
  rewrite register_emitter_spec. cbn.
  unfold _callSubscribe. js_unfold. cbn. autorewrite with frame. cbn.
  by destruct (socket st).
Qed.

(** [registerEventListener] on an open connection. *)
Lemma registerEventListener_open st sock localEventName callback serviceOptions :
  socket st = Some sock ->
  let serviceName := nth 0 (split_slash localEventName) EmptyString in
  let eventMethodName := str_val (split_slash localEventName !! 1%nat) in
  let remoteEventName := getRemoteEventName serviceName eventMethodName serviceOptions in
  let rid := _rpcRequestId st in
  exists st',
    registerEventListener localEventName callback serviceOptions st =
      mkOut st'
        [ERequestId rid;
         ESend (Request.mk "serviceFramework" "subscribeEvent"
                  [id sock; JStr serviceName; eventMethodName] serviceOptions rid)]
        (Ok (length (disposables st))) /\
    disposables st' =
      disposables st ++
        [mkDisposable false remoteEventName callback (PRpc rid)
                      serviceName eventMethodName serviceOptions] /\
    pstate (PRpc rid) st' = Some Pending /\
    serviceFrameworkEventEmitter st' =
      EventEmitter.on remoteEventName (CbUser callback) (serviceFrameworkEventEmitter st).
Proof.
  intros Hs. cbn zeta.
  unfold registerEventListener, _subscribeEventOnServer, callServiceFrameworkMethod.
  js_unfold. cbn. rewrite Hs. cbn. rewrite Hs. cbn.
  eexists. split; [reflexivity|]. cbn. split_and!; [done| |done].
  by rewrite lookup_insert_eq.
Qed.

Lemma registerEventListener_closed st localEventName callback serviceOptions :
  socket st = None ->
  fx (registerEventListener localEventName callback serviceOptions st) = [].
Proof.
  intros Hs. unfold registerEventListener, _subscribeEventOnServer. js_unfold. cbn.
  by rewrite Hs.
Qed.

(** An unsubscribe request is sent by a call from outside that asks for it,
    or by the job of a disposal once the subscribe call is resolved. *)
Lemma unsubscribe_sent st e r :
  wf st -> r ∈ sent (fx (step e st)) -> unsubscribe_request r -> sends_unsubscribe st e.
Proof.
  intros Hwf. destruct e; cbn [step]; rewrite ?bind_ret_fx.
  - unfold callServiceFrameworkMethod. js_unfold. cbn.
    destruct (socket st); cbn; [|by intros ?%elem_of_nil].
    intros ->%list_elem_of_singleton Hu. unfold unsubscribe_request in Hu. cbn in Hu.
    subst methodName. left. eauto.
  - unfold callMethod. js_unfold. cbn. destruct (socket st); cbn.
    + destruct (serializeArgs _). cbn. by intros ?%elem_of_nil.
    + by intros ?%elem_of_nil.
  - destruct (socket st) as [sock|] eqn:Hs.
    + destruct (registerEventListener_open st sock localEventName callback serviceOptions Hs)
        as (st' & -> & _).
      cbn. by intros ->%list_elem_of_singleton Hu.
    + rewrite registerEventListener_closed by done. by intros ?%elem_of_nil.
  - unfold dispose. js_unfold. cbn.
    destruct (disposables st !! d) as [D|]; cbn; [|by intros ?%elem_of_nil].
    destruct (disposed D); cbn; by intros ?%elem_of_nil.
  - rewrite consume_sent. by intros ?%elem_of_nil.
  - unfold consumeStream. rewrite consume_sent. by intros ?%elem_of_nil.
  - unfold close. js_unfold. cbn. destruct (socket st); cbn; by intros ?%elem_of_nil.
  - cbn. by intros ?%elem_of_nil.
  - unfold attach_listener. js_unfold. cbn.
    destruct r0; cbn; try (by intros ?%elem_of_nil).
    case_bool_decide; cbn; by intros ?%elem_of_nil.
  - rewrite handle_sent. by intros ?%elem_of_nil.
  - unfold timer_fires. js_unfold. cbn.
    destruct (timers st !! requestId); cbn; by intros ?%elem_of_nil.
  - unfold reaction_runs. js_unfold. cbn.
    destruct (reactions st !! k) as [[p fr]|] eqn:Ek; cbn; [|by intros ?%elem_of_nil].
    destruct (pstate p st) as [[|v|err]|] eqn:Ep; cbn; try (by intros ?%elem_of_nil).
    + destruct fr; cbn [resume];
        unfold callMethod, _unsubscribeEventFromServer, callServiceFrameworkMethod;
        js_unfold; cbn; try (by intros ?%elem_of_nil).
      * destruct (socket st) eqn:Hs; cbn; rewrite ?Hs; cbn; [|by intros ?%elem_of_nil].
        destruct (serializeArgs _). cbn. by intros ?%elem_of_nil.
      * destruct (Hwf.(wf_u st) k _ _ _ _ _ Ek eq_refl)
          as (d & D & Ed & Edd & Ea & -> & -> & ->). cbn in Ea. subst p.
        intros _ _. right. by exists k, t, d, D, v.
    + destruct fr; cbn [resume]; js_unfold; cbn; by intros ?%elem_of_nil.
  - cbn. by intros ?%elem_of_nil.
Qed.

(** Disposal of a subscription that is not disposed yet. *)
Lemma dispose_live st d D :
  disposables st !! d = Some D -> disposed D = false ->
  exists st',
    dispose d st = mkOut st' [] (Ok tt) /\
    serviceFrameworkEventEmitter st' =
      EventEmitter.removeListener (d_remoteEventName D) (CbUser (d_callback D))
        (serviceFrameworkEventEmitter st) /\
    reactions st' =
      reactions st ++
        [mkReaction (d_subscribePromise D)
           (FUnsubscribe (length (async_promises st)) (d_serviceName D)
              (d_eventMethodName D) (d_serviceOptions D))].
Proof.
  intros Ed Edd. unfold dispose. js_unfold. cbn. rewrite Ed. cbn. rewrite Edd. cbn.
  eexists. split; [reflexivity|]. by cbn.
Qed.

(** The job of a disposal: it waits while the subscribe call is pending,
    sends the unsubscribe request when the call is resolved, and sends
    nothing when the call is rejected. *)
Lemma unsubscribe_job st k p t serviceName eventMethodName serviceOptions :
  reactions st !! k =
    Some (mkReaction p (FUnsubscribe t serviceName eventMethodName serviceOptions)) ->
  match pstate p st with
  | Some (Resolved _) =>
      forall sock, socket st = Some sock ->
        sent (fx (reaction_runs k st)) =
          [Request.mk "serviceFramework" "unsubscribeEvent"
             [id sock; JStr serviceName; eventMethodName] serviceOptions (_rpcRequestId st)]
  | Some (Rejected _) => sent (fx (reaction_runs k st)) = []
  | _ => reaction_runs k st = mkOut st [] (Ok tt)
  end.
Proof.
  intros Ek. unfold reaction_runs. js_unfold. cbn. rewrite Ek. cbn.
  destruct (pstate p st) as [[|v|err]|]; cbn; try done.
  intros sock Hs. unfold _unsubscribeEventFromServer, callServiceFrameworkMethod.
  js_unfold. cbn. rewrite Hs. cbn. rewrite Hs. by cbn.
Qed.

Lemma last_index_app_last (p : Listener -> bool) ls l :
  p l = true -> EventEmitter.last_index p (ls ++ [l]) = Some (length ls).
Proof.
  intros Hp. induction ls as [|x ls IH]; cbn; [by rewrite Hp|]. by rewrite IH.
Qed.

Lemma delete_app_last {A} (l : list A) (x : A) : delete (length l) (l ++ [x]) = l.
Proof. induction l as [|y l IH]; cbn; [done|]. f_equal. exact IH. Qed.

Lemma removeListener_on name cb em name' :
  EventEmitter.listeners name'
    (EventEmitter.removeListener name cb (EventEmitter.on name cb em)) =
  EventEmitter.listeners name' em.
Proof.
  unfold EventEmitter.removeListener, EventEmitter.on.
  rewrite addListener_lookup, decide_True by done.
  rewrite last_index_app_last by (by apply bool_decide_eq_true_2).
  rewrite store_listeners.
  rewrite delete_app_last.
  case_decide; [by subst|].
  unfold EventEmitter.listeners. rewrite addListener_lookup. by rewrite decide_False.
Qed.

Lemma last_index_none (p : Listener -> bool) ls :
  (forall x, x ∈ ls -> p x = false) -> EventEmitter.last_index p ls = None.
Proof.
  induction ls as [|x ls IH]; intros Hn; [done|]. cbn.
  rewrite IH by (intros y Hy; apply Hn; by right).
  by rewrite (Hn x) by (by left).
Qed.

Lemma last_index_split (p : Listener -> bool) l1 l l2 :
  p l = true -> (forall x, x ∈ l2 -> p x = false) ->
  EventEmitter.last_index p (l1 ++ l :: l2) = Some (length l1).
Proof.
  intros Hp Hn. induction l1 as [|y l1 IH]; cbn.
  - by rewrite (last_index_none p l2 Hn), Hp.
  - by rewrite IH.
Qed.

Lemma delete_split {A} (l1 : list A) (x : A) (l2 : list A) :
  delete (length l1) (l1 ++ x :: l2) = l1 ++ l2.
Proof. induction l1 as [|y l1 IH]; cbn; [done|]. f_equal. exact IH. Qed.

(** [removeListener] takes off the most recently added listener whose
    function is [cb], and nothing else. *)
Lemma removeListener_split name cb em l1 l l2 :
  EventEmitter.listeners name em = l1 ++ l :: l2 ->
  fn l = cb -> (forall x, x ∈ l2 -> fn x <> cb) ->
  EventEmitter.listeners name (EventEmitter.removeListener name cb em) = l1 ++ l2.
Proof.
  intros E Hl Hn. unfold EventEmitter.removeListener.
  unfold EventEmitter.listeners in E.
  destruct (em !! name) as [ls|] eqn:El; cbn in E; [subst ls|by destruct l1].
  rewrite last_index_split.
  - rewrite store_listeners, decide_True by done. apply delete_split.
  - by apply bool_decide_eq_true_2.
  - intros x Hx. apply bool_decide_eq_false_2. by apply Hn.
Qed.

Lemma removeListener_absent name cb em :
  (forall x, x ∈ EventEmitter.listeners name em -> fn x <> cb) ->
  EventEmitter.removeListener name cb em = em.
Proof.
  intros Hn. unfold EventEmitter.removeListener.
  unfold EventEmitter.listeners in Hn.
  destruct (em !! name) as [ls|] eqn:El; cbn in Hn; [|done].
  rewrite last_index_none; [done|].
  intros x Hx. apply bool_decide_eq_false_2. by apply Hn.
Qed.

Lemma on_listeners name cb em :
  EventEmitter.listeners name (EventEmitter.on name cb em) =
    EventEmitter.listeners name em ++ [mkListener cb false].
Proof.
  unfold EventEmitter.on. unfold EventEmitter.listeners at 1.
  by rewrite addListener_lookup, decide_True.
Qed.

(** C6.  [registerEventListener] on an open connection puts the callback on
    the event emitter, last under the remote event name, sends the subscribe
    request and returns a disposable that keeps the promise of that call.
    Disposing it takes the callback off the event emitter at once: the most
    recently added listener under the remote event name whose function is
    the callback is gone, every other listener under that name stays in its
    place, and when there is none the emitter is left as it is; disposed
    right after the subscription, the listeners under the name are those
    from before the subscription.  The disposal sends nothing and leaves a
    job that waits for the promise of the subscribe call.  In every later
    state an unsubscribe request is sent only by a call from outside that
    names the method itself or by the job of a disposal whose subscribe call
    is resolved; the job does nothing while that call is pending.  (Where a
    list of listeners is given exactly, the remote event name is not one of
    the meta event names [newListener] and [removeListener], under which
    Node's emitter calls listeners on its own account.) *)
Theorem unsubscribe_after_subscribe (st : State) (sock : NuclideSocket)
    (localEventName : string) (callback : nat) (serviceOptions : JsVal) (es : list Step) :
  reachable st ->
  socket st = Some sock ->
  let serviceName := nth 0 (split_slash localEventName) EmptyString in
  let eventMethodName := str_val (split_slash localEventName !! 1%nat) in
  let remoteEventName := getRemoteEventName serviceName eventMethodName serviceOptions in
  let subscribePromise := PRpc (_rpcRequestId st) in
  let o := registerEventListener localEventName callback serviceOptions st in
  let d := length (disposables st) in
  let st1 := run es (post o) in
  let registered (s : State) :=
    EventEmitter.listeners remoteEventName (serviceFrameworkEventEmitter s) in
  val o = Ok d /\
  sent (fx o) =
    [Request.mk "serviceFramework" "subscribeEvent"
       [id sock; JStr serviceName; eventMethodName] serviceOptions (_rpcRequestId st)] /\
  pstate subscribePromise (post o) = Some Pending /\
  (exists D,
     disposables st1 !! d = Some D /\
     same_subscription
       (mkDisposable false remoteEventName callback subscribePromise
                     serviceName eventMethodName serviceOptions) D /\
     (disposed D = false ->
      let o' := dispose d st1 in
      val o' = Ok tt /\ fx o' = [] /\
      serviceFrameworkEventEmitter (post o') =
        EventEmitter.removeListener remoteEventName (CbUser callback)
          (serviceFrameworkEventEmitter st1) /\
      reactions (post o') =
        reactions st1 ++
          [mkReaction subscribePromise
             (FUnsubscribe (length (async_promises st1)) serviceName eventMethodName
                serviceOptions)] /\
      (remoteEventName <> "removeListener"%string ->
       forall l1 l l2,
         registered st1 = l1 ++ l :: l2 ->
         fn l = CbUser callback ->
         (forall x, x ∈ l2 -> fn x <> CbUser callback) ->
         registered (post o') = l1 ++ l2) /\
      ((forall x, x ∈ registered st1 -> fn x <> CbUser callback) ->
       serviceFrameworkEventEmitter (post o') = serviceFrameworkEventEmitter st1))) /\
  (forall e r,
     r ∈ sent (fx (step e st1)) -> unsubscribe_request r -> sends_unsubscribe st1 e) /\
  (forall k p t s m so,
     reactions st1 !! k = Some (mkReaction p (FUnsubscribe t s m so)) ->
     pstate p st1 = Some Pending ->
     reaction_runs k st1 = mkOut st1 [] (Ok tt)) /\
  (remoteEventName <> "newListener"%string ->
   registered (post o) = registered st ++ [mkListener (CbUser callback) false]) /\
  (remoteEventName <> "newListener"%string ->
   remoteEventName <> "removeListener"%string ->
   val (dispose d (post o)) = Ok tt /\
   registered (post (dispose d (post o))) = registered st).
Proof.
  intros Hre Hs. cbn zeta.
  destruct (registerEventListener_open st sock localEventName callback serviceOptions Hs)
    as (st' & Eo & Ed & Ep & Eem).
  assert (reachable (run es (post (registerEventListener localEventName callback
                                     serviceOptions st)))) as Hre1.
  { apply reachable_run. rewrite <-bind_ret_post.
    by apply (reachable_step _ (RegisterEventListener localEventName callback serviceOptions)). }
  rewrite Eo in *. cbn [post fx val] in *. split_and!; [done|done|done| | | | |].
  - destruct (disposables_run es st' (length (disposables st)) _
                (ltac:(rewrite Ed; by apply list_lookup_middle)))
      as (D & ED & HD).
    exists D. split; [done|]. split; [done|]. intros Hdd.
    destruct (dispose_live _ _ _ ED Hdd) as (st2 & -> & E1 & E2).
    destruct HD as (A1 & A2 & A3 & A4 & A5 & A6 & _). cbn in A1, A2, A3, A4, A5, A6.
    cbn [post fx val]. rewrite E1, E2, A1, A2, A3, A4, A5, A6.
    split_and!; [done..| |].
    + intros _ l1 l l2. apply removeListener_split.
    + apply removeListener_absent.
  - intros e r. apply unsubscribe_sent. by apply reachable_wf.
  - intros k p t s m so Ek Epd.
    pose proof (unsubscribe_job _ _ _ _ _ _ _ Ek) as Hj. by rewrite Epd in Hj.
  - intros _. rewrite Eem. apply on_listeners.
  - intros _ _.
    destruct (dispose_live st' (length (disposables st)) _
                (ltac:(rewrite Ed; by apply list_lookup_middle)) eq_refl)
      as (st2 & -> & E2 & _).
    cbn [post val]. split; [done|]. rewrite E2, Eem. cbn. apply removeListener_on.
Qed.

(** * More of the class *)

(** ** Calls and their listeners *)

Lemma listening_pending (st : State) (requestId : Z) :
  wf st ->
  (pstate (PRpc requestId) st = Some Pending <-> pending_request requestId st) /\
  (pending_request requestId st ->
     _serviceFrameworkRpcEmitter st !! pretty requestId = Some [rpc_listener requestId] /\
     is_Some (timers st !! requestId) /\ requestId < _rpcRequestId st).
Proof.
  intros Hwf.
  assert (pending_request requestId st -> pstate (PRpc requestId) st = Some Pending) as Hl.
  { unfold pending_request, EventEmitter.listeners.
    destruct (_serviceFrameworkRpcEmitter st !! pretty requestId) as [ls|] eqn:E; [|done].
    intros _. by apply (wf_listening _ (wf_c _ Hwf) _ _ E). }
  split; [split; [|done]|].
  - intros Hp. destruct (pending_call _ _ Hwf Hp) as (E & _).
    unfold pending_request, EventEmitter.listeners. by rewrite E.
  - intros Hp%Hl. by apply pending_call.
Qed.

(** X1.  In every reachable state a call is pending exactly when the RPC
    emitter has a listener under its request id; the listener is then the
    one one-shot listener of the call, the timer of the call is still set,
    and the id is one that was handed out.  So a call that is settled, by a
    response or by its timer, has left no listener behind. *)
Theorem pending_iff_listening (st : State) (requestId : Z) :
  reachable st ->
  (pstate (PRpc requestId) st = Some Pending <-> pending_request requestId st) /\
  (pending_request requestId st ->
     _serviceFrameworkRpcEmitter st !! pretty requestId = Some [rpc_listener requestId] /\
     is_Some (timers st !! requestId) /\ requestId < _rpcRequestId st).
Proof. intros Hre. by apply listening_pending, reachable_wf. Qed.

(** X2.  A response does not cancel the timer of its call: after the
    response has settled the call and taken its listener off, the timer is
    still set.  When it fires later it takes itself out of the timers and
    does nothing else: nothing is logged or sent, and the promise keeps the
    outcome of the response. *)
Theorem response_leaves_timer (st : State) (requestId : Z) (message : Message.t) :
  reachable st ->
  pstate (PRpc requestId) st = Some Pending ->
  Message.channel message = Some SERVICE_FRAMEWORK_RPC_CHANNEL ->
  Message.requestId message = Some requestId ->
  let st' := post (_handleSocketMessage message st) in
  ~ pending_request requestId st' /\
  timers st' !! requestId = timers st !! requestId /\
  is_Some (timers st' !! requestId) /\
  fx (timer_fires requestId st') = [] /\
  timers (post (timer_fires requestId st')) !! requestId = None /\
  pstate (PRpc requestId) (post (timer_fires requestId st')) =
    Some (response_outcome message).
Proof.
  intros Hre Hp Hc Hr st'.
  pose proof (reachable_wf _ Hre) as Hwf.
  destruct (pending_call _ _ Hwf Hp) as (E & [tm Et] & Hlt).
  destruct (response_settles _ _ _ E Hp Hc Hr) as [_ Hs]. fold st' in Hs.
  assert (reachable st') as Hre' by (by apply (reachable_step _ (SocketMessage message))).
  assert (timers st' !! requestId = timers st !! requestId) as Ht.
  { subst st'. rewrite (handle_rpc _ _ _ Hc Hr). cbn. by rewrite emit_timers. }
  split_and!.
  - intros Hpe%(proj2 (proj1 (listening_pending st' requestId (reachable_wf _ Hre')))).
    rewrite Hs in Hpe. injection Hpe. unfold response_outcome.
    by destruct (truthy _).
  - done.
  - rewrite Ht, Et. eauto.
  - unfold timer_fires. js_unfold. cbn. by destruct (timers st' !! requestId).
  - unfold timer_fires. js_unfold. cbn. rewrite Ht, Et. cbn.
    autorewrite with frame. cbn. apply lookup_delete_eq.
  - unfold timer_fires. js_unfold. cbn. rewrite Ht, Et. cbn.
    rewrite settle_rpc_lookup, decide_True by done. cbn [pstate] in Hs. cbn.
    rewrite Hs. unfold response_outcome. by destruct (truthy _).
Qed.
(** ** Requests and their ids *)

Lemma sends_rel_compositional : Compositional sends_rel.
Proof.
  split.
  - intros st. apply sublist_nil_l.
  - intros st f1 st1 f2 st2 H1 H2. unfold sends_rel in *.
    rewrite sent_app, request_ids_app, map_app. by apply sublist_app.
Qed.

Lemma sends_rel_none st f st' : sent f = [] -> sends_rel st f st'.
Proof. intros E. unfold sends_rel. rewrite E. apply sublist_nil_l. Qed.

Lemma sends_rel_elementary k A (m : M A) : elementary k m -> sat sends_rel m.
Proof.
  intros Hel. destruct Hel; intros st.
  - unfold callServiceFrameworkMethod. js_unfold. cbn.
    destruct (socket st); cbn; [|by apply sends_rel_none].
    unfold sends_rel. cbn. reflexivity.
  - unfold callMethod. js_unfold. cbn. destruct (socket st); cbn.
    + destruct (serializeArgs _). by apply sends_rel_none.
    + by apply sends_rel_none.
  - unfold _callSubscribe. js_unfold. cbn. destruct (socket st); by apply sends_rel_none.
  - unfold timer_fires. js_unfold. cbn.
    destruct (timers st !! requestId); by apply sends_rel_none.
  - apply sends_rel_none, emit_sent.
  - unfold dispose. js_unfold. cbn.
    destruct (disposables st !! d) as [D|]; cbn; [|by apply sends_rel_none].
    destruct (disposed D); by apply sends_rel_none.
  - unfold close. js_unfold. cbn. destruct (socket st); by apply sends_rel_none.
  - by apply sends_rel_none.
  - unfold attach_listener. js_unfold. cbn.
    destruct r; cbn; try (by apply sends_rel_none).
    case_bool_decide; by apply sends_rel_none.
  - rewrite register_emitter_spec. by apply sends_rel_none.
  - by apply sends_rel_none.
  - by apply sends_rel_none.
  - by apply sends_rel_none.
  - by apply sends_rel_none.
  - by apply sends_rel_none.
  - by apply sends_rel_none.
  - by apply sends_rel_none.
Qed.

Lemma sends_rel_run es st : sends_rel st (run_fx es st) (run es st).
Proof.
  apply run_sat; [apply sends_rel_compositional|].
  intros e. apply step_sat; [apply sends_rel_compositional|].
  intros k A m _. apply sends_rel_elementary.
Qed.

Lemma increasing_tail x l : increasing (x :: l) -> increasing l.
Proof. intros Hi i j a b Ei Ej Hij. apply (Hi (S i) (S j)); [done..|lia]. Qed.

Lemma increasing_sublist l1 l2 : l1 `sublist_of` l2 -> increasing l2 -> increasing l1.
Proof.
  induction 1 as [|x l1 l2 Hsub IH|x l1 l2 Hsub IH]; intros Hi.
  - intros i j a b Ei. by rewrite lookup_nil in Ei.
  - intros [|i] [|j] a b Ei Ej Hij; try lia.
    + cbn in Ei, Ej. injection Ei as ->.
      assert (b ∈ l2) as [k Ek]%list_elem_of_lookup.
      { eapply sublist_subseteq; [done|]. by eapply list_elem_of_lookup_2. }
      apply (Hi 0%nat (S k)); [done..|lia].
    + cbn in Ei, Ej. refine (IH (increasing_tail _ _ Hi) i j _ _ Ei Ej _). lia.
  - refine (IH _). by eapply increasing_tail.
Qed.

Lemma increasing_seqZ m n : increasing (seqZ m n).
Proof. intros i j a b [-> _]%lookup_seqZ [-> _]%lookup_seqZ Hij. lia. Qed.

(** C2.  On one instance the request ids are 1, 2, 3, ... in the order in
    which they are handed out, whether to [callServiceFrameworkMethod] (called
    directly, by a subscription or by an unsubscription) or by the generator
    given to the ClientComponent: the first is 1, each is larger than all
    earlier ones, and none is handed out twice.  The id handed out next is
    the number of ids handed out so far plus one: it is the value the
    generator returns, the id of the promise [callServiceFrameworkMethod]
    returns and the [requestId] of the request it sends, and the counter
    then moves on by one.  No request is ever sent under an id that was not
    handed out. *)
Theorem request_ids_count_up (sock : NuclideSocket) (es : list Step) :
  let st := run es (constructor sock) in
  let ids := request_ids (run_fx es (constructor sock)) in
  let next := 1 + Z.of_nat (length ids) in
  ids = seqZ 1 (Z.of_nat (length ids)) /\
  (forall i j a b, ids !! i = Some a -> ids !! j = Some b -> (i < j)%nat -> a < b) /\
  NoDup ids /\
  _rpcRequestId st = next /\
  nextRequestId st = mkOut (set__rpcRequestId (next + 1) st) [ERequestId next] (Ok next) /\
  (forall serviceName methodName methodArgs serviceOptions timeout,
     let o := callServiceFrameworkMethod serviceName methodName methodArgs serviceOptions
                timeout st in
     val o = Ok (PRpc next) /\
     request_ids (fx o) = [next] /\
     _rpcRequestId (post o) = next + 1 /\
     (forall r, r ∈ sent (fx o) ->
        r = Request.mk serviceName methodName methodArgs serviceOptions next) /\
     (is_Some (socket st) ->
        sent (fx o) = [Request.mk serviceName methodName methodArgs serviceOptions next] /\
        pstate (PRpc next) (post o) = Some Pending)) /\
  map Request.requestId (sent (run_fx es (constructor sock))) `sublist_of` ids.
Proof.
  intros st ids next. destruct (ids_rel_run es (constructor sock)) as [E C].
  change (_rpcRequestId (constructor sock)) with 1 in E, C.
  fold ids in E, C. fold st in C. fold next in C.
  split_and!.
  - done.
  - rewrite E. intros i j a b [-> _]%lookup_seqZ [-> _]%lookup_seqZ Hij. lia.
  - rewrite E. apply NoDup_seqZ.
  - done.
  - unfold nextRequestId. by rewrite C.
  - intros s m a o t. cbn zeta.
    unfold callServiceFrameworkMethod, nextRequestId. js_unfold. cbn. rewrite C.
    destruct (socket st) as [sock'|] eqn:Hs; cbn.
    + split_and!; [done..| |].
      * by intros r ->%list_elem_of_singleton.
      * intros _. split; [done|]. apply lookup_insert_eq.
    + split_and!; [done..| |].
      * by intros r Hr%elem_of_nil.
      * by intros [? [=]].
  - apply (sends_rel_run es (constructor sock)).
Qed.

(** X3.  Over the life of a connection every request handed to [socket.send]
    carries one of the request ids handed out, in the order of the ids, so
    the ids of the requests sent increase strictly and no two requests share
    an id. *)
Theorem sent_requests_have_distinct_ids (sock : NuclideSocket) (es : list Step) :
  let f := run_fx es (constructor sock) in
  map Request.requestId (sent f) `sublist_of` request_ids f /\
  increasing (map Request.requestId (sent f)) /\
  NoDup (map Request.requestId (sent f)).
Proof.
  cbn zeta.
  pose proof (sends_rel_run es (constructor sock)) as Hs.
  destruct (ids_rel_run es (constructor sock)) as [E _].
  unfold sends_rel in Hs. split; [done|].
  revert Hs E. generalize (request_ids (run_fx es (constructor sock))). intros ids Hs E.
  split.
  - refine (increasing_sublist _ _ Hs _). rewrite E. apply increasing_seqZ.
  - refine (sublist_NoDup _ _ _ Hs). rewrite E. apply NoDup_seqZ.
Qed.
(** ** Who runs listeners *)

Lemma invoked_app l1 l2 : invoked (l1 ++ l2) = invoked l1 ++ invoked l2.
Proof. apply omap_app. Qed.

Lemma silent_rel_compositional : Compositional silent_rel.
Proof.
  split.
  - by intros st.
  - intros st f1 st1 f2 st2 [D1 I1] [D2 I2]. unfold silent_rel.
    by rewrite dispatched_app, invoked_app, D1, D2, I1, I2.
Qed.

Lemma silent_rel_elementary k A (m : M A) :
  elementary k m -> k <> KEmit -> sat silent_rel m.
Proof.
  intros Hel Hk. destruct Hel; intros st.
  - unfold callServiceFrameworkMethod. js_unfold. cbn. by destruct (socket st).
  - unfold callMethod. js_unfold. cbn. destruct (socket st); cbn; [|done].
    by destruct (serializeArgs _).
  - unfold _callSubscribe. js_unfold. cbn. by destruct (socket st).
  - unfold timer_fires. js_unfold. cbn. by destruct (timers st !! requestId).
  - done.
  - unfold dispose. js_unfold. cbn.
    destruct (disposables st !! d) as [D|]; cbn; [|done]. by destruct (disposed D).
  - unfold close. js_unfold. cbn. by destruct (socket st).
  - done.
  - unfold attach_listener. js_unfold. cbn. destruct r; cbn; try done.
    by case_bool_decide.
  - by rewrite register_emitter_spec.
  - done.
  - done.
  - done.
  - done.
  - done.
  - done.
  - done.
Qed.

Lemma silent_step (e : Step) (st : State) :
  (forall message, e <> SocketMessage message) ->
  dispatched (fx (step e st)) = [] /\ invoked (fx (step e st)) = [].
Proof.
  intros He. apply (step_sat silent_rel e silent_rel_compositional).
  intros k A m Hk Hel. apply (silent_rel_elementary k); [done|].
  intros ->. destruct e as [| | | | | | | | |msg| | |]; cbn in Hk; try done;
    try (by destruct Hk).
  by destruct (He msg).
Qed.


(** ** The table of stream emitters *)







(** The bus calls a stream emitter only for a stream event of an id that is
    in the table with this emitter. *)
Lemma dispatched_stream_in_table e st a :
  Stream a ∈ dispatched (fx (step e st)) ->
  exists message i type args,
    e = SocketMessage message /\ stream_event message i type args /\ i <> 0 /\
    _eventEmitters st !! i = Some a.
Proof.
  assert ((exists message, e = SocketMessage message) \/
          (forall message, e <> SocketMessage message)) as [[message ->]|Hne]
    by (destruct e; try (right; done); left; eauto).
  2: { rewrite (proj1 (silent_step e st Hne)). by intros ?%elem_of_nil. }
  cbn [step]. intros Hin. exists message.
  destruct (message_cases message)
    as [Hc|[[Hn Hc]|[(Hn1 & Hn2 & Hc)|[(i & ty & ar & Hs & Hi)|(Hn1 & Hn2 & Hn3 & Hf)]]]].
  - exfalso. revert Hin. destruct (Message.requestId message) as [rid'|] eqn:Hr.
    + rewrite (handle_rpc _ _ _ Hc Hr). cbn. rewrite emit_dispatched.
      by intros [=]%list_elem_of_singleton.
    + unfold _handleSocketMessage. rewrite Hc, Hr. rewrite bool_decide_eq_true_2 by done.
      by intros ?%elem_of_nil.
  - exfalso. revert Hin. destruct (Message.event message) as [ev|] eqn:He.
    + rewrite (handle_event _ _ _ Hn Hc He). cbn. rewrite emit_dispatched.
      by intros [=]%list_elem_of_singleton.
    + unfold _handleSocketMessage. rewrite He.
      rewrite bool_decide_eq_false_2 by done. rewrite bool_decide_eq_true_2 by done.
      by intros ?%elem_of_nil.
  - exfalso. revert Hin. destruct (Message.requestId message) as [rid'|] eqn:Hr.
    + rewrite (handle_sf3 _ _ _ Hn1 Hn2 Hc Hr). cbn. rewrite emit_dispatched.
      by intros [=]%list_elem_of_singleton.
    + unfold _handleSocketMessage. rewrite Hr.
      rewrite !bool_decide_eq_false_2 by done. rewrite bool_decide_eq_true_2 by done.
      by intros ?%elem_of_nil.
  - exists i, ty, ar. split; [done|]. split; [done|]. split; [done|].
    destruct (_eventEmitters st !! i) as [a'|] eqn:El.
    + revert Hin. rewrite (handle_stream_known _ _ _ _ _ _ Hs Hi El). cbn zeta.
      pose proof (emit_dispatched (Stream a') (key_of ty) (spread ar) st) as E1.
      destruct (emit (Stream a') (key_of ty) (spread ar) st) as [st1 f1 [b|e]];
        cbn [fx post val] in *.
      * rewrite dispatched_app, E1, generic_emit_dispatched. cbn.
        intros [[= ->]|[[=]|[]%elem_of_nil]%elem_of_cons]%elem_of_cons. done.
      * rewrite E1. by intros [= ->]%list_elem_of_singleton.
    + revert Hin. rewrite (handle_stream_unknown _ _ _ _ _ Hs Hi El). cbn.
      by intros ?%elem_of_nil.
  - exfalso. revert Hin. rewrite (handle_generic _ _ Hn1 Hn2 Hn3 Hf). cbn.
    rewrite generic_emit_dispatched. by intros [=]%list_elem_of_singleton.
Qed.

Lemma detached_step a e st : detached a st -> detached a (post (step e st)).
Proof.
  apply (step_sat (detached_rel a) e (detached_rel_compositional a)).
  intros k A m _. apply detached_rel_elementary.
Qed.

(** X5.  An emitter that has left the table, because one of its dispose events
    was handled or because its id was consumed again, is never called by the
    bus again. *)
Theorem detached_emitter_is_never_called (st : State) (eventEmitter : nat) (es : list Step) :
  detached eventEmitter st ->
  Stream eventEmitter ∉ dispatched (run_fx es st).
Proof.
  revert st. induction es as [|e es IH]; intros st Hd; cbn.
  - by intros ?%elem_of_nil.
  - rewrite dispatched_app. intros [Hin|Hin]%elem_of_app.
    + destruct (dispatched_stream_in_table _ _ _ Hin) as (m & i & ty & ar & _ & _ & _ & Ht).
      by destruct (proj2 Hd i).
    + revert Hin. apply IH. by apply detached_step.
Qed.

(** ** Subscriptions on a closed connection, and undone *)

(** X7.  [registerEventListener] after [close()] raises the TypeError of
    [this.socket.id]; by then the callback is on the event emitter, and it
    stays there: no request id is taken, nothing is sent, and no disposable
    is made that could take it off again. *)
Theorem registerEventListener_after_close (st : State) (localEventName : string)
    (callback : nat) (serviceOptions : JsVal) :
  socket st = None ->
  let serviceName := nth 0 (split_slash localEventName) EmptyString in
  let eventMethodName := str_val (split_slash localEventName !! 1%nat) in
  let remoteEventName := getRemoteEventName serviceName eventMethodName serviceOptions in
  registerEventListener localEventName callback serviceOptions st =
    mkOut (update_emitter ServiceFrameworkEventEmitter
             (EventEmitter.on remoteEventName (CbUser callback)) st)
          [] (Throw (nullDeref "id")).
Proof.
  intros Hs. unfold registerEventListener, _subscribeEventOnServer. js_unfold. cbn.
  by rewrite Hs.
Qed.

(** X8.  Subscribing and disposing at once leaves the event emitter as it was:
    under every event name the listeners are those from before, in the same
    order.  This is so when nobody listens for the meta events [newListener]
    and [removeListener] of the emitter, which Node would otherwise emit
    from [on] and [removeListener]. *)
Theorem register_then_dispose (st : State) (sock : NuclideSocket) (localEventName : string)
    (callback : nat) (serviceOptions : JsVal) (name : string) :
  socket st = Some sock ->
  meta_free (serviceFrameworkEventEmitter st) ->
  let o := registerEventListener localEventName callback serviceOptions st in
  let o' := dispose (length (disposables st)) (post o) in
  val o = Ok (length (disposables st)) /\
  val o' = Ok tt /\
  EventEmitter.listeners name (serviceFrameworkEventEmitter (post o')) =
  EventEmitter.listeners name (serviceFrameworkEventEmitter st).
Proof.
  intros Hs _. cbn zeta.
  destruct (registerEventListener_open st sock localEventName callback serviceOptions Hs)
    as (st1 & -> & Ed & _ & Eem).
  cbn [post val]. split; [done|].
  destruct (dispose_live st1 (length (disposables st)) _
              (ltac:(rewrite Ed; by apply list_lookup_middle)) eq_refl)
    as (st2 & -> & E2 & _).
  cbn [post val]. split; [done|]. rewrite E2, Eem. cbn. apply removeListener_on.
Qed.

(** ** Stream events of the type ['error'] *)



(** ** Channels of stream emitters *)

(** X10.  Different ids have different channels, negative ids included:
    the channel is the prefix ['event_emitter/'] and the decimal form of
    the id. *)
Theorem eventEmitterChannel_inj (id1 id2 : Z) :
  id1 <> id2 -> eventEmitterChannel id1 <> eventEmitterChannel id2.
Proof.
  intros Hne. unfold eventEmitterChannel. cbn. intros E. apply Hne, (inj pretty).
  by simplify_eq.
Qed.
(** ** Promises *)

Lemma keeps_rel_compositional : Compositional keeps_rel.
Proof.
  split.
  - by intros st n s Hs.
  - intros st f1 st1 f2 st2 H1 H2 n s Hs.
    destruct (H1 n s Hs) as [A1 S1]. destruct (H2 n s Hs) as [A2 S2]. split; auto.
Qed.

Lemma keeps_rel_via st1 st f st2 :
  keeps_rel st [] st1 -> keeps_rel st1 [] st2 -> keeps_rel st f st2.
Proof. apply (comp_trans _ keeps_rel_compositional st [] st1 [] st2). Qed.

Lemma keeps_rel_grow st f st' la ls :
  async_promises st' = async_promises st ++ la ->
  socket_promises st' = socket_promises st ++ ls ->
  keeps_rel st f st'.
Proof. intros Ea Es n s _. rewrite Ea, Es. split; apply lookup_app_l_Some. Qed.

Lemma keeps_rel_same st f st' :
  async_promises st' = async_promises st ->
  socket_promises st' = socket_promises st ->
  keeps_rel st f st'.
Proof. intros Ea Es. apply (keeps_rel_grow _ _ _ [] []); by rewrite app_nil_r. Qed.

Lemma keeps_rel_settle p s st f : keeps_rel st f (settle p s st).
Proof.
  unfold settle. destruct (pstate p st) as [[| |]|] eqn:E; try (by apply keeps_rel_same).
  destruct p as [rid|k|k]; cbn in *; [by apply keeps_rel_same|..];
    intros n s' Hs'; cbn; (split; [|]); try done; intros En;
    (rewrite list_lookup_insert_ne; [done|]); intros ->; congruence.
Qed.

Ltac keeps_same :=
  apply keeps_rel_same; autorewrite with frame; cbn; autorewrite with frame; reflexivity.

Ltac keeps_grow :=
  eapply keeps_rel_grow; autorewrite with frame; cbn; autorewrite with frame;
  first [reflexivity|symmetry; apply app_nil_r].

Lemma emit_async_promises r name args st :
  async_promises (post (emit r name args st)) = async_promises st.
Proof.
  destruct (emit_cases r name args st) as [(ls & E & ->)|(_ & v & ->)]; cbn; [|done].
  by autorewrite with frame.
Qed.

Lemma emit_socket_promises r name args st :
  socket_promises (post (emit r name args st)) = socket_promises st.
Proof.
  destruct (emit_cases r name args st) as [(ls & E & ->)|(_ & v & ->)]; cbn; [|done].
  by autorewrite with frame.
Qed.

Lemma keeps_rel_elementary k A (m : M A) : elementary k m -> sat keeps_rel m.
Proof.
  intros Hel. destruct Hel; intros st.
  - unfold callServiceFrameworkMethod. js_unfold. cbn. destruct (socket st); cbn; keeps_same.
  - unfold callMethod. js_unfold. cbn. destruct (socket st); cbn.
    + destruct (serializeArgs _). cbn. keeps_grow.
    + eapply keeps_rel_via; [|apply keeps_rel_settle]. keeps_grow.
  - unfold _callSubscribe. js_unfold. cbn. destruct (socket st); cbn.
    + keeps_grow.
    + eapply keeps_rel_via; [|apply keeps_rel_settle]. keeps_grow.
  - unfold timer_fires. js_unfold. cbn. destruct (timers st !! requestId); cbn.
    + eapply keeps_rel_via; [|apply keeps_rel_settle]. keeps_same.
    + keeps_same.
  - apply keeps_rel_same; [apply emit_async_promises|apply emit_socket_promises].
  - unfold dispose. js_unfold. cbn.
    destruct (disposables st !! d) as [D|]; cbn; [|keeps_same].
    destruct (disposed D); cbn; [keeps_same|keeps_grow].
  - unfold close. js_unfold. cbn. destruct (socket st); cbn; keeps_same.
  - cbn. keeps_same.
  - unfold attach_listener. js_unfold. cbn. destruct r; cbn; try keeps_same.
    case_bool_decide; cbn; keeps_same.
  - rewrite register_emitter_spec. cbn. keeps_same.
  - cbn. keeps_grow.
  - cbn. apply keeps_rel_settle.
  - cbn. keeps_same.
  - cbn. keeps_same.
  - cbn. keeps_same.
  - cbn. keeps_same.
  - cbn. keeps_same.
Qed.

Lemma keeps_rel_run es st : keeps_rel st (run_fx es st) (run es st).
Proof.
  apply run_sat; [apply keeps_rel_compositional|].
  intros e. apply step_sat; [apply keeps_rel_compositional|].
  intros k A m _. apply keeps_rel_elementary.
Qed.

(** Every promise is settled at most once: the promise of a call, of an
    [async] function or [then], and of a request of the socket, once it is
    resolved or rejected, keeps that state whatever happens after. *)
Theorem promises_settle_once (st : State) (p : PromiseRef) (s : PState) (es : list Step) :
  reachable st ->
  pstate p st = Some s -> s <> Pending ->
  pstate p (run es st) = Some s.
Proof.
  intros Hre Hp Hs. destruct p as [rid|n|n]; cbn in *.
  - destruct (frozen_rel_run es st) as (_ & _ & Hfr). apply Hfr; [|done..].
    by eapply wf_promises; [apply wf_c, reachable_wf|].
  - by apply (keeps_rel_run es st n s Hs).
  - by apply (keeps_rel_run es st n s Hs).
Qed.
(** ** Promises and their jobs, one after the other *)

Lemma settle_pending p s st :
  pstate p st = Some Pending -> pstate p (settle p s st) = Some s.
Proof.
  intros E. unfold settle. rewrite E. destruct p as [rid|n|n]; cbn in *.
  - apply lookup_insert_eq.
  - apply list_lookup_insert_eq. by eapply lookup_lt_Some.
  - apply list_lookup_insert_eq. by eapply lookup_lt_Some.
Qed.

Lemma settle_other p q s st : p <> q -> pstate p (settle q s st) = pstate p st.
Proof.
  intros Hne. unfold settle. destruct (pstate q st) as [[| |]|]; try done.
  destruct p as [rid|n|n], q as [rid'|n'|n']; cbn; try done.
  - apply lookup_insert_ne. congruence.
  - apply list_lookup_insert_ne. congruence.
  - apply list_lookup_insert_ne. congruence.
Qed.

(** The job of the [k]-th reaction. *)
Lemma reaction_runs_spec k r st :
  reactions st !! k = Some r ->
  reaction_runs k st =
    match pstate (awaited r) st with
    | Some (Resolved v) =>
        resume (frame r) (inl v) (set_reactions (delete k (reactions st)) st)
    | Some (Rejected e) =>
        resume (frame r) (inr e) (set_reactions (delete k (reactions st)) st)
    | _ => mkOut st [] (Ok tt)
    end.
Proof.
  intros Ek. unfold reaction_runs. js_unfold. cbn. rewrite Ek.
  destruct (pstate (awaited r) st) as [[|v|e]|]; cbn; try done.
  - by destruct (resume (frame r) (inl v) _) as [st' f' []].
  - by destruct (resume (frame r) (inr e) _) as [st' f' []].
Qed.

(** [callMethod] on an open connection. *)
Lemma callMethod_open st sock serviceName methodName methodArgs extraOptions :
  socket st = Some sock ->
  exists st',
    callMethod serviceName methodName methodArgs extraOptions st =
      mkOut st'
        [EXhrRequest (Xhr.mk (serviceName +:+ "/" +:+ methodName)
                        (serializeArgs (default [] methodArgs)).1
                        (serializeArgs (default [] methodArgs)).2 "GET" extraOptions)]
        (Ok (length (async_promises st))) /\
    socket st' = Some sock /\
    async_promises st' = async_promises st ++ [Pending] /\
    socket_promises st' = socket_promises st ++ [Pending] /\
    reactions st' =
      reactions st ++
        [mkReaction (PSocket (length (socket_promises st)))
           (FCallMethod (length (async_promises st)))].
Proof.
  intros Hs. unfold callMethod. js_unfold. cbn. rewrite Hs.
  destruct (serializeArgs _) as [args argTypes]. cbn.
  eexists. split; [reflexivity|]. by cbn.
Qed.

(** X11.  [callMethod] on an open connection hands one request to
    [socket.xhrRequest] and returns a pending promise.  When the socket
    settles the request and the job of the [await] runs, the promise is
    resolved with the result of the request, or the error of the request is
    logged and the promise is rejected with it. *)
Theorem callMethod_follows_request (st : State) (sock : NuclideSocket)
    (serviceName methodName : string) (methodArgs : option (list JsVal))
    (extraOptions : JsVal) (outcome : JsVal + JsVal) :
  socket st = Some sock ->
  let o := callMethod serviceName methodName methodArgs extraOptions st in
  let r := length (async_promises st) in
  let st1 := post (socket_settles (length (socket_promises st)) outcome (post o)) in
  let o2 := reaction_runs (length (reactions st)) st1 in
  val o = Ok r /\
  fx o = [EXhrRequest (Xhr.mk (serviceName +:+ "/" +:+ methodName)
                         (serializeArgs (default [] methodArgs)).1
                         (serializeArgs (default [] methodArgs)).2 "GET" extraOptions)] /\
  pstate (PAsync r) (post o) = Some Pending /\
  pstate (PAsync r) st1 = Some Pending /\
  val o2 = Ok tt /\
  fx o2 = match outcome with inl _ => [] | inr e => [ELoggerError (LogErr e)] end /\
  pstate (PAsync r) (post o2) = Some (settled_as outcome).
Proof.
  intros Hs. cbn zeta.
  destruct (callMethod_open st sock serviceName methodName methodArgs extraOptions Hs)
    as (st' & -> & Hs' & Ea & Esp & Er).
  cbn [post fx val]. unfold socket_settles. cbn [modify post].
  fold (settled_as outcome).
  set (x := length (socket_promises st)). set (r := length (async_promises st)).
  set (st1 := settle (PSocket x) (settled_as outcome) st').
  assert (pstate (PAsync r) st' = Some Pending) as Hp
    by (cbn; rewrite Ea; by apply list_lookup_middle).
  assert (pstate (PSocket x) st' = Some Pending) as Hx
    by (cbn; rewrite Esp; by apply list_lookup_middle).
  assert (pstate (PAsync r) st1 = Some Pending) as Hp1
    by (subst st1; by rewrite settle_other).
  assert (pstate (PSocket x) st1 = Some (settled_as outcome)) as Hx1
    by (by apply settle_pending).
  assert (reactions st1 !! length (reactions st) =
          Some (mkReaction (PSocket x) (FCallMethod r))) as Ek.
  { subst st1. rewrite settle_reactions, Er. by apply list_lookup_middle. }
  split_and!; [done..| | |]; rewrite (reaction_runs_spec _ _ _ Ek); cbn [awaited frame];
    rewrite Hx1; destruct outcome as [v|e]; cbn [settled_as resume]; js_unfold; cbn;
    try done; by apply (settle_pending (PAsync r)).
Qed.
(** [_callSubscribe] on an open connection. *)
Lemma callSubscribe_open st sock channel options :
  socket st = Some sock ->
  exists st',
    _callSubscribe channel options st =
      mkOut st' [EWaitForConnect] (Ok (length (async_promises st))) /\
    socket st' = Some sock /\
    async_promises st' = async_promises st ++ [Pending] /\
    socket_promises st' = socket_promises st ++ [Pending] /\
    reactions st' =
      reactions st ++
        [mkReaction (PSocket (length (socket_promises st)))
           (FCallSubscribe1 (length (async_promises st)) channel
              (default_param (JObj []) options))].
Proof.
  intros Hs. unfold _callSubscribe. js_unfold. cbn. rewrite Hs. cbn.
  eexists. split; [reflexivity|]. by cbn.
Qed.

(** X12.  [_callSubscribe] on an open connection waits for the connection before
    anything else, with its promise pending.  The job that runs when the
    connection is there hands the subscribe request for the channel to
    [socket.xhrRequest], with the options given or [{}] when they were
    [undefined], and leaves the promise pending; when waiting for the
    connection fails, the promise is rejected with that error and no
    request is made; and when the bus was closed in the meantime, the
    promise is rejected with the TypeError of [this.socket.id] and no
    request is made. *)
Theorem callSubscribe_waits_for_connect (st : State) (sock : NuclideSocket)
    (channel : string) (options : JsVal) :
  socket st = Some sock ->
  let o := _callSubscribe channel options st in
  let s := length (async_promises st) in
  let w := length (socket_promises st) in
  let k := length (reactions st) in
  let opts := default_param (JObj []) options in
  val o = Ok s /\ fx o = [EWaitForConnect] /\ pstate (PAsync s) (post o) = Some Pending /\
  (forall v,
     let o2 := reaction_runs k (post (socket_settles w (inl v) (post o))) in
     fx o2 =
       [EXhrRequest
          (Xhr.mk "eventbus/subscribe"
             (serializeArgs [id sock; JStr channel; opts]).1
             (serializeArgs [id sock; JStr channel; opts]).2 "GET"
             (JObj [("method"%string, JStr "POST"); ("json"%string, JBool true)]))] /\
     pstate (PAsync s) (post o2) = Some Pending) /\
  (forall e,
     let o2 := reaction_runs k (post (socket_settles w (inr e) (post o))) in
     fx o2 = [] /\ pstate (PAsync s) (post o2) = Some (Rejected e)) /\
  (forall v,
     let o2 := reaction_runs k (post (close (post (socket_settles w (inl v) (post o))))) in
     fx o2 = [] /\ pstate (PAsync s) (post o2) = Some (Rejected (nullDeref "id"))).
Proof.
  intros Hs. cbn zeta.
  destruct (callSubscribe_open st sock channel options Hs) as (st' & -> & Hs' & Ea & Esp & Er).
  cbn [post fx val]. unfold socket_settles. cbn [modify post].
  set (w := length (socket_promises st)). set (s := length (async_promises st)).
  set (opts := default_param (JObj []) options) in *.
  assert (pstate (PAsync s) st' = Some Pending) as Hp
    by (cbn; rewrite Ea; by apply list_lookup_middle).
  assert (pstate (PSocket w) st' = Some Pending) as Hw
    by (cbn; rewrite Esp; by apply list_lookup_middle).
  assert (forall S, let st1 := settle (PSocket w) S st' in
            socket st1 = Some sock /\ pstate (PAsync s) st1 = Some Pending /\
            pstate (PSocket w) st1 = Some S /\
            reactions st1 !! length (reactions st) =
              Some (mkReaction (PSocket w) (FCallSubscribe1 s channel opts))) as Hst1.
  { intros S st1. subst st1. split_and!.
    - by rewrite settle_socket.
    - by rewrite settle_other.
    - by apply settle_pending.
    - rewrite settle_reactions, Er. by apply list_lookup_middle. }
  split_and!; [done..| | |].
  - intros v. cbn zeta. destruct (Hst1 (Resolved v)) as (Hs1 & Hp1 & Hw1 & Ek).
    set (st1 := settle _ _ _) in *.
    rewrite (reaction_runs_spec _ _ _ Ek). cbn [awaited frame]. rewrite Hw1.
    cbn [resume]. js_unfold. cbn -[callMethod]. rewrite Hs1.
    set (st2 := set_reactions _ st1). cbn [bind].
    destruct (callMethod_open st2 sock "eventbus" "subscribe"
                (Some [id sock; JStr channel; opts])
                (JObj [("method"%string, JStr "POST"); ("json"%string, JBool true)]) Hs1)
      as (st3 & -> & _ & Ea3 & _). cbn.
    split; [done|]. rewrite Ea3. by apply lookup_app_l_Some.
  - intros e. cbn zeta. destruct (Hst1 (Rejected e)) as (Hs1 & Hp1 & Hw1 & Ek).
    set (st1 := settle _ _ _) in *.
    rewrite (reaction_runs_spec _ _ _ Ek). cbn [awaited frame]. rewrite Hw1.
    cbn [resume]. cbn. split; [done|]. by apply (settle_pending (PAsync s)).
  - intros v. cbn zeta. destruct (Hst1 (Resolved v)) as (Hs1 & Hp1 & Hw1 & Ek).
    set (st1 := settle _ _ _) in *.
    rewrite (close_open _ _ Hs1). cbn [post].
    rewrite (reaction_runs_spec _ (mkReaction (PSocket w) (FCallSubscribe1 s channel opts)))
      by done.
    cbn [awaited frame]. change (pstate (PSocket w) (set_socket None st1))
      with (pstate (PSocket w) st1). rewrite Hw1.
    cbn [resume]. js_unfold. cbn. split; [done|]. by apply (settle_pending (PAsync s)).
Qed.

(** ** A subscription from its request to its unsubscribe request *)

Lemma emit_reactions r name args st : reactions (post (emit r name args st)) = reactions st.
Proof.
  destruct (emit_cases r name args st) as [(ls & E & ->)|(_ & v & ->)]; cbn; [|done].
  by autorewrite with frame.
Qed.

Lemma registerEventListener_open_frame st sock localEventName callback serviceOptions :
  socket st = Some sock ->
  let st' := post (registerEventListener localEventName callback serviceOptions st) in
  socket st' = Some sock /\ reactions st' = reactions st /\
  async_promises st' = async_promises st /\ _rpcRequestId st' = _rpcRequestId st + 1.
Proof.
  intros Hs. cbn zeta.
  unfold registerEventListener, _subscribeEventOnServer, callServiceFrameworkMethod.
  js_unfold. cbn. rewrite Hs. cbn. rewrite Hs. by cbn.
Qed.

Lemma handle_rpc_frame message st requestId :
  Message.channel message = Some SERVICE_FRAMEWORK_RPC_CHANNEL ->
  Message.requestId message = Some requestId ->
  let st' := post (_handleSocketMessage message st) in
  socket st' = socket st /\ reactions st' = reactions st /\
  async_promises st' = async_promises st /\ _rpcRequestId st' = _rpcRequestId st /\
  disposables st' = disposables st.
Proof.
  intros Hc Hr. cbn zeta. rewrite (handle_rpc _ _ _ Hc Hr). cbn.
  by rewrite emit_socket, emit_reactions, emit_async_promises, emit_rpcRequestId,
    emit_disposables.
Qed.

Lemma timer_fires_frame requestId st :
  let st' := post (timer_fires requestId st) in
  socket st' = socket st /\ reactions st' = reactions st /\
  async_promises st' = async_promises st /\ _rpcRequestId st' = _rpcRequestId st /\
  disposables st' = disposables st.
Proof.
  cbn zeta. unfold timer_fires. js_unfold. cbn.
  destruct (timers st !! requestId); cbn; [|done].
  unfold settle. cbn. by destruct (rpc_promises st !! requestId) as [[| |]|].
Qed.

Lemma dispose_live_frame st d D :
  disposables st !! d = Some D -> disposed D = false ->
  let st' := post (dispose d st) in
  socket st' = socket st /\ rpc_promises st' = rpc_promises st /\
  _rpcRequestId st' = _rpcRequestId st /\
  async_promises st' = async_promises st ++ [Pending].
Proof.
  intros Ed Edd. cbn zeta. unfold dispose. js_unfold. cbn. rewrite Ed. cbn. rewrite Edd.
  by cbn.
Qed.

(** The job of a disposal whose subscribe call is settled. *)
Lemma unsubscribe_job_runs st k p t serviceName eventMethodName serviceOptions sock :
  reactions st !! k =
    Some (mkReaction p (FUnsubscribe t serviceName eventMethodName serviceOptions)) ->
  socket st = Some sock ->
  pstate (PAsync t) st = Some Pending ->
  match pstate p st with
  | Some (Resolved _) =>
      sent (fx (reaction_runs k st)) =
        [Request.mk "serviceFramework" "unsubscribeEvent"
           [id sock; JStr serviceName; eventMethodName] serviceOptions (_rpcRequestId st)]
  | Some (Rejected e) =>
      fx (reaction_runs k st) = [] /\
      _rpcRequestId (post (reaction_runs k st)) = _rpcRequestId st /\
      pstate (PAsync t) (post (reaction_runs k st)) = Some (Rejected e)
  | _ => reaction_runs k st = mkOut st [] (Ok tt)
  end.
Proof.
  intros Ek Hs Ht. pose proof (unsubscribe_job _ _ _ _ _ _ _ Ek) as Hj.
  destruct (pstate p st) as [[|v|e]|] eqn:Ep; try done; [by apply Hj|].
  rewrite (reaction_runs_spec _ _ _ Ek). cbn [awaited frame]. rewrite Ep.
  cbn [resume]. cbn. split; [done|]. split; [by autorewrite with frame|].
  by apply (settle_pending (PAsync t)).
Qed.

(** X14.  A subscription that is disposed after its subscribe call was answered
    without an error sends, when the job of the disposal runs, one
    unsubscribe request with the arguments of the subscribe request and the
    next request id.  A subscription whose subscribe call timed out sends no
    unsubscribe request when it is disposed: the job only rejects the promise
    of the disposal with the timeout message. *)
Theorem dispose_follows_subscribe_outcome (st : State) (sock : NuclideSocket)
    (localEventName : string) (callback : nat) (serviceOptions : JsVal) :
  reachable st ->
  socket st = Some sock ->
  let serviceName := nth 0 (split_slash localEventName) EmptyString in
  let eventMethodName := str_val (split_slash localEventName !! 1%nat) in
  let rid := _rpcRequestId st in
  let d := length (disposables st) in
  let k := length (reactions st) in
  let st1 := post (registerEventListener localEventName callback serviceOptions st) in
  (forall message,
     Message.channel message = Some SERVICE_FRAMEWORK_RPC_CHANNEL ->
     Message.requestId message = Some rid ->
     truthy (Message.error message) = false ->
     let st2 := post (dispose d (post (_handleSocketMessage message st1))) in
     sent (fx (reaction_runs k st2)) =
       [Request.mk "serviceFramework" "unsubscribeEvent"
          [id sock; JStr serviceName; eventMethodName] serviceOptions (rid + 1)]) /\
  (let st2 := post (dispose d (post (timer_fires rid st1))) in
   fx (reaction_runs k st2) = [] /\
   _rpcRequestId (post (reaction_runs k st2)) = rid + 1 /\
   pstate (PAsync (length (async_promises st))) (post (reaction_runs k st2)) =
     Some (Rejected (JStr ("Timeout after " +:+ pretty SERVICE_FRAMEWORK_RPC_TIMEOUT_MS
                             +:+ " for serviceFramework/subscribeEvent")))).
Proof.
  intros Hre Hs. cbn zeta.
  destruct (registerEventListener_open st sock localEventName callback serviceOptions Hs)
    as (st1 & Eo & Ed & Ep & _).
  destruct (registerEventListener_open_frame st sock localEventName callback serviceOptions Hs)
    as (Hs1 & Er1 & Ea1 & Ec1).
  assert (reachable (post (registerEventListener localEventName callback serviceOptions st)))
    as Hre1.
  { rewrite <-bind_ret_post.
    by apply (reachable_step _ (RegisterEventListener localEventName callback serviceOptions)). }
  rewrite Eo in *. cbn [post] in *.
  set (D := mkDisposable _ _ _ _ _ _ _) in Ed.
  assert (disposables st1 !! length (disposables st) = Some D) as Ed1
    by (rewrite Ed; by apply list_lookup_middle).
  destruct (pending_call _ _ (reachable_wf _ Hre1) Ep) as (El & [tm Et] & _).
  split.
  - intros message Hc Hr Herr.
    destruct (response_settles _ _ _ El Ep Hc Hr) as [_ Hp2].
    destruct (handle_rpc_frame message st1 _ Hc Hr) as (Hs2 & Er2 & Ea2 & Ec2 & Ed2).
    set (st2 := post (_handleSocketMessage message st1)) in *.
    assert (disposables st2 !! length (disposables st) = Some D) as Ed2'
      by (by rewrite Ed2).
    destruct (dispose_live st2 _ D Ed2' eq_refl) as (st3 & E3 & _ & Er3).
    destruct (dispose_live_frame st2 _ D Ed2' eq_refl) as (Hs3 & Ep3 & Ec3 & Ea3).
    rewrite E3 in *. cbn [post] in *.
    assert (reactions st3 !! length (reactions st) =
            Some (mkReaction (PRpc (_rpcRequestId st))
                    (FUnsubscribe (length (async_promises st2)) (d_serviceName D)
                       (d_eventMethodName D) (d_serviceOptions D)))) as Ek.
    { rewrite Er3, Er2, Er1. by apply list_lookup_middle. }
    pose proof (unsubscribe_job_runs st3 _ _ _ _ _ _ sock Ek
                  (ltac:(congruence))
                  (ltac:(cbn; rewrite Ea3; by apply list_lookup_middle))) as Hj.
    cbn [pstate] in Hj, Hp2. rewrite Ep3, Hp2 in Hj. unfold response_outcome in Hj.
    rewrite Herr in Hj. rewrite Hj. by rewrite Ec3, Ec2, Ec1.
  - destruct (timer_fires_frame (_rpcRequestId st) st1) as (Hs2 & Er2 & Ea2 & Ec2 & Ed2).
    pose proof (timeout_settles _ _ _ Et Ep) as Hp2.
    set (st2 := post (timer_fires (_rpcRequestId st) st1)) in *.
    assert (disposables st2 !! length (disposables st) = Some D) as Ed2'
      by (by rewrite Ed2).
    destruct (dispose_live st2 _ D Ed2' eq_refl) as (st3 & E3 & _ & Er3).
    destruct (dispose_live_frame st2 _ D Ed2' eq_refl) as (Hs3 & Ep3 & Ec3 & Ea3).
    rewrite E3 in *. cbn [post] in *.
    assert (reactions st3 !! length (reactions st) =
            Some (mkReaction (PRpc (_rpcRequestId st))
                    (FUnsubscribe (length (async_promises st2)) (d_serviceName D)
                       (d_eventMethodName D) (d_serviceOptions D)))) as Ek.
    { rewrite Er3, Er2, Er1. by apply list_lookup_middle. }
    pose proof (unsubscribe_job_runs st3 _ _ _ _ _ _ sock Ek
                  (ltac:(congruence))
                  (ltac:(cbn; rewrite Ea3; by apply list_lookup_middle))) as Hj.
    cbn [pstate] in Hj, Hp2. rewrite Ep3, Hp2 in Hj.
    destruct Hj as (Hf & Hc & Hp). split; [done|]. split; [by rewrite Hc, Ec3, Ec2, Ec1|].
    rewrite <-Ea1, <-Ea2. cbn [pstate]. rewrite Hp. do 3 f_equal.
    assert (tm = mkTimer SERVICE_FRAMEWORK_RPC_TIMEOUT_MS "serviceFramework" "subscribeEvent")
      as ->; [|done].
    revert Et. clear -Eo Hs.
    unfold registerEventListener, _subscribeEventOnServer, callServiceFrameworkMethod in Eo.
    revert Eo. js_unfold. cbn. rewrite Hs. cbn. rewrite Hs. cbn. intros [= <-]. cbn.
    rewrite lookup_insert_eq. congruence.
Qed.
(** ** Events of a subscription *)

Lemma emit_invoked r name args st :
  invoked (fx (emit r name args st)) =
  invoked (flat_map (fun l => callback_fx (fn l) args)
             (EventEmitter.listeners name (get_emitter r st))).
Proof.
  unfold EventEmitter.listeners.
  destruct (emit_cases r name args st) as [(ls & E & ->)|(E & v & ->)]; by rewrite E.
Qed.

(** X15.  After [registerEventListener], an event of the subscription's name on
    the event channel runs the listeners that were there before and then the
    new callback, with the arguments of the event. *)
Theorem subscription_callback_is_called (st : State) (sock : NuclideSocket)
    (localEventName : string) (callback : nat) (serviceOptions : JsVal)
    (message : Message.t) (ev : Event.t) :
  socket st = Some sock ->
  Message.channel message <> Some SERVICE_FRAMEWORK_RPC_CHANNEL ->
  Message.channel message = Some SERVICE_FRAMEWORK_EVENT_CHANNEL ->
  Message.event message = Some ev ->
  let serviceName := nth 0 (split_slash localEventName) EmptyString in
  let eventMethodName := str_val (split_slash localEventName !! 1%nat) in
  Event.name ev = Some (getRemoteEventName serviceName eventMethodName serviceOptions) ->
  let st1 := post (registerEventListener localEventName callback serviceOptions st) in
  invoked (fx (_handleSocketMessage message st1)) =
  invoked (fx (_handleSocketMessage message st)) ++ [(callback, spread (Event.args ev))].
Proof.
  intros Hs Hn Hc He serviceName eventMethodName Hname.
  destruct (registerEventListener_open st sock localEventName callback serviceOptions Hs)
    as (st1 & -> & _ & _ & Eem).
  cbn zeta. cbn [post]. rewrite !(handle_event _ _ _ Hn Hc He). cbn [fx].
  rewrite !emit_invoked. cbn [get_emitter]. rewrite Eem, Hname.
  change (key_of (Some ?x)) with x.
  unfold EventEmitter.on. unfold EventEmitter.listeners at 1.
  rewrite addListener_lookup, decide_True by done.
  change (default [] (Some ?x)) with x.
  by rewrite flat_map_app, invoked_app.
Qed.
(** ** What [consumeEventEmitter] asks of the server *)

Lemma consume_open st sock i ns ds :
  socket st = Some sock ->
  let c := length (async_promises st) in
  let options := JObj [("eventEmitterId"%string, JNum i);
                       ("eventNames"%string, JArr (map JStr ns))] in
  exists st',
    consumeEventEmitter i ns ds st = mkOut st' [EWaitForConnect] (Ok c) /\
    socket st' = Some sock /\
    async_promises st' = async_promises st ++ [Pending; Pending] /\
    socket_promises st' = socket_promises st ++ [Pending] /\
    reactions st' =
      reactions st ++
        [mkReaction (PSocket (length (socket_promises st)))
           (FCallSubscribe1 (S c) (eventEmitterChannel i) options);
         mkReaction (PAsync (S c)) (FConsume c (next_emitter st))].
Proof.
  intros Hs. cbn zeta.
  rewrite consumeEventEmitter_register. js_unfold. cbn.
  rewrite register_emitter_spec. cbn.
  unfold _callSubscribe. js_unfold. cbn. autorewrite with frame. cbn. rewrite Hs. cbn.
  eexists. split; [reflexivity|]. cbn. autorewrite with frame. cbn.
  rewrite <-!app_assoc. cbn.
  replace (length (async_promises st ++ [Pending])) with (S (length (async_promises st)))
    by (rewrite length_app; cbn; lia).
  done.
Qed.

(** X16.  [consumeEventEmitter] on an open connection waits for the connection;
    the job that runs when the connection is there asks the server, with one
    request to [socket.xhrRequest], to subscribe the channel of the id with
    the id and the event names as options.  The promise of
    [consumeEventEmitter] is pending all along. *)
Theorem consumeEventEmitter_subscribes (st : State) (sock : NuclideSocket)
    (eventEmitterId : Z) (eventNames : list string)
    (disposeEventNames : option (list string)) (v : JsVal) :
  socket st = Some sock ->
  let o := consumeEventEmitter eventEmitterId eventNames disposeEventNames st in
  let c := length (async_promises st) in
  let o2 := reaction_runs (length (reactions st))
              (post (socket_settles (length (socket_promises st)) (inl v) (post o))) in
  let methodArgs :=
    [id sock; JStr (eventEmitterChannel eventEmitterId);
     JObj [("eventEmitterId"%string, JNum eventEmitterId);
           ("eventNames"%string, JArr (map JStr eventNames))]] in
  val o = Ok c /\ fx o = [EWaitForConnect] /\
  fx o2 =
    [EXhrRequest
       (Xhr.mk "eventbus/subscribe" (serializeArgs methodArgs).1 (serializeArgs methodArgs).2
          "GET" (JObj [("method"%string, JStr "POST"); ("json"%string, JBool true)]))] /\
  pstate (PAsync c) (post o2) = Some Pending.
Proof.
  intros Hs. cbn zeta.
  destruct (consume_open st sock eventEmitterId eventNames disposeEventNames Hs)
    as (st' & -> & Hs' & Ea & Esp & Er).
  cbn [post fx val]. unfold socket_settles. cbn [modify post].
  set (w := length (socket_promises st)). set (c := length (async_promises st)).
  set (st1 := settle (PSocket w) (Resolved v) st').
  assert (pstate (PSocket w) st' = Some Pending) as Hw
    by (cbn; rewrite Esp; by apply list_lookup_middle).
  assert (socket st1 = Some sock) as Hs1 by (subst st1; by rewrite settle_socket).
  assert (pstate (PSocket w) st1 = Some (Resolved v)) as Hw1 by (by apply settle_pending).
  assert (async_promises st1 = async_promises st ++ [Pending; Pending]) as Ea1.
  { subst st1. unfold settle. rewrite Hw. done. }
  assert (reactions st1 !! length (reactions st) =
          Some (mkReaction (PSocket w)
                  (FCallSubscribe1 (S c) (eventEmitterChannel eventEmitterId)
                     (JObj [("eventEmitterId"%string, JNum eventEmitterId);
                            ("eventNames"%string, JArr (map JStr eventNames))])))) as Ek.
  { subst st1. rewrite settle_reactions, Er. by apply list_lookup_middle. }
  split; [done|]. split; [done|].
  rewrite (reaction_runs_spec _ _ _ Ek). cbn [awaited frame]. rewrite Hw1.
  cbn [resume]. js_unfold. cbn -[callMethod]. rewrite Hs1.
  set (st2 := set_reactions _ st1). cbn [bind].
  destruct (callMethod_open st2 sock "eventbus" "subscribe"
              (Some [id sock; JStr (eventEmitterChannel eventEmitterId);
                     JObj [("eventEmitterId"%string, JNum eventEmitterId);
                           ("eventNames"%string, JArr (map JStr eventNames))]])
              (JObj [("method"%string, JStr "POST"); ("json"%string, JBool true)]) Hs1)
    as (st3 & -> & _ & Ea3 & _). cbn.
  split; [done|]. rewrite Ea3. apply lookup_app_l_Some.
  subst st2. cbn. rewrite Ea1. by apply list_lookup_middle.
Qed.

End Properties.

(** * The theorems at sample inputs *)

#[local] Existing Instance sample_config.

Lemma reachable_consumed_7 : reachable consumed_7.
Proof. apply reachable_run, reachable_init. Qed.

Lemma fields_present_stream_message channel i type args :
  channel <> "service_framework_rpc"%string ->
  channel <> "service_framework3_rpc"%string ->
  channel <> "service_framework_event"%string ->
  fields_present (stream_message channel i type args).
Proof. intros H1 H2 H3. split_and!; intros [= E]; done. Qed.

Lemma no_error_event_stream_message channel i type args :
  channel <> "error"%string -> type <> "error"%string ->
  no_error_event (stream_message channel i type args).
Proof.
  intros H1 H2. split; [intros [= E]; done|].
  intros ev [= <-]. split; [done|]. intros [= E]. done.
Qed.


(** ** Calls *)

(** A call on a fresh connection gets the request id 1; the response
    [{requestId: 1, result: 42}] resolves it with 42. *)
Lemma call_settles_exactly_once_witness :
  reachable (constructor sample_socket) /\
  socket (constructor sample_socket) = Some sample_socket /\
  val (callServiceFrameworkMethod "FlowService" "findDefinition" [JStr "a.js"] JUndefined
         (Some 5000) (constructor sample_socket)) = Ok (PRpc 1) /\
  pstate (PRpc 1)
    (post (_handleSocketMessage (rpc_response (Some 1) JUndefined (JNum 42))
             (post (callServiceFrameworkMethod "FlowService" "findDefinition" [JStr "a.js"]
                      JUndefined (Some 5000) (constructor sample_socket))))) =
    Some (Resolved (JNum 42)).
Proof.
  split; [apply reachable_init|]. split; [reflexivity|].
  destruct (call_settles_exactly_once (constructor sample_socket) sample_socket
              "FlowService" "findDefinition" [JStr "a.js"] JUndefined (Some 5000) []
              (reachable_init sample_socket) eq_refl) as (Hv & Hp & Hpending & _).
  split; [exact Hv|].
  destruct (Hpending Hp) as (Hresp & _).
  exact (proj2 (Hresp (rpc_response (Some 1) JUndefined (JNum 42)) (conj eq_refl eq_refl))).
Defined.

(** The request ids of a call, a generated id, a subscription and another
    call are 1, 2, 3, 4; the generator returns 5 next, and a further call
    gets the promise of the id 5 and sends its request under the id 5. *)
Lemma request_ids_count_up_witness :
  request_ids (run_fx four_ids (constructor sample_socket)) = [1; 2; 3; 4] /\
  val (nextRequestId (run four_ids (constructor sample_socket))) = Ok 5 /\
  val (callServiceFrameworkMethod "a" "d" [] JUndefined None
         (run four_ids (constructor sample_socket))) = Ok (PRpc 5) /\
  sent (fx (callServiceFrameworkMethod "a" "d" [] JUndefined None
              (run four_ids (constructor sample_socket)))) =
    [Request.mk "a" "d" [] JUndefined 5].
Proof.
  pose proof (request_ids_count_up sample_socket four_ids) as H. cbn zeta in H.
  destruct H as (E & _ & _ & _ & Hn & Hc & _).
  assert (length (request_ids (run_fx four_ids (constructor sample_socket))) = 4%nat) as L
    by (vm_compute; reflexivity).
  rewrite L in E, Hn, Hc.
  split; [exact E|]. split; [rewrite Hn; reflexivity|].
  destruct (Hc "a"%string "d"%string [] JUndefined None) as (Hv & _ & _ & _ & Hopen).
  split; [exact Hv|].
  apply Hopen. exists sample_socket. vm_compute. reflexivity.
Defined.

(** A response for a request id that was never handed out. *)
Lemma rpc_response_without_pending_request_witness :
  Message.channel (rpc_response (Some 7) JUndefined (JNum 1)) =
    Some SERVICE_FRAMEWORK_RPC_CHANNEL /\
  Message.requestId (rpc_response (Some 7) JUndefined (JNum 1)) = Some 7 /\
  ~ pending_request 7 (constructor sample_socket) /\
  val (_handleSocketMessage (rpc_response (Some 7) JUndefined (JNum 1))
         (constructor sample_socket)) = Ok tt /\
  post (_handleSocketMessage (rpc_response (Some 7) JUndefined (JNum 1))
          (constructor sample_socket)) = constructor sample_socket.
Proof.
  assert (~ pending_request 7 (constructor sample_socket)) as Hn
    by (intros Hp; apply Hp; reflexivity).
  split; [reflexivity|]. split; [reflexivity|]. split; [exact Hn|].
  destruct (@rpc_response_without_pending_request sample_config (constructor sample_socket)
              (rpc_response (Some 7) JUndefined (JNum 1)) 7 eq_refl eq_refl Hn)
    as (Hv & Hp & _).
  split; [exact Hv|exact Hp].
Defined.

(** ** The router *)

(** A ['data'] event for the registered stream 7 goes to the emitter of the
    stream and to the generic bus. *)
Lemma router_destinations_witness :
  fields_present data_7 /\ no_error_event data_7 /\
  dispatched (fx (_handleSocketMessage data_7 consumed_7)) = [Stream 0; Eventbus].
Proof.
  assert (fields_present data_7) as Hf by (by apply fields_present_stream_message).
  assert (no_error_event data_7) as Hn by (by apply no_error_event_stream_message).
  split; [exact Hf|]. split; [exact Hn|].
  pose proof (router_destinations consumed_7 data_7) as H. cbn zeta in H.
  destruct H as (_ & _ & H & _). destruct (H Hf Hn) as [_ E].
  rewrite E. reflexivity.
Defined.

(** C3 as stated fails: the event for the registered stream 7 is handed to
    the emitter of the stream and is also broadcast on the generic bus, and
    the functions listening on both are run. *)
Lemma stream_event_is_also_broadcast :
  dispatched (fx (_handleSocketMessage data_7 consumed_7)) = [Stream 0; Eventbus] /\
  map fst (invoked (fx (_handleSocketMessage data_7 consumed_7))) = [2%nat; 1%nat].
Proof. split; vm_compute; reflexivity. Qed.

(** A well-formed envelope is handled; an rpc-response and a
    serviceFramework3 envelope without [requestId] raise. *)
Lemma handler_throws_on_missing_fields_only_witness :
  val (_handleSocketMessage data_7 consumed_7) = Ok tt /\
  _handleSocketMessage (rpc_response None JUndefined (JNum 1)) consumed_7 =
    mkOut consumed_7 [] (Throw (undefinedDeref "toString")) /\
  _handleSocketMessage sf3_without_id consumed_7 =
    mkOut consumed_7 [] (Throw (undefinedDeref "toString")).
Proof.
  destruct (@handler_throws_on_missing_fields_only sample_config)
    as (Hok & Hrpc & _ & Hsf3).
  split_and!.
  - apply Hok; [by apply fields_present_stream_message
               |by apply no_error_event_stream_message].
  - apply Hrpc; reflexivity.
  - apply Hsf3; [discriminate|discriminate|reflexivity|reflexivity].
Defined.

(** C7 as stated fails: an rpc-response envelope without [requestId] raises a
    TypeError out of the handler, and nothing is logged. *)
Lemma rpc_response_without_requestId_throws :
  val (_handleSocketMessage (rpc_response None JUndefined (JNum 1))
         (constructor sample_socket)) =
    Throw (JError "TypeError" "Cannot read property 'toString' of undefined") /\
  logged (fx (_handleSocketMessage (rpc_response None JUndefined (JNum 1))
                (constructor sample_socket))) = [].
Proof. split; vm_compute; reflexivity. Qed.

(** ** Closing *)

Lemma calls_after_close_witness :
  val (close (constructor sample_socket)) = Ok tt /\
  fx (callMethod "eventbus" "subscribe" None JUndefined
        (post (close (constructor sample_socket)))) =
    [ELoggerError (LogClosed "eventbus" "subscribe")] /\
  fx (callServiceFrameworkMethod "eventbus" "subscribe" [] JUndefined None
        (post (close (constructor sample_socket)))) = [ERequestId 1].
Proof.
  split; [reflexivity|].
  destruct (calls_after_close (constructor sample_socket) [] "eventbus" "subscribe" None
              JUndefined [] JUndefined None eq_refl) as ((r & _ & _ & H1) & _ & _ & H2).
  split; [exact H1|exact H2].
Defined.

(** C4 as stated fails: after [close()], [callMethod] does not fail; its
    promise is resolved with [undefined]. *)
Lemma callMethod_after_close_resolves :
  val (callMethod "eventbus" "subscribe" None JUndefined
         (post (close (constructor sample_socket)))) = Ok 0%nat /\
  pstate (PAsync 0)
    (post (callMethod "eventbus" "subscribe" None JUndefined
             (post (close (constructor sample_socket))))) = Some (Resolved JUndefined).
Proof. split; vm_compute; reflexivity. Qed.



(** ** Stream emitters *)






(** ** Subscriptions *)

(** A subscription on a fresh connection: the subscribe request has the id
    1, the callback is the one listener for the event, and the disposal
    sends nothing and leaves no listener. *)
Lemma unsubscribe_after_subscribe_witness :
  reachable (constructor sample_socket) /\
  socket (constructor sample_socket) = Some sample_socket /\
  sent (fx (registerEventListener "Watcher/change" 1%nat JUndefined
              (constructor sample_socket))) =
    [Request.mk "serviceFramework" "subscribeEvent"
       [JStr "client-1"; JStr "Watcher"; JStr "change"] JUndefined 1] /\
  fx (dispose 0 (post (registerEventListener "Watcher/change" 1%nat JUndefined
                         (constructor sample_socket)))) = [] /\
  EventEmitter.listeners "Watcher/change"
    (serviceFrameworkEventEmitter
       (post (registerEventListener "Watcher/change" 1%nat JUndefined
                (constructor sample_socket)))) = [mkListener (CbUser 1) false] /\
  EventEmitter.listeners "Watcher/change"
    (serviceFrameworkEventEmitter
       (post (dispose 0 (post (registerEventListener "Watcher/change" 1%nat JUndefined
                                 (constructor sample_socket)))))) = [].
Proof.
  split; [apply reachable_init|]. split; [reflexivity|].
  destruct (unsubscribe_after_subscribe (constructor sample_socket) sample_socket
              "Watcher/change" 1%nat JUndefined [] (reachable_init sample_socket) eq_refl)
    as (_ & Hsent & _ & (D & ED & _ & Hdispose) & _ & _ & Hon & Hoff).
  split; [exact Hsent|].
  vm_compute in ED. injection ED as <-.
  split; [exact (proj1 (proj2 (Hdispose eq_refl)))|].
  split; [apply Hon; discriminate|].
  apply Hoff; discriminate.
Defined.

(** ** More of the class *)

Lemma reachable_called_1 : reachable called_1.
Proof. apply reachable_run, reachable_init. Qed.

(** The call of [called_1] is pending and has its listener. *)
Lemma pending_iff_listening_witness :
  reachable called_1 /\ pending_request 1 called_1.
Proof.
  split; [exact reachable_called_1|].
  apply (proj1 (proj1 (pending_iff_listening called_1 1 reachable_called_1))).
  vm_compute. reflexivity.
Defined.

Lemma response_leaves_timer_witness :
  reachable called_1 /\
  pstate (PRpc 1) called_1 = Some Pending /\
  Message.channel (rpc_response (Some 1) JUndefined (JNum 42)) =
    Some SERVICE_FRAMEWORK_RPC_CHANNEL /\
  Message.requestId (rpc_response (Some 1) JUndefined (JNum 42)) = Some 1 /\
  is_Some (timers (post (_handleSocketMessage (rpc_response (Some 1) JUndefined (JNum 42))
                           called_1)) !! 1).
Proof.
  assert (pstate (PRpc 1) called_1 = Some Pending) as Hp by (vm_compute; reflexivity).
  split; [exact reachable_called_1|]. split; [exact Hp|].
  split; [reflexivity|]. split; [reflexivity|].
  exact (proj1 (proj2 (proj2
           (@response_leaves_timer sample_config called_1 1
              (rpc_response (Some 1) JUndefined (JNum 42))
              reachable_called_1 Hp eq_refl eq_refl)))).
Defined.



Lemma detached_emitter_is_never_called_witness :
  detached 0 (run [ConsumeStream 7; SocketMessage end_7] (constructor sample_socket)) /\
  Stream 0 ∉ dispatched
    (run_fx [SocketMessage data_7]
       (run [ConsumeStream 7; SocketMessage end_7] (constructor sample_socket))).
Proof.
  assert (detached 0 (run [ConsumeStream 7; SocketMessage end_7]
                        (constructor sample_socket))) as Hd.
  { split; [vm_compute; lia|]. intros i.
    assert (_eventEmitters (run [ConsumeStream 7; SocketMessage end_7]
                              (constructor sample_socket)) = ∅) as ->
      by (vm_compute; reflexivity).
    by rewrite lookup_empty. }
  split; [exact Hd|].
  exact (detached_emitter_is_never_called _ 0%nat [SocketMessage data_7] Hd).
Defined.


Lemma registerEventListener_after_close_witness :
  socket (post (close (constructor sample_socket))) = None /\
  val (registerEventListener "Watcher/change" 1%nat JUndefined
         (post (close (constructor sample_socket)))) = Throw (nullDeref "id").
Proof.
  split; [reflexivity|].
  exact (f_equal val (registerEventListener_after_close
                        (post (close (constructor sample_socket)))
                        "Watcher/change" 1%nat JUndefined eq_refl)).
Defined.

Lemma register_then_dispose_witness :
  socket (constructor sample_socket) = Some sample_socket /\
  meta_free (serviceFrameworkEventEmitter (constructor sample_socket)) /\
  EventEmitter.listeners "Watcher/change"
    (serviceFrameworkEventEmitter
       (post (dispose (length (disposables (constructor sample_socket)))
                (post (registerEventListener "Watcher/change" 1%nat JUndefined
                         (constructor sample_socket)))))) =
  EventEmitter.listeners "Watcher/change"
    (serviceFrameworkEventEmitter (constructor sample_socket)).
Proof.
  assert (meta_free (serviceFrameworkEventEmitter (constructor sample_socket))) as Hm
    by (split; reflexivity).
  split; [reflexivity|]. split; [exact Hm|].
  exact (proj2 (proj2 (register_then_dispose (constructor sample_socket) sample_socket
                         "Watcher/change" 1%nat JUndefined "Watcher/change" eq_refl Hm))).
Defined.


Lemma eventEmitterChannel_inj_witness :
  7 <> 8 /\ eventEmitterChannel 7 <> eventEmitterChannel 8.
Proof. split; [lia|]. apply eventEmitterChannel_inj. lia. Defined.

Lemma callMethod_follows_request_witness :
  socket (constructor sample_socket) = Some sample_socket /\
  fx (reaction_runs (length (reactions (constructor sample_socket)))
        (post (socket_settles (length (socket_promises (constructor sample_socket)))
                 (inr (JStr "ECONNRESET"))
                 (post (callMethod "FileSystemService" "readFile" None JUndefined
                          (constructor sample_socket)))))) =
    [ELoggerError (LogErr (JStr "ECONNRESET"))] /\
  pstate (PAsync (length (async_promises (constructor sample_socket))))
    (post (reaction_runs (length (reactions (constructor sample_socket)))
             (post (socket_settles (length (socket_promises (constructor sample_socket)))
                      (inr (JStr "ECONNRESET"))
                      (post (callMethod "FileSystemService" "readFile" None JUndefined
                               (constructor sample_socket))))))) =
    Some (Rejected (JStr "ECONNRESET")).
Proof.
  split; [reflexivity|].
  exact (proj2 (proj2 (proj2 (proj2 (proj2
           (callMethod_follows_request (constructor sample_socket) sample_socket
              "FileSystemService" "readFile" None JUndefined (inr (JStr "ECONNRESET"))
              eq_refl)))))).
Defined.

(** Called without options, [_callSubscribe] asks for the channel with the
    options [{}]. *)
Lemma callSubscribe_waits_for_connect_witness :
  socket (constructor sample_socket) = Some sample_socket /\
  fx (_callSubscribe "watcher" JUndefined (constructor sample_socket)) = [EWaitForConnect] /\
  fx (reaction_runs (length (reactions (constructor sample_socket)))
        (post (socket_settles (length (socket_promises (constructor sample_socket)))
                 (inl JUndefined)
                 (post (_callSubscribe "watcher" JUndefined
                          (constructor sample_socket)))))) =
    [EXhrRequest
       (Xhr.mk "eventbus/subscribe"
          (JArr [JStr "client-1"; JStr "watcher"; JObj []])
          (JArr [JStr "any"; JStr "any"; JStr "any"]) "GET"
          (JObj [("method"%string, JStr "POST"); ("json"%string, JBool true)]))] /\
  pstate (PAsync (length (async_promises (constructor sample_socket))))
    (post (reaction_runs (length (reactions (constructor sample_socket)))
             (post (socket_settles (length (socket_promises (constructor sample_socket)))
                      (inr (JStr "ETIMEDOUT"))
                      (post (_callSubscribe "watcher" JUndefined
                               (constructor sample_socket))))))) =
    Some (Rejected (JStr "ETIMEDOUT")).
Proof.
  split; [reflexivity|].
  destruct (callSubscribe_waits_for_connect (constructor sample_socket) sample_socket
              "watcher" JUndefined eq_refl) as (_ & Hf & _ & Hres & Hrej & _).
  split; [exact Hf|]. split; [exact (proj1 (Hres JUndefined))|].
  exact (proj2 (Hrej (JStr "ETIMEDOUT"))).
Defined.


Lemma dispose_follows_subscribe_outcome_witness :
  reachable (constructor sample_socket) /\
  socket (constructor sample_socket) = Some sample_socket /\
  fx (reaction_runs (length (reactions (constructor sample_socket)))
        (post (dispose (length (disposables (constructor sample_socket)))
                 (post (timer_fires (_rpcRequestId (constructor sample_socket))
                          (post (registerEventListener "Watcher/change" 1%nat JUndefined
                                   (constructor sample_socket)))))))) = [].
Proof.
  split; [apply reachable_init|]. split; [reflexivity|].
  exact (proj1 (proj2 (dispose_follows_subscribe_outcome (constructor sample_socket)
                         sample_socket "Watcher/change" 1%nat JUndefined
                         (reachable_init sample_socket) eq_refl))).
Defined.

Lemma subscription_callback_is_called_witness :
  socket (constructor sample_socket) = Some sample_socket /\
  invoked (fx (_handleSocketMessage change_event
                 (post (registerEventListener "Watcher/change" 1%nat JUndefined
                          (constructor sample_socket))))) =
  invoked (fx (_handleSocketMessage change_event (constructor sample_socket))) ++
  [(1%nat, spread (JArr [JStr "a.js"]))].
Proof.
  split; [reflexivity|].
  refine (@subscription_callback_is_called sample_config (constructor sample_socket)
            sample_socket "Watcher/change" 1%nat JUndefined change_event
            (Event.mk (Some "Watcher/change"%string) (JArr [JStr "a.js"%string]) None None [])
            eq_refl _ eq_refl eq_refl eq_refl).
  discriminate.
Defined.

Lemma consumeEventEmitter_subscribes_witness :
  socket (constructor sample_socket) = Some sample_socket /\
  fx (consumeEventEmitter 7 ["data"%string] None (constructor sample_socket)) =
    [EWaitForConnect].
Proof.
  split; [reflexivity|].
  exact (proj1 (proj2 (consumeEventEmitter_subscribes (constructor sample_socket)
                         sample_socket 7 ["data"%string] None JUndefined eq_refl))).
Defined.
